(** * Returns computation engine of the trading dashboard backend

    A shallow embedding of [InvestmentCalculator]
    (src/services/investmentCalculator.js) and of the weekly interpolator of
    the admin routes (src/routes/admin.js), with the properties the
    specification states about them.

    Conventions of the embedding:
    - a JavaScript [Number] holding a currency amount or a percentage is an
      exact rational ([Q]); equations between computed amounts are stated up
      to [Qeq] ([==]);
    - a JavaScript [Date] is its time value, an integer number of
      milliseconds since the epoch ([Z]); the local time zone is UTC, so that
      local calendar fields are the ECMA-262 functions of the time value;
    - a MongoDB collection is the list of its documents in natural order;
    - an [async] method is a computation in a state-and-exception monad over
      the collections and the system clock: requests are not interleaved. *)

From Stdlib Require Import ZArith QArith Qround Qabs List Bool Lia Lqa Permutation.
Import ListNotations.

Open Scope Z_scope.

(** ** Dates: the calendar functions of ECMA-262, section 21.4.1 *)

Module JSDate.

Definition Date := Z.
Bind Scope Z_scope with Date.

Definition msPerDay : Z := 86400000.
Definition msPerWeek : Z := 7 * 24 * 60 * 60 * 1000.

Definition Day (t : Date) : Z := t / msPerDay.
Definition TimeWithinDay (t : Date) : Z := t mod msPerDay.

Definition DaysInYear (y : Z) : Z :=
  if negb (y mod 4 =? 0) then 365
  else if negb (y mod 100 =? 0) then 366
  else if negb (y mod 400 =? 0) then 365
  else 366.

Definition InLeapYearOf (y : Z) : Z := DaysInYear y - 365.

Definition DayFromYear (y : Z) : Z :=
  365 * (y - 1970) + (y - 1969) / 4 - (y - 1901) / 100 + (y - 1601) / 400.

(** [YearFromDay d] is the largest [y] with [DayFromYear y <= d]: the mean
    Gregorian year (146097/400 days) gives an estimate that is off by at
    most one. *)
Definition YearFromDay (d : Z) : Z :=
  let y0 := 1970 + (400 * d) / 146097 in
  if DayFromYear (y0 + 1) <=? d then y0 + 1
  else if DayFromYear y0 <=? d then y0
  else y0 - 1.

Definition YearFromTime (t : Date) : Z := YearFromDay (Day t).

(** First day, within a year, of month [m] (0 = January); [leap] is 1 in a
    leap year and 0 otherwise. *)
Definition MonthStartInYear (leap m : Z) : Z :=
  match m with
  | 0 => 0
  | 1 => 31
  | 2 => 59 + leap
  | 3 => 90 + leap
  | 4 => 120 + leap
  | 5 => 151 + leap
  | 6 => 181 + leap
  | 7 => 212 + leap
  | 8 => 243 + leap
  | 9 => 273 + leap
  | 10 => 304 + leap
  | 11 => 334 + leap
  | _ => 365 + leap
  end.

Definition MonthInYear (leap dayInYear : Z) : Z :=
  if dayInYear <? 31 then 0
  else if dayInYear <? 59 + leap then 1
  else if dayInYear <? 90 + leap then 2
  else if dayInYear <? 120 + leap then 3
  else if dayInYear <? 151 + leap then 4
  else if dayInYear <? 181 + leap then 5
  else if dayInYear <? 212 + leap then 6
  else if dayInYear <? 243 + leap then 7
  else if dayInYear <? 273 + leap then 8
  else if dayInYear <? 304 + leap then 9
  else if dayInYear <? 334 + leap then 10
  else 11.

Definition DayWithinYear (t : Date) : Z := Day t - DayFromYear (YearFromTime t).

Definition MonthFromTime (t : Date) : Z :=
  MonthInYear (InLeapYearOf (YearFromTime t)) (DayWithinYear t).

Definition DateFromTime (t : Date) : Z :=
  DayWithinYear t
  - MonthStartInYear (InLeapYearOf (YearFromTime t)) (MonthFromTime t) + 1.

(** Thursday, 1 January 1970 is day 0. *)
Definition WeekDay (t : Date) : Z := (Day t + 4) mod 7.

Definition MakeDay (year month date : Z) : Z :=
  let ym := year + month / 12 in
  let mn := month mod 12 in
  DayFromYear ym + MonthStartInYear (InLeapYearOf ym) mn + date - 1.

Definition MakeDate (day time : Z) : Date := day * msPerDay + time.

(** [new Date(year, month, date)]: local midnight of the given day. *)
Definition mkDate (year month date : Z) : Date :=
  MakeDate (MakeDay year month date) 0.

Definition getFullYear (t : Date) : Z := YearFromTime t.
Definition getMonth (t : Date) : Z := MonthFromTime t.
Definition getDate (t : Date) : Z := DateFromTime t.
Definition getTime (t : Date) : Z := t.

(** [d.setMonth(month)] and [d.setDate(date)] as functions of the old
    time value. *)
Definition setMonth (t : Date) (month : Z) : Date :=
  MakeDate (MakeDay (YearFromTime t) month (DateFromTime t)) (TimeWithinDay t).

Definition setDate (t : Date) (date : Z) : Date :=
  MakeDate (MakeDay (YearFromTime t) (MonthFromTime t) date) (TimeWithinDay t).

(** [a.toDateString() === b.toDateString()]: the same calendar day. *)
Definition sameDateString (a b : Date) : bool := Day a =? Day b.

(** Months counted from January of year 0. *)
Definition monthIndex (t : Date) : Z := 12 * YearFromTime t + MonthFromTime t.

Definition monthStartDay (k : Z) : Z := MakeDay 0 k 1.

Definition monthStart (k : Z) : Date := mkDate 0 k 1.

End JSDate.

Import JSDate.



(** ** Numbers *)

Open Scope Q_scope.

(** The result of a JavaScript division whose denominator may be zero:
    a finite value, an infinity, or NaN.  Zero denominators are [+0]. *)
Inductive JsNumber : Type :=
| Finite (q : Q)
| Infinity (positive : bool)
| NaN.

Definition js_div (a b : Q) : JsNumber :=
  if Qeq_bool b 0 then
    if Qeq_bool a 0 then NaN else Infinity (Qle_bool 0 a)
  else Finite (a / b).

(** Multiplication by a positive finite factor. *)
Definition js_scale (x : JsNumber) (c : Q) : JsNumber :=
  match x with
  | Finite q => Finite (q * c)
  | Infinity s => Infinity s
  | NaN => NaN
  end.

Definition js_isNaN (x : JsNumber) : bool :=
  match x with NaN => true | _ => false end.

(** [x || 0] on a number: zero is the only falsy finite value. *)
Definition orZero (x : Q) : Q := if Qeq_bool x 0 then 0 else x.

(** [parseFloat(x.toFixed(2))]: the nearest multiple of 1/100, ties away
    from zero (Number.prototype.toFixed rounds the magnitude half up). *)
Definition toFixed2 (x : Q) : Q :=
  let n := Qfloor (Qabs x * 100 + (1 # 2)) in
  if Qle_bool 0 x then inject_Z n / 100 else - (inject_Z n / 100).

(** [Math.ceil] of a quotient of two integers. *)
Definition Math_ceil (q : Q) : Z := Qceiling q.


(** ** Documents of the collections *)

Definition ObjectId := N.
Bind Scope N_scope with ObjectId.

Module User.
Record t := mk { _id : ObjectId; name : N }.
End User.

Module Investment.
Inductive kind := deposit | withdrawal.
Inductive state := active | cancelled.
Record t := mk {
    clientId : ObjectId;
    amount : Q;
    investmentDate : Date;
    type : kind;
    status : state
  }.
Definition isActive (i : t) : bool :=
    match status i with active => true | cancelled => false end.
End Investment.

Module PlatformInvestment.
Inductive state := active | closed.
Record t := mk {
    _id : ObjectId;
    platformName : N;
    amount : Q;
    investmentDate : Date;
    returnPercentage : Q;
    currentValue : Q;
    status : state
  }.
Definition isActive (p : t) : bool :=
    match status p with active => true | closed => false end.
End PlatformInvestment.

Module WeeklyPlatformData.
Record t := mk {
    platformId : ObjectId;
    weekStartDate : Date;
    weekEndDate : Date;
    weekNumber : Z;
    year : Z;
    openingValue : Q;
    closingValue : Q;
    weeklyReturn : JsNumber;
    profitAmount : Q;
    notes : option N;
    enteredBy : option ObjectId;
    isInterpolated : bool
  }.
End WeeklyPlatformData.

Module MonthlyReturn.
Record clientReturn := mkClient {
    clientId : ObjectId;
    investmentShare : Q;
    sharePercentage : Q;
    returnAmount : Q;
    closingBalance : Q
  }.
  (** The schema keeps [platformId], [returnPercentage] and [returnAmount]
      of a platform entry; the calculator never supplies [returnAmount]. *)
Record platformReturn := mkPlatform {
    platformId : ObjectId;
    returnPercentage : Q;
    platformReturnAmount : option Q
  }.
Record t := mk {
    month : Date;
    totalCorpus : Q;
    totalPlatformValue : Q;
    monthlyReturnPercentage : Q;
    clientReturns : list clientReturn;
    platformReturns : list platformReturn;
    calculatedAt : Date
  }.
End MonthlyReturn.

(** ** The store and the monad of asynchronous methods *)

Record World := mkWorld {
  users : list User.t;
  investments : list Investment.t;
  platformInvestments : list PlatformInvestment.t;
  weeklyPlatformData : list WeeklyPlatformData.t;
  monthlyReturns : list MonthlyReturn.t;
  (** the system clock: the value of its n-th reading *)
  clock : nat -> Date;
  ticks : nat
}.

Inductive JsError := TypeError | CastError | DuplicateKeyError.

(** A call returns, throws, or (for a [while] loop that exhausts the fuel of
    its model) does not terminate. *)
Inductive Outcome (A : Type) : Type :=
| Returned (a : A)
| Thrown (e : JsError)
| Diverges.
Arguments Returned {A} a.
Arguments Thrown {A} e.
Arguments Diverges {A}.

Definition Async (A : Type) : Type := World -> Outcome A * World.

Definition ret {A} (a : A) : Async A := fun w => (Returned a, w).
Definition throw {A} (e : JsError) : Async A := fun w => (Thrown e, w).
Definition diverge {A} : Async A := fun w => (Diverges, w).
Definition bind {A B} (c : Async A) (k : A -> Async B) : Async B :=
  fun w => match c w with
           | (Returned a, w') => k a w'
           | (Thrown e, w') => (Thrown e, w')
           | (Diverges, w') => (Diverges, w')
           end.

Declare Scope async_scope.
Delimit Scope async_scope with async.
Notation "x <- c ;; k" := (bind c (fun x => k))
  (at level 61, c at next level, right associativity) : async_scope.
Notation "c ;;; k" := (bind c (fun _ => k))
  (at level 61, right associativity) : async_scope.

(** [for (const x of xs) { await body(x) }] *)
Fixpoint forOf {A} (xs : list A) (body : A -> Async unit) : Async unit :=
  match xs with
  | [] => ret tt
  | x :: xs' => bind (body x) (fun _ => forOf xs' body)
  end.

(** [new Date()] reads the clock. *)
Definition newDate : Async Date :=
  fun w => (Returned (clock w (ticks w)),
            mkWorld (users w) (investments w) (platformInvestments w)
              (weeklyPlatformData w) (monthlyReturns w) (clock w)
              (S (ticks w))).

Definition getWorld : Async World := fun w => (Returned w, w).

Definition setMonthlyReturns (ms : list MonthlyReturn.t) : Async unit :=
  fun w => (Returned tt,
            mkWorld (users w) (investments w) (platformInvestments w)
              (weeklyPlatformData w) ms (clock w) (ticks w)).

Definition setWeeklyPlatformData (ws : list WeeklyPlatformData.t)
  : Async unit :=
  fun w => (Returned tt,
            mkWorld (users w) (investments w) (platformInvestments w)
              ws (monthlyReturns w) (clock w) (ticks w)).

(** [xs.map(async x => ...)] awaited in order, as the [for ... push] loops
    of the source do. *)
Fixpoint mapAsync {A B} (f : A -> Async B) (xs : list A) : Async (list B) :=
  match xs with
  | [] => ret []
  | x :: xs' =>
      bind (f x) (fun y => bind (mapAsync f xs') (fun ys => ret (y :: ys)))
  end.

(** [xs.forEach(f)] where [f] updates local variables and may throw. *)
Fixpoint forEach {A S} (f : S -> A -> Outcome S) (xs : list A) (s : S)
  : Outcome S :=
  match xs with
  | [] => Returned s
  | x :: xs' =>
      match f s x with
      | Returned s' => forEach f xs' s'
      | Thrown e => Thrown e
      | Diverges => Diverges
      end
  end.

Definition liftOutcome {A} (o : Outcome A) : Async A := fun w => (o, w).

(** ** src/services/investmentCalculator.js *)

Module InvestmentCalculator.

Local Open Scope async_scope.

(** An entry of the [clientInvestments] object while it is being filled. *)
Module ClientInvestment.
Record t := mk {
    clientId : ObjectId;
    clientName : N;
    totalInvestment : Q
  }.
End ClientInvestment.

Module ClientShare.
Record t := mk {
    clientId : ObjectId;
    clientName : N;
    totalInvestment : Q;
    sharePercentage : Q
  }.
End ClientShare.

Record CorpusData := mkCorpusData {
  totalCorpus : Q;
  clientShares : list ClientShare.t
}.

Module PlatformData.
Record t := mk {
    platformId : ObjectId;
    platformName : N;
    returnPercentage : Q;
    currentValue : Q
  }.
End PlatformData.

Record PlatformReturns := mkPlatformReturns {
  totalValue : Q;
  platforms : list PlatformData.t
}.

Record RecalculationResult := mkResult {
  success : bool;
  monthsRecalculated : nat
}.

(** [Investment.find({ investmentDate: { $lte: date }, status: 'active' })
      .populate('clientId')]: [populate] puts [null] where no user has the
    referenced id. *)
Definition selected (date : Date) (inv : Investment.t) : bool :=
  (Investment.investmentDate inv <=? date)%Z && Investment.isActive inv.

Definition populate (us : list User.t) (inv : Investment.t)
  : Investment.t * option User.t :=
  (inv, find (fun u => N.eqb (User._id u) (Investment.clientId inv)) us).

Definition findInvestments (date : Date)
  : Async (list (Investment.t * option User.t)) :=
  fun w => (Returned (map (populate (users w))
                        (filter (selected date) (investments w))), w).

(** [clientInvestments[clientId]]: the object keeps its keys in insertion
    order (the keys are 24-digit hexadecimal strings, never array
    indices). *)
Fixpoint lookupClient (cs : list ClientInvestment.t) (id : ObjectId)
  : option ClientInvestment.t :=
  match cs with
  | [] => None
  | c :: cs' =>
      if N.eqb (ClientInvestment.clientId c) id then Some c
      else lookupClient cs' id
  end.

(** [clientInvestments[clientId].totalInvestment += amount] *)
Fixpoint addToClient (cs : list ClientInvestment.t) (id : ObjectId)
  (amount : Q) : list ClientInvestment.t :=
  match cs with
  | [] => []
  | c :: cs' =>
      if N.eqb (ClientInvestment.clientId c) id then
        ClientInvestment.mk (ClientInvestment.clientId c)
          (ClientInvestment.clientName c)
          (ClientInvestment.totalInvestment c + amount) :: cs'
      else c :: addToClient cs' id amount
  end.

Definition signedAmount (inv : Investment.t) : Q :=
  match Investment.type inv with
  | Investment.withdrawal => - Investment.amount inv
  | Investment.deposit => Investment.amount inv
  end.

(** The body of [investments.forEach(inv => ...)] on the local variables
    [clientInvestments] and [totalCorpus]. *)
Definition groupByClient (acc : list ClientInvestment.t * Q)
  (inv : Investment.t * option User.t)
  : Outcome (list ClientInvestment.t * Q) :=
  let (clientInvestments, totalCorpus) := acc in
  match snd inv with
  | None => Thrown TypeError
  | Some client =>
      let clientId := User._id client in
      let clientInvestments :=
        match lookupClient clientInvestments clientId with
        | None =>
            clientInvestments
              ++ [ClientInvestment.mk clientId (User.name client) 0]
        | Some _ => clientInvestments
        end in
      let amount := signedAmount (fst inv) in
      Returned (addToClient clientInvestments clientId amount,
                totalCorpus + amount)
  end.

Definition withShare (totalCorpus : Q) (client : ClientInvestment.t)
  : ClientShare.t :=
  ClientShare.mk (ClientInvestment.clientId client)
    (ClientInvestment.clientName client)
    (ClientInvestment.totalInvestment client)
    (if Qeq_bool totalCorpus 0 then 0
     else toFixed2 (ClientInvestment.totalInvestment client
                    / totalCorpus * 100)).

Definition getCorpusAtDate (date : Date) : Async CorpusData :=
  investments <- findInvestments date ;;
  grouped <- liftOutcome (forEach groupByClient investments ([], 0)) ;;
  let (clientInvestments, totalCorpus) :=
    (grouped : list ClientInvestment.t * Q) in
  ret (mkCorpusData (orZero totalCorpus)
         (map (withShare totalCorpus) clientInvestments)).

Definition platformSelected (endDate : Date) (p : PlatformInvestment.t)
  : bool :=
  (PlatformInvestment.investmentDate p <=? endDate)%Z
  && PlatformInvestment.isActive p.

Definition toPlatformData (p : PlatformInvestment.t) : PlatformData.t :=
  PlatformData.mk (PlatformInvestment._id p)
    (PlatformInvestment.platformName p)
    (PlatformInvestment.returnPercentage p)
    (PlatformInvestment.currentValue p).

Definition getPlatformReturns (startDate endDate : Date)
  : Async PlatformReturns :=
  fun w =>
    let platforms :=
      filter (platformSelected endDate) (platformInvestments w) in
    let totalValue :=
      fold_left (fun tv p => tv + PlatformInvestment.currentValue p)
        platforms 0 in
    (Returned (mkPlatformReturns totalValue (map toPlatformData platforms)),
     w).

Definition calculateWeightedReturn (platformReturns : PlatformReturns) : Q :=
  if Qeq_bool (totalValue platformReturns) 0 then 0
  else
    fold_left
      (fun weightedReturn platform =>
         let weight :=
           PlatformData.currentValue platform / totalValue platformReturns in
         weightedReturn
         + orZero (PlatformData.returnPercentage platform) * weight)
      (platforms platformReturns) 0.

(** [MonthlyReturn.findOne({ month: previousMonth,
      'clientReturns.clientId': clientId })] and the lookup that follows. *)
Definition hasClient (clientId : ObjectId) (m : MonthlyReturn.t) : bool :=
  existsb (fun cr => N.eqb (MonthlyReturn.clientId cr) clientId)
    (MonthlyReturn.clientReturns m).

Definition getPreviousClosingBalance (clientId : ObjectId) (date : Date)
  : Async Q :=
  let previousMonth := mkDate (getFullYear date) (getMonth date - 1) 1 in
  fun w =>
    let previousReturn :=
      find (fun m => (MonthlyReturn.month m =? previousMonth)%Z
                     && hasClient clientId m) (monthlyReturns w) in
    (Returned
       match previousReturn with
       | Some previousReturn =>
           match find (fun cr => N.eqb (MonthlyReturn.clientId cr) clientId)
                   (MonthlyReturn.clientReturns previousReturn) with
           | Some clientReturn => MonthlyReturn.closingBalance clientReturn
           | None => 0
           end
       | None => 0
       end, w).

Definition calculateClientReturns (corpusData : CorpusData)
  (returnPercentage : Q) (date : Date)
  : Async (list MonthlyReturn.clientReturn) :=
  mapAsync
    (fun clientShare =>
       previousBalance <-
         getPreviousClosingBalance (ClientShare.clientId clientShare) date ;;
       let currentInvestment := ClientShare.totalInvestment clientShare in
       let returnAmount := currentInvestment * (returnPercentage / 100) in
       let closingBalance := currentInvestment + returnAmount in
       ret (MonthlyReturn.mkClient (ClientShare.clientId clientShare)
              currentInvestment (ClientShare.sharePercentage clientShare)
              returnAmount closingBalance))
    (clientShares corpusData).

(** [MonthlyReturn.findOneAndUpdate({ month }, doc, { upsert: true })]:
    the first document of that month takes the fields of [doc]; without
    one, [doc] is inserted. *)
Fixpoint upsert (doc : MonthlyReturn.t) (ms : list MonthlyReturn.t)
  : list MonthlyReturn.t :=
  match ms with
  | [] => [doc]
  | m :: ms' =>
      if (MonthlyReturn.month m =? MonthlyReturn.month doc)%Z
      then doc :: ms'
      else m :: upsert doc ms'
  end.

Definition findOneAndUpdate (doc : MonthlyReturn.t) : Async unit :=
  w <- getWorld ;; setMonthlyReturns (upsert doc (monthlyReturns w)).

(** The schema of [platformReturns] drops [platformName] and
    [currentValue]. *)
Definition toPlatformReturn (p : PlatformData.t)
  : MonthlyReturn.platformReturn :=
  MonthlyReturn.mkPlatform (PlatformData.platformId p)
    (PlatformData.returnPercentage p) None.

Definition calculateMonthlyReturns (monthDate : Date) : Async unit :=
  let startOfMonth :=
    mkDate (getFullYear monthDate) (getMonth monthDate) 1 in
  let endOfMonth :=
    mkDate (getFullYear monthDate) (getMonth monthDate + 1) 0 in
  corpusData <- getCorpusAtDate endOfMonth ;;
  platformReturns <- getPlatformReturns startOfMonth endOfMonth ;;
  let totalReturnPercentage := calculateWeightedReturn platformReturns in
  clientReturns <-
    calculateClientReturns corpusData totalReturnPercentage endOfMonth ;;
  calculatedAt <- newDate ;;
  findOneAndUpdate
    (MonthlyReturn.mk startOfMonth (totalCorpus corpusData)
       (totalValue platformReturns) totalReturnPercentage clientReturns
       (map toPlatformReturn (platforms platformReturns)) calculatedAt).

(** The loop of [getMonthsFromDate]:
    [while (current <= now) { months.push(new Date(current));
                              current.setMonth(current.getMonth() + 1) }] *)
Fixpoint monthsLoop (fuel : nat) (current now : Date) (months : list Date)
  : option (list Date) :=
  match fuel with
  | O => None
  | S fuel' =>
      if (current <=? now)%Z then
        monthsLoop fuel' (setMonth current (getMonth current + 1)) now
          (months ++ [current])
      else Some months
  end.

(** A month has at least 28 days, which bounds the number of rounds. *)
Definition monthsFuel (current now : Date) : nat :=
  S (S (Z.to_nat ((now - current) / (28 * msPerDay)))).

Definition getMonthsFromDate (fromDate : Date) : Async (list Date) :=
  let current := mkDate (getFullYear fromDate) (getMonth fromDate) 1 in
  now <- newDate ;;
  match monthsLoop (monthsFuel current now) current now [] with
  | Some months => ret months
  | None => diverge
  end.

Definition recalculateFromDate (fromDate : Date)
  : Async RecalculationResult :=
  months <- getMonthsFromDate fromDate ;;
  forOf months calculateMonthlyReturns ;;;
  ret (mkResult true (length months)).

End InvestmentCalculator.

(** ** src/routes/admin.js: weekly platform data

    The routes use the model [WeeklyPlatformData]; the name is taken here to
    be bound to the model of src/models/WeeklyPlatformData.js. *)

Module AdminRoutes.

Local Open Scope async_scope.

(** The ISO week number of a date, computed on UTC midnight of its day. *)
Definition getWeekNumber (date : Date) : Z :=
  let d := mkDate (getFullYear date) (getMonth date) (getDate date) in
  let dayNum := if (WeekDay d =? 0)%Z then 7%Z else WeekDay d in
  let d := setDate d (getDate d + 4 - dayNum) in
  let yearStart := mkDate (getFullYear d) 0 1 in
  Math_ceil ((inject_Z (d - yearStart) / inject_Z 86400000 + 1) / 7).

(** [.sort(key)]: a stable sort on an integer key. *)
Fixpoint insertBy {A} (key : A -> Z) (x : A) (xs : list A) : list A :=
  match xs with
  | [] => [x]
  | y :: ys =>
      if (key x <=? key y)%Z then x :: y :: ys else y :: insertBy key x ys
  end.

Definition sortBy {A} (key : A -> Z) (xs : list A) : list A :=
  fold_right (insertBy key) [] xs.

(** [findOne(filter).sort(key)]: a document of least key among those that
    match, the first such in natural order. *)
Fixpoint leastBy {A} (key : A -> Z) (xs : list A) : option A :=
  match xs with
  | [] => None
  | x :: xs' =>
      match leastBy key xs' with
      | Some y => if (key y <? key x)%Z then Some y else Some x
      | None => Some x
      end
  end.

Definition ofPlatform (platformId : ObjectId) (d : WeeklyPlatformData.t)
  : bool :=
  N.eqb (WeeklyPlatformData.platformId d) platformId.

(** [WeeklyPlatformData.find({ platformId,
      weekStartDate: { $gte: startDate, $lte: endDate } })
      .sort('weekStartDate')] *)
Definition findExistingWeeks (platformId : ObjectId) (startDate endDate : Date)
  : Async (list WeeklyPlatformData.t) :=
  fun w =>
    (Returned
       (sortBy WeeklyPlatformData.weekStartDate
          (filter
             (fun d => ofPlatform platformId d
                       && (startDate <=? WeeklyPlatformData.weekStartDate d)%Z
                       && (WeeklyPlatformData.weekStartDate d <=? endDate)%Z)
             (weeklyPlatformData w))), w).

(** [WeeklyPlatformData.findOne({ platformId,
      weekEndDate: { $lt: currentWeek } }).sort('-weekEndDate')] *)
Definition findBefore (platformId : ObjectId) (currentWeek : Date)
  : Async (option WeeklyPlatformData.t) :=
  fun w =>
    (Returned
       (leastBy (fun d => (- WeeklyPlatformData.weekEndDate d)%Z)
          (filter
             (fun d => ofPlatform platformId d
                       && (WeeklyPlatformData.weekEndDate d <? currentWeek)%Z)
             (weeklyPlatformData w))), w).

(** [WeeklyPlatformData.findOne({ platformId,
      weekStartDate: { $gt: currentWeek } }).sort('weekStartDate')] *)
Definition findAfter (platformId : ObjectId) (currentWeek : Date)
  : Async (option WeeklyPlatformData.t) :=
  fun w =>
    (Returned
       (leastBy WeeklyPlatformData.weekStartDate
          (filter
             (fun d => ofPlatform platformId d
                       && (currentWeek <? WeeklyPlatformData.weekStartDate d)%Z)
             (weeklyPlatformData w))), w).

(** [WeeklyPlatformData.create(doc)]: validation casts every [Number] path,
    and NaN does not cast; the collection has a unique index on
    [(platformId, weekStartDate)]. *)
Definition create (doc : WeeklyPlatformData.t) : Async unit :=
  w <- getWorld ;;
  if js_isNaN (WeeklyPlatformData.weeklyReturn doc) then throw CastError
  else if existsb
            (fun d => ofPlatform (WeeklyPlatformData.platformId doc) d
                      && (WeeklyPlatformData.weekStartDate d
                          =? WeeklyPlatformData.weekStartDate doc)%Z)
            (weeklyPlatformData w)
  then throw DuplicateKeyError
  else setWeeklyPlatformData (weeklyPlatformData w ++ [doc]).

(** The string ['Auto-interpolated']. *)
Definition autoInterpolated : N := 0%N.

(** The row that fills [currentWeek] between [before] and [after]. *)
Definition interpolatedRow (platformId : ObjectId) (currentWeek : Date)
  (before after : WeeklyPlatformData.t) : WeeklyPlatformData.t :=
  let weeksBetween :=
    Math_ceil (inject_Z (WeeklyPlatformData.weekStartDate after
                         - WeeklyPlatformData.weekEndDate before)
               / inject_Z msPerWeek) in
  let valueChange :=
    WeeklyPlatformData.openingValue after
    - WeeklyPlatformData.closingValue before in
  let changePerWeek := valueChange / inject_Z weeksBetween in
  let interpolatedValue :=
    WeeklyPlatformData.closingValue before + changePerWeek in
  WeeklyPlatformData.mk platformId currentWeek
    (getTime currentWeek + 6 * 24 * 60 * 60 * 1000)%Z
    (getWeekNumber currentWeek) (getFullYear currentWeek)
    (WeeklyPlatformData.closingValue before) interpolatedValue
    (js_scale
       (js_div (interpolatedValue - WeeklyPlatformData.closingValue before)
          (WeeklyPlatformData.closingValue before)) 100)
    (interpolatedValue - WeeklyPlatformData.closingValue before)
    (Some autoInterpolated) None true.

(** One round of the [while] loop of [interpolateMissingWeeks]. *)
Definition interpolateWeek (platform : PlatformInvestment.t)
  (existingWeeks : list WeeklyPlatformData.t) (currentWeek : Date)
  : Async unit :=
  let weekExists :=
    existsb
      (fun w => sameDateString (WeeklyPlatformData.weekStartDate w)
                  currentWeek)
      existingWeeks in
  if negb weekExists then
    before <- findBefore (PlatformInvestment._id platform) currentWeek ;;
    after <- findAfter (PlatformInvestment._id platform) currentWeek ;;
    match before, after with
    | Some before, Some after =>
        create (interpolatedRow (PlatformInvestment._id platform)
                  currentWeek before after)
    | _, _ => ret tt
    end
  else ret tt.

(** [while (currentWeek <= endDate) { ...;
      currentWeek.setDate(currentWeek.getDate() + 7) }] *)
Fixpoint weeksLoop (fuel : nat) (platform : PlatformInvestment.t)
  (existingWeeks : list WeeklyPlatformData.t) (currentWeek endDate : Date)
  : Async unit :=
  match fuel with
  | O => diverge
  | S fuel' =>
      if (currentWeek <=? endDate)%Z then
        interpolateWeek platform existingWeeks currentWeek ;;;
        weeksLoop fuel' platform existingWeeks
          (setDate currentWeek (getDate currentWeek + 7)) endDate
      else ret tt
  end.

Definition weeksFuel (startDate endDate : Date) : nat :=
  S (S (Z.to_nat ((endDate - startDate) / msPerWeek))).

Definition findActivePlatforms : Async (list PlatformInvestment.t) :=
  fun w => (Returned (filter PlatformInvestment.isActive
                        (platformInvestments w)), w).

Definition interpolatePlatform (startDate endDate : Date)
  (platform : PlatformInvestment.t) : Async unit :=
  existingWeeks <-
    findExistingWeeks (PlatformInvestment._id platform) startDate endDate ;;
  weeksLoop (weeksFuel startDate endDate) platform existingWeeks
    startDate endDate.

Definition interpolateMissingWeeks (startDate endDate : Date) : Async unit :=
  platforms <- findActivePlatforms ;;
  forOf platforms (interpolatePlatform startDate endDate).

(** [calculateMonthlyReturnFromWeekly]: the change of the summed platform
    values over the month, in percent. *)
Definition monthEnds (startOfMonth endOfMonth : Date)
  (ws : list WeeklyPlatformData.t) (acc : Q * Q)
  (platform : PlatformInvestment.t) : Q * Q :=
  let firstWeek :=
    leastBy WeeklyPlatformData.weekStartDate
      (filter
         (fun d => ofPlatform (PlatformInvestment._id platform) d
                   && (startOfMonth <=? WeeklyPlatformData.weekStartDate d)%Z)
         ws) in
  let lastWeek :=
    leastBy (fun d => (- WeeklyPlatformData.weekEndDate d)%Z)
      (filter
         (fun d => ofPlatform (PlatformInvestment._id platform) d
                   && (WeeklyPlatformData.weekEndDate d <=? endOfMonth)%Z)
         ws) in
  match firstWeek, lastWeek with
  | Some firstWeek, Some lastWeek =>
      (fst acc + WeeklyPlatformData.openingValue firstWeek,
       snd acc + WeeklyPlatformData.closingValue lastWeek)
  | _, _ => acc
  end.

Definition calculateMonthlyReturnFromWeekly (monthDate : Date)
  : Async JsNumber :=
  let startOfMonth :=
    mkDate (getFullYear monthDate) (getMonth monthDate) 1 in
  let endOfMonth :=
    mkDate (getFullYear monthDate) (getMonth monthDate + 1) 0 in
  platforms <- findActivePlatforms ;;
  w <- getWorld ;;
  let (totalMonthStart, totalMonthEnd) :=
    fold_left (monthEnds startOfMonth endOfMonth (weeklyPlatformData w))
      platforms (0, 0) in
  ret (js_scale (js_div (totalMonthEnd - totalMonthStart) totalMonthStart)
         100).

(** [InvestmentCalculator.calculateMonthlyReturns(monthDate, monthlyReturn)]:
    the method declares the single parameter [monthDate], so the second
    argument of the call is discarded. *)
Definition callCalculateMonthlyReturns (monthDate : Date)
  (monthlyReturn : JsNumber) : Async unit :=
  InvestmentCalculator.calculateMonthlyReturns monthDate.

Inductive Response :=
| Json (monthlyReturn : JsNumber) (weeksUsed : nat)
| Status500.

(** [try { ... } catch (error) { res.status(500) ... }] *)
Definition catch500 (c : Async Response) : Async Response :=
  fun w => match c w with
           | (Thrown _, w') => (Returned Status500, w')
           | r => r
           end.

(** POST /monthly-returns/calculate-from-weekly, after the parsing of
    [month]. *)
Definition calculateFromWeekly (monthDate : Date) : Async Response :=
  catch500
    (let startOfMonth :=
       mkDate (getFullYear monthDate) (getMonth monthDate) 1 in
     let endOfMonth :=
       mkDate (getFullYear monthDate) (getMonth monthDate + 1) 0 in
     w <- getWorld ;;
     let weeklyData :=
       filter
         (fun d => (startOfMonth <=? WeeklyPlatformData.weekStartDate d)%Z
                   && (WeeklyPlatformData.weekEndDate d <=? endOfMonth)%Z)
         (weeklyPlatformData w) in
     interpolateMissingWeeks startOfMonth endOfMonth ;;;
     monthlyReturn <- calculateMonthlyReturnFromWeekly monthDate ;;
     callCalculateMonthlyReturns monthDate monthlyReturn ;;;
     ret (Json monthlyReturn (length weeklyData))).

End AdminRoutes.

(** * Vocabulary of the properties *)

Import InvestmentCalculator.
Import AdminRoutes.

Definition sumQ (xs : list Q) : Q := fold_right Qplus 0 xs.

(** The keys and the values of the [clientInvestments] object. *)
Definition ids (cs : list ClientInvestment.t) : list ObjectId :=
  map ClientInvestment.clientId cs.

Definition totals (cs : list ClientInvestment.t) : list Q :=
  map ClientInvestment.totalInvestment cs.

Definition totalOf (cs : list ClientInvestment.t) (id : ObjectId) : Q :=
  match lookupClient cs id with
  | Some c => ClientInvestment.totalInvestment c
  | None => 0
  end.

(** A populated investment whose client exists. *)
Definition resolved (pi : Investment.t * option User.t) : Prop :=
  exists u, snd pi = Some u /\ User._id u = Investment.clientId (fst pi).

Definition ofClient (id : ObjectId) (inv : Investment.t) : bool :=
  N.eqb (Investment.clientId inv) id.

Definition hasUser (us : list User.t) (inv : Investment.t) : bool :=
  existsb (fun u => N.eqb (User._id u) (Investment.clientId inv)) us.

(** Every investment selected at [date] references an existing user. *)
Definition clientsResolve (date : Date) (w : World) : bool :=
  forallb (hasUser (users w)) (filter (selected date) (investments w)).

Definition isDeposit (inv : Investment.t) : bool :=
  match Investment.type inv with
  | Investment.deposit => true
  | Investment.withdrawal => false
  end.

(** The bounds of the month of [monthDate], as [calculateMonthlyReturns]
    computes them. *)
Definition startOfMonth (monthDate : Date) : Date :=
  mkDate (getFullYear monthDate) (getMonth monthDate) 1.

Definition endOfMonth (monthDate : Date) : Date :=
  mkDate (getFullYear monthDate) (getMonth monthDate + 1) 0.

(** What [getCorpusAtDate] and [getPlatformReturns] read from the store. *)
Definition corpusAt (us : list User.t) (invs : list Investment.t)
  (date : Date) : Outcome CorpusData :=
  match forEach groupByClient
          (map (populate us) (filter (selected date) invs)) ([], 0) with
  | Returned (cs, tot) =>
      Returned (mkCorpusData (orZero tot) (map (withShare tot) cs))
  | Thrown e => Thrown e
  | Diverges => Diverges
  end.

Definition platformReturnsAt (ps : list PlatformInvestment.t)
  (endDate : Date) : PlatformReturns :=
  let chosen := filter (platformSelected endDate) ps in
  mkPlatformReturns
    (fold_left (fun tv p => tv + PlatformInvestment.currentValue p) chosen 0)
    (map toPlatformData chosen).

(** The entry that [calculateClientReturns] pushes for a client share. *)
Definition clientReturnOf (returnPercentage : Q) (s : ClientShare.t)
  : MonthlyReturn.clientReturn :=
  MonthlyReturn.mkClient (ClientShare.clientId s)
    (ClientShare.totalInvestment s) (ClientShare.sharePercentage s)
    (ClientShare.totalInvestment s * (returnPercentage / 100))
    (ClientShare.totalInvestment s
     + ClientShare.totalInvestment s * (returnPercentage / 100)).

(** The document that [calculateMonthlyReturns] upserts, given the corpus
    it resolved and the clock reading. *)
Definition snapshotOf (ps : list PlatformInvestment.t) (monthDate : Date)
  (cd : CorpusData) (at_ : Date) : MonthlyReturn.t :=
  let pr := platformReturnsAt ps (endOfMonth monthDate) in
  MonthlyReturn.mk (startOfMonth monthDate) (totalCorpus cd) (totalValue pr)
    (calculateWeightedReturn pr)
    (map (clientReturnOf (calculateWeightedReturn pr)) (clientShares cd))
    (map toPlatformReturn (platforms pr)) at_.

(** The stored snapshot of a month. *)
Definition findMonth (month : Date) (ms : list MonthlyReturn.t)
  : option MonthlyReturn.t :=
  find (fun m => (MonthlyReturn.month m =? month)%Z) ms.

(** A snapshot without its [calculatedAt]. *)
Definition fieldsOf (m : MonthlyReturn.t) :=
  (MonthlyReturn.month m, MonthlyReturn.totalCorpus m,
   MonthlyReturn.totalPlatformValue m, MonthlyReturn.monthlyReturnPercentage m,
   MonthlyReturn.clientReturns m, MonthlyReturn.platformReturns m).

(** Two states with the same users, investments and platform investments. *)
Definition sameInputs (w1 w2 : World) : Prop :=
  users w1 = users w2 /\ investments w1 = investments w2 /\
  platformInvestments w1 = platformInvestments w2.

(** The state after one more clock reading and with the monthly returns
    [ms]. *)
Definition afterCalculation (w : World) (ms : list MonthlyReturn.t) : World :=
  mkWorld (users w) (investments w) (platformInvestments w)
    (weeklyPlatformData w) ms (clock w) (S (ticks w)).

(** The months [from], [from + 1], ... (as month indices), [n] of them. *)
Fixpoint monthsFrom (k : Z) (n : nat) : list Date :=
  match n with
  | O => []
  | S n' => monthStart k :: monthsFrom (k + 1) n'
  end.

(** Every active investment references an existing user. *)
Definition allClientsResolve (w : World) : bool :=
  forallb (hasUser (users w)) (filter Investment.isActive (investments w)).

(** The state with the monthly returns replaced. *)
Definition withMonthlyReturns (w : World) (ms : list MonthlyReturn.t)
  : World :=
  mkWorld (users w) (investments w) (platformInvestments w)
    (weeklyPlatformData w) ms (clock w) (ticks w).

(** The state after one clock reading. *)
Definition tick (w : World) : World :=
  mkWorld (users w) (investments w) (platformInvestments w)
    (weeklyPlatformData w) (monthlyReturns w) (clock w) (S (ticks w)).

(** [doc] is a snapshot that [calculateMonthlyReturns] computes for the
    month starting at [month] from the inputs of [w]. *)
Definition computed (w : World) (month : Date) (doc : MonthlyReturn.t)
  : Prop :=
  exists monthDate cd at_,
    startOfMonth monthDate = month /\
    corpusAt (users w) (investments w) (endOfMonth monthDate) = Returned cd /\
    doc = snapshotOf (platformInvestments w) monthDate cd at_.

(** The relation between a client share and the return persisted for it. *)
Definition returnFor (returnPct : Q) (s : ClientShare.t)
  (r : MonthlyReturn.clientReturn) : Prop :=
  MonthlyReturn.clientId r = ClientShare.clientId s /\
  MonthlyReturn.investmentShare r = ClientShare.totalInvestment s /\
  MonthlyReturn.sharePercentage r = ClientShare.sharePercentage s /\
  MonthlyReturn.returnAmount r
  == MonthlyReturn.investmentShare r * returnPct / 100 /\
  MonthlyReturn.closingBalance r
  == MonthlyReturn.investmentShare r + MonthlyReturn.returnAmount r.

(** A ledger of two clients and two platforms, read on 15 March 2024; the
    clock advances by one hour per reading, up to the fifth. *)
Definition sampleClock (n : nat) : Date :=
  nth n [1710460800000; 1710464400000; 1710468000000; 1710471600000;
         1710475200000]%Z 1710478800000%Z.

Definition sampleWorld : World :=
  mkWorld
    [User.mk 1 10; User.mk 2 20]
    [Investment.mk 1 1000 1704844800000 Investment.deposit Investment.active;
     Investment.mk 2 500 1705017600000 Investment.deposit Investment.active;
     Investment.mk 1 200 1705708800000 Investment.withdrawal
       Investment.active;
     Investment.mk 2 700 1705881600000 Investment.deposit
       Investment.cancelled;
     Investment.mk 2 900 1708560000000 Investment.deposit Investment.active]
    [PlatformInvestment.mk 7 70 1000 1704067200000 10 1500
       PlatformInvestment.active;
     PlatformInvestment.mk 8 80 1000 1704067200000 4 500
       PlatformInvestment.active]
    [] [] sampleClock 0.

(** The sample ledger with one more deposit, of a client that does not
    exist. *)
Definition danglingWorld : World :=
  mkWorld (users sampleWorld)
    (investments sampleWorld
     ++ [Investment.mk 3 250 1705104000000 Investment.deposit
           Investment.active])
    (platformInvestments sampleWorld) [] [] sampleClock 0.

(** The sample ledger with two weekly records of platform 7 in January
    2024: the week of 1 January from 1000 to 1100 and the week of 8 January
    from 1100 to 1200. *)
Definition weeklyWorld : World :=
  mkWorld (users sampleWorld) (investments sampleWorld)
    (platformInvestments sampleWorld)
    [WeeklyPlatformData.mk 7 1704067200000 1704585600000 1 2024 1000 1100
       (Finite 10) 100 None (Some 1%N) false;
     WeeklyPlatformData.mk 7 1704672000000 1705190400000 2 2024 1100 1200
       (Finite (100 # 11)) 100 None (Some 1%N) false]
    [] sampleClock 0.

(** The entries of [clientInvestments] without the client names. *)
Definition unnamed (cs : list ClientInvestment.t) : list (ObjectId * Q) :=
  map (fun c => (ClientInvestment.clientId c,
                 ClientInvestment.totalInvestment c)) cs.

(** The rows of a platform that end before, start after, or start at a
    given instant, and the nearest of them: what [findBefore] and
    [findAfter] return. *)
Definition endsBefore (p : ObjectId) (c : Date) (d : WeeklyPlatformData.t)
  : bool :=
  ofPlatform p d && (WeeklyPlatformData.weekEndDate d <? c)%Z.

Definition startsAfter (p : ObjectId) (c : Date) (d : WeeklyPlatformData.t)
  : bool :=
  ofPlatform p d && (c <? WeeklyPlatformData.weekStartDate d)%Z.

Definition startsAt (p : ObjectId) (c : Date) (d : WeeklyPlatformData.t)
  : bool :=
  ofPlatform p d && (WeeklyPlatformData.weekStartDate d =? c)%Z.

Definition nearestBefore (p : ObjectId) (c : Date)
  (ws : list WeeklyPlatformData.t) : option WeeklyPlatformData.t :=
  leastBy (fun d => (- WeeklyPlatformData.weekEndDate d)%Z)
    (filter (endsBefore p c) ws).

Definition nearestAfter (p : ObjectId) (c : Date)
  (ws : list WeeklyPlatformData.t) : option WeeklyPlatformData.t :=
  leastBy WeeklyPlatformData.weekStartDate (filter (startsAfter p c) ws).

(** [weekExists] of a round of the loop. *)
Definition weekExists (existingWeeks : list WeeklyPlatformData.t)
  (currentWeek : Date) : bool :=
  existsb
    (fun w => sameDateString (WeeklyPlatformData.weekStartDate w) currentWeek)
    existingWeeks.

(** The state with the weekly platform data replaced. *)
Definition withWeeklyPlatformData (w : World)
  (ws : list WeeklyPlatformData.t) : World :=
  mkWorld (users w) (investments w) (platformInvestments w) ws
    (monthlyReturns w) (clock w) (ticks w).

(** The number of weeks between the end of [before] and the start of
    [after], as the interpolator counts them. *)
Definition weeksBetween (before after : WeeklyPlatformData.t) : Z :=
  Math_ceil (inject_Z (WeeklyPlatformData.weekStartDate after
                       - WeeklyPlatformData.weekEndDate before)
             / inject_Z msPerWeek).

(** The i-th week of a walk that starts at [startDate]. *)
Definition weekAt (startDate : Date) (i : nat) : Date :=
  (startDate + Z.of_nat i * msPerWeek)%Z.

(** [r] is an interpolated row of platform [p] for the week starting at
    [c], with the given opening and closing values. *)
Definition fillsWeek (p : ObjectId) (c : Date) (opening closing : Q)
  (r : WeeklyPlatformData.t) : Prop :=
  WeeklyPlatformData.platformId r = p /\
  WeeklyPlatformData.weekStartDate r = c /\
  WeeklyPlatformData.weekEndDate r = (c + 6 * msPerDay)%Z /\
  WeeklyPlatformData.isInterpolated r = true /\
  WeeklyPlatformData.enteredBy r = None /\
  WeeklyPlatformData.openingValue r == opening /\
  WeeklyPlatformData.closingValue r == closing.

(** The point at [i] of [n] equal steps from [a] to [b]. *)
Definition onLine (a b : Q) (n i : nat) : Q :=
  a + inject_Z (Z.of_nat i) * ((b - a) / inject_Z (Z.of_nat n)).

(** The rows of platform [p] around a gap: a last known row ends at [e]
    with closing value [v], the first row after the gap starts at [sB] with
    opening value [b], and no other row of the platform ends or starts in
    between (from the week [c] on). *)
Definition endsAt (p : ObjectId) (e : Date) (v : Q)
  (r : WeeklyPlatformData.t) : bool :=
  ofPlatform p r && (WeeklyPlatformData.weekEndDate r =? e)%Z
  && Qeq_bool (WeeklyPlatformData.closingValue r) v.

Definition opensAt (p : ObjectId) (sB : Date) (b : Q)
  (r : WeeklyPlatformData.t) : bool :=
  ofPlatform p r && (WeeklyPlatformData.weekStartDate r =? sB)%Z
  && Qeq_bool (WeeklyPlatformData.openingValue r) b.

Definition clearBefore (p : ObjectId) (e : Date) (v : Q) (sB : Date)
  (r : WeeklyPlatformData.t) : bool :=
  negb (ofPlatform p r)
  || (WeeklyPlatformData.weekEndDate r <? e)%Z
  || endsAt p e v r
  || (sB <=? WeeklyPlatformData.weekEndDate r)%Z.

Definition clearAfter (p : ObjectId) (c sB : Date) (b : Q)
  (r : WeeklyPlatformData.t) : bool :=
  negb (ofPlatform p r)
  || (WeeklyPlatformData.weekStartDate r <? c)%Z
  || opensAt p sB b r
  || (sB <? WeeklyPlatformData.weekStartDate r)%Z.

Definition isGap (p : ObjectId) (ws : list WeeklyPlatformData.t)
  (c sB e : Date) (v b : Q) : bool :=
  existsb (endsAt p e v) ws && forallb (clearBefore p e v sB) ws
  && existsb (opensAt p sB b) ws && forallb (clearAfter p c sB b) ws.

(** The rows of platform [p] that [interpolateMissingWeeks] finds in the
    range before it walks it. *)
Definition existingWeeksOf (p : ObjectId) (startDate endDate : Date)
  (ws : list WeeklyPlatformData.t) : list WeeklyPlatformData.t :=
  sortBy WeeklyPlatformData.weekStartDate
    (filter
       (fun d => ofPlatform p d
                 && (startDate <=? WeeklyPlatformData.weekStartDate d)%Z
                 && (WeeklyPlatformData.weekStartDate d <=? endDate)%Z)
       ws).

(** The walked week before the one of index [j] has a stored snapshot, if
    there is such a week. *)
Definition precededByKnownWeek (existingWeeks : list WeeklyPlatformData.t)
  (startDate : Date) (j : nat) : bool :=
  match j with
  | O => true
  | S j' => weekExists existingWeeks (weekAt startDate j')
  end.

(** None of the [n] walked weeks from index [j] on has a stored snapshot. *)
Definition noKnownWeek (existingWeeks : list WeeklyPlatformData.t)
  (startDate : Date) (j n : nat) : bool :=
  forallb (fun i => negb (weekExists existingWeeks (weekAt startDate (j + i))))
    (seq 0 n).

(** The active platforms have distinct ids. *)
Definition distinctPlatforms (w : World) : bool :=
  let ids := map PlatformInvestment._id
               (filter PlatformInvestment.isActive (platformInvestments w)) in
  forallb (fun id => (count_occ N.eq_dec ids id =? 1)%nat) ids.

(** A weekly record that an administrator entered: seven days from
    [start], with opening and closing values. *)
Definition enteredWeek (p : ObjectId) (start : Date) (opening closing : Q)
  : WeeklyPlatformData.t :=
  WeeklyPlatformData.mk p start (start + 6 * msPerDay)%Z
    (getWeekNumber start) (getFullYear start) opening closing
    (js_scale (js_div (closing - opening) opening) 100) (closing - opening)
    None (Some 1%N) false.

(** Platform 7 of the sample ledger with the weeks of Monday 1 January 2024
    (closing at 100) and of Monday 22 January 2024 (opening at 130): the two
    weeks in between are missing, and January 2024 starts on a Monday. *)
Definition gapWorld : World :=
  mkWorld (users sampleWorld) (investments sampleWorld)
    (platformInvestments sampleWorld)
    [enteredWeek 7 1704067200000 90 100;
     enteredWeek 7 1705881600000 130 140]
    [] sampleClock 0.

(** The same records one year later: the weeks of Monday 6 January 2025
    and of Monday 27 January 2025, in a month that starts on a Wednesday. *)
Definition unalignedWorld : World :=
  mkWorld (users sampleWorld) (investments sampleWorld)
    (platformInvestments sampleWorld)
    [enteredWeek 7 1736121600000 90 100;
     enteredWeek 7 1737936000000 130 140]
    [] sampleClock 0.

(** The gap of [gapWorld] between two weeks whose values are zero. *)
Definition zeroWorld : World :=
  mkWorld (users sampleWorld) (investments sampleWorld)
    (platformInvestments sampleWorld)
    [enteredWeek 7 1704067200000 90 0;
     WeeklyPlatformData.mk 7 1705881600000 1706400000000 4 2024 0 50
       (Infinity true) 50 None (Some 1%N) false]
    [] sampleClock 0.

From Stdlib Require Import Sorted.
From Stdlib Require String.

(** * src/middleware/auth.js: the authentication middleware

    [jwt.verify] is a parameter: it gives the [userId] of the decoded
    token, and nothing when the verification throws.  The users are taken
    with the one field that the middleware reads, their role. *)

Module Middleware.

Import String.
Local Open Scope string_scope.

Inductive Role := admin | client.

Module Account.
Record t := mk { _id : ObjectId; role : Role }.
End Account.

Fixpoint drop (n : nat) (s : string) : string :=
  match n, s with
  | O, _ => s
  | S n', String _ s' => drop n' s'
  | S _, EmptyString => EmptyString
  end.

Fixpoint startsWith (pattern s : string) : bool :=
  match pattern with
  | EmptyString => true
  | String a pattern' =>
      match s with
      | EmptyString => false
      | String b s' => Ascii.eqb a b && startsWith pattern' s'
      end
  end.

(** [s.replace(pattern, replacement)] with a string pattern: the first
    occurrence is replaced. *)
Fixpoint replace (pattern replacement s : string) : string :=
  if startsWith pattern s
  then replacement ++ drop (String.length pattern) s
  else match s with
       | EmptyString => EmptyString
       | String c s' => String c (replace pattern replacement s')
       end.

Definition Bearer : string := "Bearer ".

(** What the middleware does with the request: it calls [next], with
    [req.user] and [req.token] set, or answers 401 or 403. *)
Inductive Answer :=
| Next (user : Account.t) (token : string)
| Status401
| Status403.

Section Auth.

Variable verify : string -> option ObjectId.
Variable accounts : list Account.t.

(** [auth], as a function of the Authorization header of the request. *)
Definition auth (authorization : option string) : Answer :=
  match option_map (replace Bearer "") authorization with
  | None => Status401
  | Some EmptyString => Status401
  | Some token =>
      match verify token with
      | None => Status401
      | Some userId =>
          match find (fun u => N.eqb (Account._id u) userId) accounts with
          | None => Status401
          | Some user => Next user token
          end
      end
  end.

Definition adminAuth (authorization : option string) : Answer :=
  match auth authorization with
  | Next user token =>
      match Account.role user with
      | admin => Next user token
      | client => Status403
      end
  | answer => answer
  end.

End Auth.

End Middleware.

(** * More of src/routes/admin.js: the handlers of the platform routes

    The handlers are embedded from the point where the request has been
    parsed: identifiers, dates and numbers are given as such. *)

Module AdminHandlers.

Local Open Scope async_scope.

(** [try { ... } catch (error) { res.status(500).json(...) }] *)
Definition catchAs {A} (c : Async A) (onError : A) : Async A :=
  fun w => match c w with
           | (Thrown _, w') => (Returned onError, w')
           | r => r
           end.

(** [PlatformInvestment.findById(id)] *)
Definition findPlatformById (id : ObjectId)
  : Async (option PlatformInvestment.t) :=
  fun w =>
    (Returned (find (fun p => N.eqb (PlatformInvestment._id p) id)
                 (platformInvestments w)), w).

(** [platform.save()] on a document that [findById] returned: the stored
    document of that id takes the fields of [platform]. *)
Fixpoint replacePlatform (platform : PlatformInvestment.t)
  (ps : list PlatformInvestment.t) : list PlatformInvestment.t :=
  match ps with
  | [] => []
  | p :: ps' =>
      if N.eqb (PlatformInvestment._id p) (PlatformInvestment._id platform)
      then platform :: ps'
      else p :: replacePlatform platform ps'
  end.

Definition savePlatform (platform : PlatformInvestment.t) : Async unit :=
  fun w =>
    (Returned tt,
     mkWorld (users w) (investments w)
       (replacePlatform platform (platformInvestments w))
       (weeklyPlatformData w) (monthlyReturns w) (clock w) (ticks w)).

(** [platform.returnPercentage = r; platform.currentValue = v] *)
Definition withReturns (platform : PlatformInvestment.t) (r v : Q)
  : PlatformInvestment.t :=
  PlatformInvestment.mk (PlatformInvestment._id platform)
    (PlatformInvestment.platformName platform)
    (PlatformInvestment.amount platform)
    (PlatformInvestment.investmentDate platform) r v
    (PlatformInvestment.status platform).

(** POST /platforms/weekly-data.  The handler does not look at the result
    of the validators. *)
Inductive WeeklyDataResponse :=
| WeeklyDataSaved (weeklyData : WeeklyPlatformData.t)
| PlatformNotFound
| WeeklyDataError.

Definition postWeeklyData (userId platformId : ObjectId)
  (weekStartDate : Date) (closingValue : Q) (notes : option N)
  : Async WeeklyDataResponse :=
  catchAs
    (platform <- findPlatformById platformId ;;
     match platform with
     | None => ret PlatformNotFound
     | Some platform =>
         let startDate := weekStartDate in
         let endDate := setDate startDate (getDate startDate + 6) in
         previousWeek <- AdminRoutes.findBefore platformId startDate ;;
         let openingValue :=
           match previousWeek with
           | Some previousWeek => WeeklyPlatformData.closingValue previousWeek
           | None => PlatformInvestment.amount platform
           end in
         let profitAmount := closingValue - openingValue in
         let weeklyReturn :=
           js_scale (js_div (closingValue - openingValue) openingValue) 100 in
         let weeklyData :=
           WeeklyPlatformData.mk platformId startDate endDate
             (getWeekNumber startDate) (getFullYear startDate)
             openingValue closingValue weeklyReturn profitAmount notes
             (Some userId) false in
         AdminRoutes.create weeklyData ;;;
         savePlatform
           (withReturns platform (PlatformInvestment.returnPercentage platform)
              closingValue) ;;;
         ret (WeeklyDataSaved weeklyData)
     end)
    WeeklyDataError.

(** PUT /platform-investments/:platformId/returns, after the validation. *)
Inductive PlatformResponse :=
| PlatformUpdated (platform : PlatformInvestment.t)
| PlatformMissing
| PlatformError.

Definition putPlatformReturns (platformId : ObjectId)
  (returnPercentage currentValue : Q) : Async PlatformResponse :=
  catchAs
    (platform <- findPlatformById platformId ;;
     match platform with
     | None => ret PlatformMissing
     | Some platform =>
         let platform := withReturns platform returnPercentage currentValue in
         savePlatform platform ;;;
         currentMonth <- newDate ;;
         InvestmentCalculator.calculateMonthlyReturns currentMonth ;;;
         ret (PlatformUpdated platform)
     end)
    PlatformError.

(** POST /platform-investments/bulk-update, after the validation. *)
Module BulkResult.
Record t := mk {
    platformId : ObjectId;
    platformName : option N;
    success : bool
  }.
End BulkResult.

Inductive BulkResponse :=
| BulkUpdated (results : list BulkResult.t)
| BulkError.

Definition bulkUpdateOne (update : ObjectId * Q) : Async BulkResult.t :=
  platform <- findPlatformById (fst update) ;;
  match platform with
  | Some platform =>
      savePlatform
        (withReturns platform (snd update)
           (PlatformInvestment.amount platform * (1 + snd update / 100))) ;;;
      ret (BulkResult.mk (PlatformInvestment._id platform)
             (Some (PlatformInvestment.platformName platform)) true)
  | None => ret (BulkResult.mk (fst update) None false)
  end.

Definition bulkUpdate (updates : list (ObjectId * Q)) : Async BulkResponse :=
  catchAs
    (results <- mapAsync bulkUpdateOne updates ;;
     now <- newDate ;;
     InvestmentCalculator.calculateMonthlyReturns now ;;;
     ret (BulkUpdated results))
    BulkError.

(** POST /investments, after the validation.  A failure of the
    recalculation is logged and does not fail the request. *)
Inductive InvestmentResponse :=
| InvestmentCreated (investment : Investment.t)
| InvestmentError.

(** [try { await c } catch (calcError) { console.error(...) }] *)
Definition logError {A} (c : Async A) : Async unit :=
  fun w => match c w with
           | (Returned _, w') => (Returned tt, w')
           | (Thrown _, w') => (Returned tt, w')
           | (Diverges, w') => (Diverges, w')
           end.

(** [investment.save()] of a new document. *)
Definition saveInvestment (investment : Investment.t) : Async unit :=
  fun w =>
    (Returned tt,
     mkWorld (users w) (investments w ++ [investment])
       (platformInvestments w) (weeklyPlatformData w) (monthlyReturns w)
       (clock w) (ticks w)).

Definition postInvestment (clientId : ObjectId) (amount : Q)
  (investmentDate : Date) (type : Investment.kind)
  : Async InvestmentResponse :=
  catchAs
    (let investment :=
       Investment.mk clientId amount investmentDate type Investment.active in
     saveInvestment investment ;;;
     logError (InvestmentCalculator.recalculateFromDate investmentDate) ;;;
     ret (InvestmentCreated investment))
    InvestmentError.

(** GET /monthly-returns/recent: the twelve latest snapshots with the
    selected fields and the sum of the returns of the clients. *)
Module RecentReturn.
Record t := mk {
    month : Date;
    totalCorpus : Q;
    monthlyReturnPercentage : Q;
    clientReturns : list MonthlyReturn.clientReturn;
    calculatedAt : Date;
    totalReturns : Q
  }.
End RecentReturn.

Definition recentMonthlyReturns : Async (list RecentReturn.t) :=
  fun w =>
    let recentReturns :=
      firstn 12
        (AdminRoutes.sortBy (fun m => (- MonthlyReturn.month m)%Z)
           (monthlyReturns w)) in
    (Returned
       (map (fun monthReturn =>
               let totalReturns :=
                 fold_left
                   (fun sum client => sum + MonthlyReturn.returnAmount client)
                   (MonthlyReturn.clientReturns monthReturn) 0 in
               RecentReturn.mk (MonthlyReturn.month monthReturn)
                 (MonthlyReturn.totalCorpus monthReturn)
                 (MonthlyReturn.monthlyReturnPercentage monthReturn)
                 (MonthlyReturn.clientReturns monthReturn)
                 (MonthlyReturn.calculatedAt monthReturn) totalReturns)
          recentReturns), w).

(** GET /clients/:clientId/portfolio *)
Module PortfolioReturn.
Record t := mk {
    month : Date;
    totalCorpus : Q;
    sharePercentage : Q;
    investmentShare : Q;
    returnAmount : Q;
    closingBalance : Q;
    monthlyReturnPercentage : Q
  }.
End PortfolioReturn.

Record PortfolioSummary := mkSummary {
  totalInvested : Q;
  currentValue : Q;
  totalReturns : Q;
  returnPercentage : Q
}.

Inductive PortfolioResponse :=
| Portfolio (investments : list Investment.t)
    (monthlyReturns : list PortfolioReturn.t) (summary : PortfolioSummary)
| PortfolioError.

(** The body of [monthlyReturns.map(mr => ...)]: reading a field of the
    entry that [find] did not find throws. *)
Definition clientEntry (clientId : ObjectId) (mr : MonthlyReturn.t)
  : Async PortfolioReturn.t :=
  match find (fun cr => N.eqb (MonthlyReturn.clientId cr) clientId)
          (MonthlyReturn.clientReturns mr) with
  | Some clientReturn =>
      ret (PortfolioReturn.mk (MonthlyReturn.month mr)
             (MonthlyReturn.totalCorpus mr)
             (MonthlyReturn.sharePercentage clientReturn)
             (MonthlyReturn.investmentShare clientReturn)
             (MonthlyReturn.returnAmount clientReturn)
             (MonthlyReturn.closingBalance clientReturn)
             (MonthlyReturn.monthlyReturnPercentage mr))
  | None => throw TypeError
  end.

Definition getPortfolio (clientId : ObjectId) : Async PortfolioResponse :=
  catchAs
    (w <- getWorld ;;
     let investments :=
       AdminRoutes.sortBy Investment.investmentDate
         (filter (fun inv => N.eqb (Investment.clientId inv) clientId
                             && Investment.isActive inv) (investments w)) in
     let monthlyReturns :=
       AdminRoutes.sortBy MonthlyReturn.month
         (filter (InvestmentCalculator.hasClient clientId)
            (monthlyReturns w)) in
     clientReturns <- mapAsync (clientEntry clientId) monthlyReturns ;;
     let totalInvested :=
       fold_left
         (fun sum inv => sum + InvestmentCalculator.signedAmount inv)
         investments 0 in
     let currentValue :=
       match rev clientReturns with
       | last :: _ => PortfolioReturn.closingBalance last
       | [] => totalInvested
       end in
     let totalReturns := currentValue - totalInvested in
     let returnPercentage :=
       if Qlt_le_dec 0 totalInvested
       then toFixed2 (totalReturns / totalInvested * 100)
       else 0 in
     ret (Portfolio investments clientReturns
            (mkSummary totalInvested currentValue totalReturns
               returnPercentage)))
    PortfolioError.

(** GET /platforms/weekly-performance.  The keys of [weeklyPerformance]
    are the ISO dates of the week starts, which stand for their day
    numbers; the object keeps them in insertion order. *)
Module PlatformEntry.
Record t := mk {
    platformName : N;
    openingValue : Q;
    closingValue : Q;
    profit : Q;
    weeklyReturn : JsNumber;
    isInterpolated : bool
  }.
End PlatformEntry.

(** An entry of [weeklyPerformance] while it is being filled. *)
Module WeekGroup.
Record t := mk {
    weekKey : Z;
    weekStartDate : Date;
    weekEndDate : Date;
    platforms : list PlatformEntry.t;
    totalOpeningValue : Q;
    totalClosingValue : Q;
    totalProfit : Q
  }.
End WeekGroup.

Module WeekPerformance.
Record t := mk {
    weekStartDate : Date;
    weekEndDate : Date;
    platforms : list PlatformEntry.t;
    totalOpeningValue : Q;
    totalClosingValue : Q;
    totalProfit : Q;
    overallReturn : JsNumber
  }.
End WeekPerformance.

Inductive PerformanceResponse :=
| Performance (weeks : list WeekPerformance.t)
| PerformanceError.

(** [query.weekStartDate = { $gte: ... }] and
    [query.weekEndDate = { $lte: ... }], each when the parameter is
    given. *)
Definition inQuery (startDate endDate : option Date)
  (d : WeeklyPlatformData.t) : bool :=
  match startDate with
  | Some s => (s <=? WeeklyPlatformData.weekStartDate d)%Z
  | None => true
  end
  && match endDate with
     | Some e => (WeeklyPlatformData.weekEndDate d <=? e)%Z
     | None => true
     end.

(** [.populate('platformId', 'platformName')] *)
Definition populatePlatform (ps : list PlatformInvestment.t)
  (d : WeeklyPlatformData.t)
  : WeeklyPlatformData.t * option PlatformInvestment.t :=
  (d, find (fun p => N.eqb (PlatformInvestment._id p)
                       (WeeklyPlatformData.platformId d)) ps).

Fixpoint lookupWeek (gs : list WeekGroup.t) (key : Z) : option WeekGroup.t :=
  match gs with
  | [] => None
  | g :: gs' =>
      if (WeekGroup.weekKey g =? key)%Z then Some g else lookupWeek gs' key
  end.

(** The three [+=] and the [push] on the entry of the week. *)
Definition extendWeek (g : WeekGroup.t) (entry : PlatformEntry.t)
  (data : WeeklyPlatformData.t) : WeekGroup.t :=
  WeekGroup.mk (WeekGroup.weekKey g) (WeekGroup.weekStartDate g)
    (WeekGroup.weekEndDate g) (WeekGroup.platforms g ++ [entry])
    (WeekGroup.totalOpeningValue g + WeeklyPlatformData.openingValue data)
    (WeekGroup.totalClosingValue g + WeeklyPlatformData.closingValue data)
    (WeekGroup.totalProfit g + WeeklyPlatformData.profitAmount data).

Fixpoint addToWeek (gs : list WeekGroup.t) (key : Z)
  (entry : PlatformEntry.t) (data : WeeklyPlatformData.t)
  : list WeekGroup.t :=
  match gs with
  | [] => []
  | g :: gs' =>
      if (WeekGroup.weekKey g =? key)%Z
      then extendWeek g entry data :: gs'
      else g :: addToWeek gs' key entry data
  end.

(** The body of [weeklyData.forEach(data => ...)]. *)
Definition groupByWeek (weeklyPerformance : list WeekGroup.t)
  (populated : WeeklyPlatformData.t * option PlatformInvestment.t)
  : Outcome (list WeekGroup.t) :=
  let data := fst populated in
  let weekKey := Day (WeeklyPlatformData.weekStartDate data) in
  let weeklyPerformance :=
    match lookupWeek weeklyPerformance weekKey with
    | None =>
        weeklyPerformance
          ++ [WeekGroup.mk weekKey (WeeklyPlatformData.weekStartDate data)
                (WeeklyPlatformData.weekEndDate data) [] 0 0 0]
    | Some _ => weeklyPerformance
    end in
  match snd populated with
  | None => Thrown TypeError
  | Some platform =>
      Returned
        (addToWeek weeklyPerformance weekKey
           (PlatformEntry.mk (PlatformInvestment.platformName platform)
              (WeeklyPlatformData.openingValue data)
              (WeeklyPlatformData.closingValue data)
              (WeeklyPlatformData.profitAmount data)
              (WeeklyPlatformData.weeklyReturn data)
              (WeeklyPlatformData.isInterpolated data))
           data)
  end.

Definition withOverallReturn (week : WeekGroup.t) : WeekPerformance.t :=
  WeekPerformance.mk (WeekGroup.weekStartDate week)
    (WeekGroup.weekEndDate week) (WeekGroup.platforms week)
    (WeekGroup.totalOpeningValue week) (WeekGroup.totalClosingValue week)
    (WeekGroup.totalProfit week)
    (js_scale
       (js_div (WeekGroup.totalClosingValue week
                - WeekGroup.totalOpeningValue week)
          (WeekGroup.totalOpeningValue week)) 100).

Definition getWeeklyPerformance (startDate endDate : option Date)
  : Async PerformanceResponse :=
  catchAs
    (w <- getWorld ;;
     let weeklyData :=
       map (populatePlatform (platformInvestments w))
         (AdminRoutes.sortBy WeeklyPlatformData.weekStartDate
            (filter (inQuery startDate endDate) (weeklyPlatformData w))) in
     weeklyPerformance <- liftOutcome (forEach groupByWeek weeklyData []) ;;
     ret (Performance (map withOverallReturn weeklyPerformance)))
    PerformanceError.

End AdminHandlers.

(** * Further vocabulary *)

Import AdminHandlers.

(** The investment of a client in a resolved corpus: zero for a client
    without a share. *)
Definition shareOf (cd : CorpusData) (id : ObjectId) : Q :=
  match find (fun s => N.eqb (ClientShare.clientId s) id) (clientShares cd)
  with
  | Some s => ClientShare.totalInvestment s
  | None => 0
  end.

(** The state with the ledger replaced. *)
Definition withInvestments (w : World) (invs : list Investment.t) : World :=
  mkWorld (users w) invs (platformInvestments w) (weeklyPlatformData w)
    (monthlyReturns w) (clock w) (ticks w).

(** [investment.status = 'cancelled'; await investment.save()], the soft
    delete of the admin routes, on the i-th document of the ledger. *)
Definition cancelled (inv : Investment.t) : Investment.t :=
  Investment.mk (Investment.clientId inv) (Investment.amount inv)
    (Investment.investmentDate inv) (Investment.type inv)
    Investment.cancelled.

Fixpoint cancelAt (i : nat) (invs : list Investment.t) : list Investment.t :=
  match invs, i with
  | [], _ => []
  | inv :: invs', O => cancelled inv :: invs'
  | inv :: invs', S i' => inv :: cancelAt i' invs'
  end.

(** The active investments dated after [d1] and no later than [d2]. *)
Definition selectedBetween (d1 d2 : Date) (inv : Investment.t) : bool :=
  (d1 <? Investment.investmentDate inv)%Z && selected d2 inv.

(** The key of the unique index of the weekly platform data. *)
Definition weekKey (r : WeeklyPlatformData.t) : ObjectId * Date :=
  (WeeklyPlatformData.platformId r, WeeklyPlatformData.weekStartDate r).

(** [r] is a row as the interpolator creates them for platform [p] on a
    walk from [startDate] to [endDate]. *)
Definition autoRow (p : ObjectId) (startDate endDate : Date)
  (r : WeeklyPlatformData.t) : Prop :=
  WeeklyPlatformData.platformId r = p /\
  (exists i, WeeklyPlatformData.weekStartDate r = weekAt startDate i) /\
  (WeeklyPlatformData.weekStartDate r <= endDate)%Z /\
  WeeklyPlatformData.weekEndDate r
  = (WeeklyPlatformData.weekStartDate r + 6 * msPerDay)%Z /\
  WeeklyPlatformData.weekNumber r
  = getWeekNumber (WeeklyPlatformData.weekStartDate r) /\
  WeeklyPlatformData.year r
  = getFullYear (WeeklyPlatformData.weekStartDate r) /\
  WeeklyPlatformData.profitAmount r
  = WeeklyPlatformData.closingValue r - WeeklyPlatformData.openingValue r /\
  WeeklyPlatformData.isInterpolated r = true /\
  WeeklyPlatformData.enteredBy r = None /\
  WeeklyPlatformData.notes r = Some autoInterpolated.

(** The opening and the closing value of a row lie between two bounds. *)
Definition valuesWithin (lo hi : Q) (r : WeeklyPlatformData.t) : Prop :=
  lo <= WeeklyPlatformData.openingValue r <= hi /\
  lo <= WeeklyPlatformData.closingValue r <= hi.

(** The weekly record that POST /platforms/weekly-data builds for a week
    starting at [start], from the opening value it has found. *)
Definition postedRow (userId p : ObjectId) (start : Date)
  (opening closing : Q) (notes : option N) : WeeklyPlatformData.t :=
  WeeklyPlatformData.mk p start (start + 6 * msPerDay)%Z
    (getWeekNumber start) (getFullYear start) opening closing
    (js_scale (js_div (closing - opening) opening) 100) (closing - opening)
    notes (Some userId) false.

(** The opening value of a new week of a platform: the closing value of
    the stored row of the platform that ends latest before the week, and
    the invested amount without such a row. *)
Definition openingFor (platform : PlatformInvestment.t) (start : Date)
  (ws : list WeeklyPlatformData.t) : Q :=
  match nearestBefore (PlatformInvestment._id platform) start ws with
  | Some previousWeek => WeeklyPlatformData.closingValue previousWeek
  | None => PlatformInvestment.amount platform
  end.

(** The stored platform investment of an identifier. *)
Definition platformById (id : ObjectId) (w : World)
  : option PlatformInvestment.t :=
  find (fun p => N.eqb (PlatformInvestment._id p) id) (platformInvestments w).

(** The state with the platform investments and the weekly data
    replaced. *)
Definition withPlatforms (w : World) (ps : list PlatformInvestment.t)
  (ws : list WeeklyPlatformData.t) : World :=
  mkWorld (users w) (investments w) ps ws (monthlyReturns w) (clock w)
    (ticks w).

(** The rows of a list that start on the day [k], and the sum of a
    quantity over them. *)
Definition onDay (k : Z) (d : WeeklyPlatformData.t) : bool :=
  (Day (WeeklyPlatformData.weekStartDate d) =? k)%Z.

(** The platform that a weekly record references exists. *)
Definition hasPlatform (ps : list PlatformInvestment.t)
  (d : WeeklyPlatformData.t) : bool :=
  existsb (fun p => N.eqb (PlatformInvestment._id p)
                      (WeeklyPlatformData.platformId d)) ps.

(** The keys of [weeklyPerformance], and the value of one of its running
    totals for a key (zero without an entry). *)
Definition weekKeys (gs : list WeekGroup.t) : list Z :=
  map WeekGroup.weekKey gs.

Definition weekTotal (F : WeekGroup.t -> Q) (gs : list WeekGroup.t) (k : Z)
  : Q :=
  match lookupWeek gs k with
  | Some g => F g
  | None => 0
  end.

(** * Properties *)

(** ** Examples of the calendar and of rounding *)

Open Scope Z_scope.

Example date_2024_02_29 :
  mkDate 2024 1 29 = 1709164800000 /\
  getFullYear 1709164800000 = 2024 /\ getMonth 1709164800000 = 1 /\
  getDate 1709164800000 = 29 /\ WeekDay 1709164800000 = 4.
Proof. repeat split; reflexivity. Qed.

Example date_end_of_month :
  mkDate 2023 12 0 = mkDate 2023 11 31 /\
  mkDate 2023 2 0 = mkDate 2023 1 28 /\
  setMonth (mkDate 2023 0 31) 1 = mkDate 2023 2 3 /\
  getFullYear (-1) = 1969 /\ getMonth (-1) = 11 /\ getDate (-1) = 31.
Proof. repeat split; reflexivity. Qed.


(** ** Facts about the calendar *)

Section CalendarFacts.

Lemma DaysInYear_cases y : DaysInYear y = 365 \/ DaysInYear y = 366.
Proof.
  unfold DaysInYear.
  destruct (y mod 4 =? 0), (y mod 100 =? 0), (y mod 400 =? 0); simpl; auto.
Qed.

Lemma div_succ a b :
  0 < b -> (a + 1) / b = a / b + (if (a + 1) mod b =? 0 then 1 else 0).
Proof.
  intros Hb.
  pose proof (Z.div_mod (a + 1) b ltac:(lia)).
  pose proof (Z.div_mod a b ltac:(lia)).
  pose proof (Z.mod_pos_bound a b Hb).
  pose proof (Z.mod_pos_bound (a + 1) b Hb).
  destruct (Z.eqb_spec ((a + 1) mod b) 0); nia.
Qed.

Lemma DayFromYear_succ y : DayFromYear (y + 1) = DayFromYear y + DaysInYear y.
Proof.
  unfold DayFromYear, DaysInYear.
  replace (y + 1 - 1969) with (y - 1969 + 1) by lia.
  replace (y + 1 - 1901) with (y - 1901 + 1) by lia.
  replace (y + 1 - 1601) with (y - 1601 + 1) by lia.
  rewrite !div_succ by lia.
  replace ((y - 1969 + 1) mod 4) with (y mod 4)
    by (replace (y - 1969 + 1) with (y + (-492) * 4) by lia;
        now rewrite Z.mod_add).
  replace ((y - 1901 + 1) mod 100) with (y mod 100)
    by (replace (y - 1901 + 1) with (y + (-19) * 100) by lia;
        now rewrite Z.mod_add).
  replace ((y - 1601 + 1) mod 400) with (y mod 400)
    by (replace (y - 1601 + 1) with (y + (-4) * 400) by lia;
        now rewrite Z.mod_add).
  assert (H100 : y mod 400 = 0 -> y mod 100 = 0).
  { intros E. rewrite <- (Z.mod_mod_divide y 400 100) by (exists 4; lia).
    now rewrite E. }
  assert (H4 : y mod 100 = 0 -> y mod 4 = 0).
  { intros E. rewrite <- (Z.mod_mod_divide y 100 4) by (exists 25; lia).
    now rewrite E. }
  destruct (Z.eqb_spec (y mod 4) 0), (Z.eqb_spec (y mod 100) 0),
    (Z.eqb_spec (y mod 400) 0); cbn [negb]; lia.
Qed.

Lemma DayFromYear_lt y : DayFromYear y < DayFromYear (y + 1).
Proof. rewrite DayFromYear_succ. destruct (DaysInYear_cases y); lia. Qed.

Lemma DayFromYear_mono y y' : y <= y' -> DayFromYear y <= DayFromYear y'.
Proof.
  intros H. replace y' with (y + Z.of_nat (Z.to_nat (y' - y))) by lia.
  induction (Z.to_nat (y' - y)) as [|n IH].
  - rewrite Z.add_0_r. lia.
  - replace (y + Z.of_nat (S n)) with (y + Z.of_nat n + 1) by lia.
    pose proof (DayFromYear_lt (y + Z.of_nat n)). lia.
Qed.

Lemma DayFromYear_estimate d q :
  146097 * q <= 400 * d < 146097 * q + 146097 ->
  DayFromYear (1970 + q - 1) <= d < DayFromYear (1970 + q + 2).
Proof.
  intros Hq. unfold DayFromYear.
  replace (1970 + q - 1 - 1969) with q by lia.
  replace (1970 + q - 1 - 1901) with (q + 68) by lia.
  replace (1970 + q - 1 - 1601) with (q + 368) by lia.
  replace (1970 + q + 2 - 1969) with (q + 3) by lia.
  replace (1970 + q + 2 - 1901) with (q + 71) by lia.
  replace (1970 + q + 2 - 1601) with (q + 371) by lia.
  pose proof (Z.div_mod q 4 ltac:(lia)).
  pose proof (Z.mod_pos_bound q 4 ltac:(lia)).
  pose proof (Z.div_mod (q + 68) 100 ltac:(lia)).
  pose proof (Z.mod_pos_bound (q + 68) 100 ltac:(lia)).
  pose proof (Z.div_mod (q + 368) 400 ltac:(lia)).
  pose proof (Z.mod_pos_bound (q + 368) 400 ltac:(lia)).
  pose proof (Z.div_mod (q + 3) 4 ltac:(lia)).
  pose proof (Z.mod_pos_bound (q + 3) 4 ltac:(lia)).
  pose proof (Z.div_mod (q + 71) 100 ltac:(lia)).
  pose proof (Z.mod_pos_bound (q + 71) 100 ltac:(lia)).
  pose proof (Z.div_mod (q + 371) 400 ltac:(lia)).
  pose proof (Z.mod_pos_bound (q + 371) 400 ltac:(lia)).
  lia.
Qed.

Lemma YearFromDay_spec d :
  DayFromYear (YearFromDay d) <= d < DayFromYear (YearFromDay d + 1).
Proof.
  unfold YearFromDay.
  set (q := 400 * d / 146097).
  assert (Hq : 146097 * q <= 400 * d < 146097 * q + 146097).
  { pose proof (Z.div_mod (400 * d) 146097 ltac:(lia)).
    pose proof (Z.mod_pos_bound (400 * d) 146097 ltac:(lia)).
    unfold q. lia. }
  destruct (DayFromYear_estimate d q Hq) as [Hlo Hhi].
  destruct (Z.leb_spec (DayFromYear (1970 + q + 1)) d).
  - replace (1970 + q + 1 + 1) with (1970 + q + 2) by lia. lia.
  - destruct (Z.leb_spec (DayFromYear (1970 + q)) d).
    + lia.
    + replace (1970 + q - 1 + 1) with (1970 + q) by lia. lia.
Qed.

Lemma YearFromDay_unique d y :
  DayFromYear y <= d < DayFromYear (y + 1) -> YearFromDay d = y.
Proof.
  intros [H1 H2]. destruct (YearFromDay_spec d) as [H3 H4].
  destruct (Z.lt_trichotomy (YearFromDay d) y) as [Hlt | [Heq | Hgt]]; auto.
  - pose proof (DayFromYear_mono (YearFromDay d + 1) y ltac:(lia)). lia.
  - pose proof (DayFromYear_mono (y + 1) (YearFromDay d) ltac:(lia)). lia.
Qed.

Lemma InLeapYearOf_cases y : InLeapYearOf y = 0 \/ InLeapYearOf y = 1.
Proof. unfold InLeapYearOf. destruct (DaysInYear_cases y); lia. Qed.

Lemma MonthInYear_spec leap diy :
  0 <= leap <= 1 -> 0 <= diy < 365 + leap ->
  0 <= MonthInYear leap diy <= 11 /\
  MonthStartInYear leap (MonthInYear leap diy) <= diy
    < MonthStartInYear leap (MonthInYear leap diy + 1).
Proof.
  intros Hl Hd. unfold MonthInYear.
  repeat match goal with
  | |- context [?a <? ?b] => destruct (Z.ltb_spec a b)
  end;
  match goal with
  | |- context [MonthStartInYear _ (?a + 1)] =>
      let v := eval compute in (a + 1) in change (a + 1) with v
  end; cbn [MonthStartInYear]; lia.
Qed.

Lemma monthStartDay_eq k :
  monthStartDay k
  = DayFromYear (k / 12) + MonthStartInYear (InLeapYearOf (k / 12)) (k mod 12).
Proof. unfold monthStartDay, MakeDay. rewrite Z.add_0_l. lia. Qed.

Lemma month_cases k :
  exists r, 0 <= r < 12 /\ k mod 12 = r /\ k = 12 * (k / 12) + r.
Proof.
  exists (k mod 12). pose proof (Z.mod_pos_bound k 12 ltac:(lia)).
  pose proof (Z.div_mod k 12 ltac:(lia)). lia.
Qed.

Lemma divmod_unique a q r : 0 <= r < 12 -> a = 12 * q + r -> a / 12 = q /\ a mod 12 = r.
Proof.
  intros Hr ->. split.
  - symmetry. apply (Z.div_unique (12 * q + r) 12 q r); lia.
  - symmetry. apply (Z.mod_unique (12 * q + r) 12 q r); lia.
Qed.

(** Every month has between 28 and 31 days. *)
Lemma monthStartDay_succ k :
  28 <= monthStartDay (k + 1) - monthStartDay k <= 31.
Proof.
  rewrite !monthStartDay_eq.
  destruct (month_cases k) as (r & Hr & Hm & Hk).
  set (y := k / 12) in *. rewrite Hm.
  assert (Hl := InLeapYearOf_cases y).
  destruct (Z.eq_dec r 11) as [E | NE].
  - destruct (divmod_unique (k + 1) (y + 1) 0 ltac:(lia) ltac:(lia))
      as [-> ->].
    rewrite E, DayFromYear_succ. unfold InLeapYearOf in *.
    cbn [MonthStartInYear]. lia.
  - destruct (divmod_unique (k + 1) y (r + 1) ltac:(lia) ltac:(lia))
      as [-> ->].
    assert (r = 0 \/ r = 1 \/ r = 2 \/ r = 3 \/ r = 4 \/ r = 5 \/ r = 6 \/
            r = 7 \/ r = 8 \/ r = 9 \/ r = 10) as Hc by lia.
    destruct Hc as [E|[E|[E|[E|[E|[E|[E|[E|[E|[E|E]]]]]]]]]]; rewrite E;
      match goal with
      | |- context [MonthStartInYear _ (?a + 1)] =>
          let v := eval compute in (a + 1) in change (a + 1) with v
      end; cbn [MonthStartInYear]; lia.
Qed.

Lemma monthStartDay_lt k : monthStartDay k < monthStartDay (k + 1).
Proof. pose proof (monthStartDay_succ k). lia. Qed.

Lemma monthStartDay_mono k k' : k <= k' -> monthStartDay k <= monthStartDay k'.
Proof.
  intros H. replace k' with (k + Z.of_nat (Z.to_nat (k' - k))) by lia.
  induction (Z.to_nat (k' - k)) as [|n IH].
  - rewrite Z.add_0_r. lia.
  - replace (k + Z.of_nat (S n)) with (k + Z.of_nat n + 1) by lia.
    pose proof (monthStartDay_lt (k + Z.of_nat n)). lia.
Qed.

Lemma monthStartDay_lt_mono k k' : k < k' -> monthStartDay k < monthStartDay k'.
Proof.
  intros H. pose proof (monthStartDay_mono (k + 1) k' ltac:(lia)).
  pose proof (monthStartDay_lt k). lia.
Qed.

Lemma DayWithinYear_bound t :
  0 <= DayWithinYear t < 365 + InLeapYearOf (YearFromTime t).
Proof.
  unfold DayWithinYear, YearFromTime, InLeapYearOf.
  pose proof (YearFromDay_spec (Day t)) as H.
  rewrite DayFromYear_succ in H. lia.
Qed.

Lemma MonthFromTime_bound t : 0 <= MonthFromTime t <= 11.
Proof.
  unfold MonthFromTime.
  apply MonthInYear_spec; [| apply DayWithinYear_bound].
  destruct (InLeapYearOf_cases (YearFromTime t)); lia.
Qed.

Lemma monthIndex_divmod t :
  monthIndex t / 12 = YearFromTime t /\ monthIndex t mod 12 = MonthFromTime t.
Proof.
  apply divmod_unique; [| reflexivity].
  pose proof (MonthFromTime_bound t). lia.
Qed.

Lemma monthIndex_spec t :
  monthStartDay (monthIndex t) <= Day t < monthStartDay (monthIndex t + 1).
Proof.
  destruct (monthIndex_divmod t) as [Hy Hm].
  pose proof (MonthFromTime_bound t) as Hb.
  pose proof (DayWithinYear_bound t) as Hd.
  assert (Hl : 0 <= InLeapYearOf (YearFromTime t) <= 1)
    by (destruct (InLeapYearOf_cases (YearFromTime t)); lia).
  destruct (MonthInYear_spec _ _ Hl Hd) as [_ Hs].
  fold (MonthFromTime t) in Hs.
  rewrite !monthStartDay_eq, Hy, Hm.
  unfold DayWithinYear in *.
  destruct (Z.eq_dec (MonthFromTime t) 11) as [E | NE].
  - destruct (divmod_unique (monthIndex t + 1) (YearFromTime t + 1) 0
                ltac:(lia) ltac:(unfold monthIndex; lia)) as [-> ->].
    rewrite E in *. rewrite DayFromYear_succ.
    change (11 + 1) with 12 in Hs. cbn [MonthStartInYear] in *.
    unfold InLeapYearOf in *. lia.
  - destruct (divmod_unique (monthIndex t + 1) (YearFromTime t)
                (MonthFromTime t + 1)
                ltac:(lia) ltac:(unfold monthIndex; lia)) as [-> ->].
    lia.
Qed.

Lemma monthIndex_unique t k :
  monthStartDay k <= Day t < monthStartDay (k + 1) -> monthIndex t = k.
Proof.
  intros [H1 H2]. destruct (monthIndex_spec t) as [H3 H4].
  destruct (Z.lt_trichotomy (monthIndex t) k) as [Hlt | [Heq | Hgt]]; auto.
  - pose proof (monthStartDay_mono (monthIndex t + 1) k ltac:(lia)). lia.
  - pose proof (monthStartDay_mono (k + 1) (monthIndex t) ltac:(lia)). lia.
Qed.

Lemma Day_MakeDate d tm : 0 <= tm < msPerDay -> Day (MakeDate d tm) = d.
Proof.
  intros H. unfold Day, MakeDate. symmetry.
  apply (Z.div_unique (d * msPerDay + tm) msPerDay d tm); lia.
Qed.

Lemma TimeWithinDay_MakeDate d tm :
  0 <= tm < msPerDay -> TimeWithinDay (MakeDate d tm) = tm.
Proof.
  intros H. unfold TimeWithinDay, MakeDate. symmetry.
  apply (Z.mod_unique (d * msPerDay + tm) msPerDay d tm); lia.
Qed.

Lemma MakeDay_monthStartDay y m d :
  MakeDay y m d = monthStartDay (12 * y + m) + d - 1.
Proof.
  unfold monthStartDay, MakeDay. rewrite Z.add_0_l.
  replace (12 * y + m) with (m + y * 12) by lia.
  rewrite Z.div_add, Z.mod_add by lia.
  replace (m / 12 + y) with (y + m / 12) by lia. lia.
Qed.

Lemma mkDate_first y m : mkDate y m 1 = monthStart (12 * y + m).
Proof.
  unfold monthStart, mkDate. rewrite (MakeDay_monthStartDay y m 1).
  unfold monthStartDay. f_equal. lia.
Qed.

Lemma monthStart_eq k : monthStart k = monthStartDay k * msPerDay.
Proof. unfold monthStart, mkDate, MakeDate, monthStartDay. lia. Qed.

Lemma Day_monthStart k : Day (monthStart k) = monthStartDay k.
Proof. unfold monthStart, mkDate. apply Day_MakeDate. unfold msPerDay. lia. Qed.

Lemma TimeWithinDay_monthStart k : TimeWithinDay (monthStart k) = 0.
Proof.
  unfold monthStart, mkDate. apply TimeWithinDay_MakeDate. unfold msPerDay. lia.
Qed.

Lemma monthIndex_monthStart k : monthIndex (monthStart k) = k.
Proof.
  apply monthIndex_unique. rewrite Day_monthStart.
  pose proof (monthStartDay_lt k). lia.
Qed.

Lemma DateFromTime_eq t :
  DateFromTime t = Day t - monthStartDay (monthIndex t) + 1.
Proof.
  destruct (monthIndex_divmod t) as [Hy Hm].
  rewrite monthStartDay_eq, Hy, Hm. unfold DateFromTime, DayWithinYear. lia.
Qed.

Lemma DateFromTime_monthStart k : DateFromTime (monthStart k) = 1.
Proof. rewrite DateFromTime_eq, monthIndex_monthStart, Day_monthStart. lia. Qed.

(** [new Date(d.getFullYear(), d.getMonth(), 1)] is the start of [d]'s month. *)
Lemma firstOfMonth_eq t :
  mkDate (getFullYear t) (getMonth t) 1 = monthStart (monthIndex t).
Proof. now rewrite mkDate_first. Qed.

(** [new Date(d.getFullYear(), d.getMonth() + 1, 0)] is midnight of the last
    day of [d]'s month. *)
Lemma endOfMonth_eq t :
  mkDate (getFullYear t) (getMonth t + 1) 0
  = monthStart (monthIndex t + 1) - msPerDay.
Proof.
  unfold mkDate, MakeDate. rewrite MakeDay_monthStartDay, monthStart_eq.
  unfold getFullYear, getMonth.
  replace (12 * YearFromTime t + (MonthFromTime t + 1))
    with (monthIndex t + 1) by (unfold monthIndex; lia).
  lia.
Qed.

Lemma setMonth_next_monthStart k :
  setMonth (monthStart k) (getMonth (monthStart k) + 1) = monthStart (k + 1).
Proof.
  unfold setMonth, getMonth.
  rewrite MakeDay_monthStartDay, DateFromTime_monthStart,
    TimeWithinDay_monthStart.
  replace (12 * YearFromTime (monthStart k) + (MonthFromTime (monthStart k) + 1))
    with (monthIndex (monthStart k) + 1) by (unfold monthIndex; lia).
  rewrite monthIndex_monthStart, monthStart_eq. unfold MakeDate. lia.
Qed.

Lemma monthStart_le_iff k t : monthStart k <= t <-> k <= monthIndex t.
Proof.
  rewrite monthStart_eq.
  assert (Hd : monthStartDay k * msPerDay <= t <-> monthStartDay k <= Day t).
  { unfold Day.
    pose proof (Z.div_mod t msPerDay ltac:(unfold msPerDay; lia)).
    pose proof (Z.mod_pos_bound t msPerDay ltac:(unfold msPerDay; lia)).
    unfold msPerDay in *. lia. }
  rewrite Hd. destruct (monthIndex_spec t) as [H1 H2]. split; intros H.
  - destruct (Z.le_gt_cases k (monthIndex t)) as [|Hgt]; auto.
    pose proof (monthStartDay_mono (monthIndex t + 1) k ltac:(lia)). lia.
  - pose proof (monthStartDay_mono k (monthIndex t) H). lia.
Qed.

Lemma monthStart_lt_mono k k' : k < k' -> monthStart k < monthStart k'.
Proof.
  intros H. rewrite !monthStart_eq.
  pose proof (monthStartDay_lt_mono k k' H). unfold msPerDay. lia.
Qed.

(** [d.setDate(d.getDate() + n)] moves [d] by [n] days. *)
Lemma setDate_plus t n : setDate t (getDate t + n) = t + n * msPerDay.
Proof.
  unfold setDate, getDate. rewrite MakeDay_monthStartDay.
  fold (monthIndex t). rewrite DateFromTime_eq.
  unfold MakeDate, TimeWithinDay, Day.
  pose proof (Z.div_mod t msPerDay ltac:(unfold msPerDay; lia)). lia.
Qed.

End CalendarFacts.

Open Scope Q_scope.

Example toFixed2_examples :
  toFixed2 (1 # 3) == 33 # 100 /\ toFixed2 (2 # 3) == 67 # 100 /\
  toFixed2 (1 # 8) == 13 # 100 /\ toFixed2 (- (1 # 8)) == - (13 # 100) /\
  toFixed2 (200 # 3) == 6667 # 100.
Proof. repeat split; reflexivity. Qed.

(** ** Sums of amounts *)

Lemma sumQ_app xs ys : sumQ (xs ++ ys) == sumQ xs + sumQ ys.
Proof. induction xs as [|x xs IH]; simpl; [ring | rewrite IH; ring]. Qed.

Lemma fold_left_Qplus {A} (f : A -> Q) xs acc :
  fold_left (fun t x => t + f x) xs acc == acc + sumQ (map f xs).
Proof.
  revert acc. induction xs as [|x xs IH]; intros acc; simpl.
  - ring.
  - rewrite IH. ring.
Qed.

Lemma orZero_eq x : orZero x == x.
Proof.
  unfold orZero. destruct (Qeq_bool x 0) eqn:E; [| reflexivity].
  apply Qeq_bool_iff in E. now rewrite E.
Qed.

Lemma toFixed2_spec x :
  exists n : Z,
    toFixed2 x == inject_Z n / 100 /\ Qabs (toFixed2 x - x) <= 1 # 200.
Proof.
  unfold toFixed2.
  set (n := Qfloor (Qabs x * 100 + (1 # 2))).
  assert (Hlo : inject_Z n <= Qabs x * 100 + (1 # 2)) by apply Qfloor_le.
  assert (Hhi : Qabs x * 100 + (1 # 2) < inject_Z (n + 1)) by apply Qlt_floor.
  rewrite inject_Z_plus in Hhi. change (inject_Z 1) with 1 in Hhi.
  destruct (Qle_bool 0 x) eqn:E.
  - apply Qle_bool_iff in E. rewrite (Qabs_pos x E) in *.
    exists n. split; [reflexivity |].
    apply Qabs_Qle_condition. unfold Qdiv. change (/ 100) with (1 # 100).
    split; lra.
  - assert (Hx : x < 0).
    { apply Qnot_le_lt. intros H. apply Qle_bool_iff in H. congruence. }
    rewrite (Qabs_neg x) in * by lra.
    exists (- n)%Z. split.
    + rewrite inject_Z_opp. unfold Qdiv. ring.
    + apply Qabs_Qle_condition. unfold Qdiv. change (/ 100) with (1 # 100).
      split; lra.
Qed.

(** ** The corpus resolver *)

(** A populated investment whose client exists. *)

Lemma lookupClient_None cs id : lookupClient cs id = None <-> ~ In id (ids cs).
Proof.
  induction cs as [|c cs IH]; simpl; [tauto |].
  destruct (N.eqb_spec (ClientInvestment.clientId c) id); split.
  - discriminate.
  - intros H. exfalso. apply H. now left.
  - intros H [E | HIn]; [congruence | now apply IH].
  - intros H. apply IH. intros HIn. apply H. now right.
Qed.

Lemma lookupClient_In cs c :
  NoDup (ids cs) -> In c cs ->
  lookupClient cs (ClientInvestment.clientId c) = Some c.
Proof.
  induction cs as [|c0 cs IH]; simpl; [tauto |].
  intros Hnd [-> | HIn].
  - now rewrite N.eqb_refl.
  - inversion Hnd as [| ? ? Hnot Hnd']; subst.
    destruct (N.eqb_spec (ClientInvestment.clientId c0)
                (ClientInvestment.clientId c)) as [E | _].
    + exfalso. apply Hnot. rewrite E. now apply in_map.
    + now apply IH.
Qed.

Lemma addToClient_ids cs id a : ids (addToClient cs id a) = ids cs.
Proof.
  induction cs as [|c cs IH]; simpl; [reflexivity |].
  destruct (N.eqb (ClientInvestment.clientId c) id); simpl;
    [reflexivity | now rewrite IH].
Qed.

Lemma addToClient_totals cs id a :
  In id (ids cs) ->
  sumQ (totals (addToClient cs id a)) == sumQ (totals cs) + a.
Proof.
  induction cs as [|c cs IH]; simpl; [tauto |].
  intros HIn.
  destruct (N.eqb_spec (ClientInvestment.clientId c) id) as [E | NE]; simpl.
  - ring.
  - destruct HIn as [E | HIn]; [congruence |]. rewrite (IH HIn). ring.
Qed.

Lemma addToClient_totalOf cs id a id' :
  In id (ids cs) ->
  totalOf (addToClient cs id a) id'
  == totalOf cs id' + (if N.eqb id id' then a else 0).
Proof.
  unfold totalOf. induction cs as [|c cs IH]; simpl; [tauto |].
  intros HIn.
  destruct (N.eqb_spec (ClientInvestment.clientId c) id) as [E | NE]; simpl.
  - rewrite E. destruct (N.eqb_spec id id'); simpl; ring.
  - destruct HIn as [E | HIn]; [congruence |].
    destruct (N.eqb_spec (ClientInvestment.clientId c) id') as [E' | NE'].
    + destruct (N.eqb_spec id id'); [congruence | ring].
    + now apply IH.
Qed.

Lemma totalOf_snoc cs id name id' :
  ~ In id (ids cs) ->
  totalOf (cs ++ [ClientInvestment.mk id name 0]) id' == totalOf cs id'.
Proof.
  unfold totalOf. induction cs as [|c cs IH]; simpl; intros Hnot.
  - destruct (N.eqb id id'); reflexivity.
  - destruct (N.eqb (ClientInvestment.clientId c) id'); [reflexivity |].
    apply IH. tauto.
Qed.

(** The state of the grouping loop after the populated investments [pis],
    started from [(cs, tot)]. *)

Lemma forEach_groupByClient pis :
  Forall resolved pis ->
  forall cs tot,
  exists cs' tot',
    forEach groupByClient pis (cs, tot) = Returned (cs', tot') /\
    tot' == tot + sumQ (map (fun pi => signedAmount (fst pi)) pis) /\
    sumQ (totals cs')
      == sumQ (totals cs) + sumQ (map (fun pi => signedAmount (fst pi)) pis) /\
    (NoDup (ids cs) -> NoDup (ids cs')) /\
    (forall id, In id (ids cs') <->
                In id (ids cs)
                \/ In id (map (fun pi => Investment.clientId (fst pi)) pis)) /\
    (forall id,
        totalOf cs' id
        == totalOf cs id
           + sumQ (map (fun pi => signedAmount (fst pi))
                     (filter (fun pi => ofClient id (fst pi)) pis))).
Proof.
  intros Hall. induction Hall as [| pi pis Hres Hall IH]; intros cs tot.
  - exists cs, tot. simpl. repeat split; try tauto; try ring.
    intros id. ring.
  - destruct pi as [inv o]. destruct Hres as (u & Hu & Hid).
    simpl in Hu, Hid. subst o. cbn [forEach groupByClient snd fst].
    set (cs1 := match lookupClient cs (User._id u) with
                | None => cs ++ [ClientInvestment.mk (User._id u) (User.name u) 0]
                | Some _ => cs
                end).
    assert (Hin1 : In (User._id u) (ids cs1)).
    { unfold cs1. destruct (lookupClient cs (User._id u)) eqn:E.
      - destruct (in_dec N.eq_dec (User._id u) (ids cs)) as [|Hn]; auto.
        apply lookupClient_None in Hn. congruence.
      - unfold ids. rewrite map_app, in_app_iff. right. now left. }
    assert (Hids1 : forall id, In id (ids cs1) <-> In id (ids cs) \/ id = User._id u).
    { intros id. unfold cs1. destruct (lookupClient cs (User._id u)) eqn:E.
      - split; [tauto |]. intros [H | ->]; auto.
      - unfold ids. rewrite map_app, in_app_iff. simpl. intuition. }
    assert (Hnd1 : NoDup (ids cs) -> NoDup (ids cs1)).
    { unfold cs1. destruct (lookupClient cs (User._id u)) eqn:E; auto.
      intros Hnd. apply lookupClient_None in E.
      unfold ids. rewrite map_app. simpl.
      apply NoDup_app; [exact Hnd | repeat constructor; intros [] | ].
      intros x Hx [<- | []]. apply E. exact Hx. }
    assert (Hsum1 : sumQ (totals cs1) == sumQ (totals cs)).
    { unfold cs1. destruct (lookupClient cs (User._id u)); [reflexivity |].
      unfold totals. rewrite map_app, sumQ_app. simpl. ring. }
    assert (Htot1 : forall id, totalOf cs1 id == totalOf cs id).
    { intros id. unfold cs1. destruct (lookupClient cs (User._id u)) eqn:E;
        [reflexivity |].
      apply totalOf_snoc. now apply lookupClient_None. }
    destruct (IH (addToClient cs1 (User._id u) (signedAmount inv))
                (tot + signedAmount inv))
      as (cs' & tot' & Hrun & Htot & Hsum & Hnd & Hids & Hof).
    exists cs', tot'. split; [exact Hrun |].
    rewrite addToClient_ids in *.
    split; [| split; [| split; [| split]]].
    + rewrite Htot. simpl. ring.
    + rewrite Hsum, addToClient_totals, Hsum1 by exact Hin1. simpl. ring.
    + intros H. apply Hnd. exact (Hnd1 H).
    + intros id. rewrite Hids, Hids1. simpl. rewrite <- Hid. intuition.
    + intros id. rewrite Hof, addToClient_totalOf, Htot1 by exact Hin1.
      cbn [filter fst]. unfold ofClient at 2. rewrite <- Hid.
      destruct (N.eqb (User._id u) id); simpl; ring.
Qed.

(** Every selected investment references an existing user. *)

Lemma selected_iff date inv :
  selected date inv = true <->
  Investment.status inv = Investment.active /\
  (Investment.investmentDate inv <= date)%Z.
Proof.
  unfold selected, Investment.isActive.
  rewrite andb_true_iff, Z.leb_le.
  destruct (Investment.status inv); intuition discriminate.
Qed.

Lemma sumQ_signed invs :
  sumQ (map signedAmount invs)
  == sumQ (map Investment.amount (filter isDeposit invs))
     - sumQ (map Investment.amount
               (filter (fun inv => negb (isDeposit inv)) invs)).
Proof.
  induction invs as [|inv invs IH]; simpl; [ring |].
  unfold signedAmount, isDeposit in *.
  destruct (Investment.type inv); simpl; rewrite IH; ring.
Qed.

Lemma populate_resolved us inv :
  hasUser us inv = true -> resolved (populate us inv).
Proof.
  unfold hasUser. intros H. unfold resolved, populate. simpl.
  destruct (find _ us) as [u |] eqn:E.
  - exists u. split; [reflexivity |].
    apply find_some in E. now apply N.eqb_eq.
  - apply existsb_exists in H. destruct H as (u & HIn & Hu).
    apply (find_none _ _ E) in HIn. congruence.
Qed.

Lemma populated_resolved date w :
  clientsResolve date w = true ->
  Forall resolved (map (populate (users w))
                     (filter (selected date) (investments w))).
Proof.
  unfold clientsResolve. rewrite forallb_forall, Forall_forall.
  intros H pi HIn. apply in_map_iff in HIn. destruct HIn as (inv & <- & HIn).
  apply populate_resolved. now apply H.
Qed.

Lemma map_fst_populate {B} us (f : Investment.t -> B) invs :
  map (fun pi => f (fst pi)) (map (populate us) invs) = map f invs.
Proof. rewrite map_map. reflexivity. Qed.

Lemma filter_populate us (p : Investment.t -> bool) invs :
  filter (fun pi => p (fst pi)) (map (populate us) invs)
  = map (populate us) (filter p invs).
Proof.
  induction invs as [|inv invs IH]; simpl; [reflexivity |].
  destruct (p inv); simpl; now rewrite IH.
Qed.

Lemma filter_filter {A} (p q : A -> bool) xs :
  filter q (filter p xs) = filter (fun x => p x && q x) xs.
Proof.
  induction xs as [|x xs IH]; simpl; [reflexivity |].
  destruct (p x); simpl; [destruct (q x) |]; now rewrite IH.
Qed.

Lemma withShare_total tot :
  forall cs, map ClientShare.totalInvestment (map (withShare tot) cs) = totals cs.
Proof. intros cs. unfold totals. rewrite map_map. reflexivity. Qed.

Lemma withShare_ids tot :
  forall cs, map ClientShare.clientId (map (withShare tot) cs) = ids cs.
Proof. intros cs. unfold ids. rewrite map_map. reflexivity. Qed.

(** The run of [getCorpusAtDate] in terms of the grouping loop. *)

Lemma getCorpusAtDate_run date w cs tot :
  forEach groupByClient
    (map (populate (users w)) (filter (selected date) (investments w)))
    ([], 0) = Returned (cs, tot) ->
  getCorpusAtDate date w
  = (Returned (mkCorpusData (orZero tot) (map (withShare tot) cs)), w).
Proof.
  intros H. unfold getCorpusAtDate, bind, findInvestments, liftOutcome, ret.
  now rewrite H.
Qed.

(** C1. For a cutoff [date] and a ledger whose selected investments
    reference existing clients, [getCorpusAtDate] returns and leaves the
    store unchanged; an investment is selected exactly when it is active and
    dated no later than [date]; the result lists each client with a
    selected investment once; a client's [totalInvestment] is the sum of
    that client's selected deposits minus the sum of the selected
    withdrawals; [totalCorpus] is the sum of the clients' [totalInvestment];
    a [sharePercentage] is 0 when [totalCorpus] is zero and otherwise
    [totalInvestment / totalCorpus * 100] rounded to a multiple of 1/100
    (off by at most 1/200).  With no active investment at all, as in an
    empty or entirely cancelled ledger, the result is [totalCorpus = 0] and
    an empty list of shares. *)
Theorem getCorpusAtDate_spec (w : World) (date : Date) :
  (clientsResolve date w = true ->
   let chosen := filter (selected date) (investments w) in
   let of_client id := filter (ofClient id) chosen in
   exists cd,
     getCorpusAtDate date w = (Returned cd, w) /\
     (forall inv,
         In inv chosen <->
         In inv (investments w) /\
         Investment.status inv = Investment.active /\
         (Investment.investmentDate inv <= date)%Z) /\
     NoDup (map ClientShare.clientId (clientShares cd)) /\
     (forall id,
         In id (map ClientShare.clientId (clientShares cd)) <->
         exists inv, In inv chosen /\ Investment.clientId inv = id) /\
     (forall s,
         In s (clientShares cd) ->
         let mine := of_client (ClientShare.clientId s) in
         ClientShare.totalInvestment s
         == sumQ (map Investment.amount (filter isDeposit mine))
            - sumQ (map Investment.amount
                      (filter (fun inv => negb (isDeposit inv)) mine))) /\
     totalCorpus cd
     == sumQ (map ClientShare.totalInvestment (clientShares cd)) /\
     (forall s,
         In s (clientShares cd) ->
         (totalCorpus cd == 0 -> ClientShare.sharePercentage s = 0) /\
         (~ totalCorpus cd == 0 ->
          exists n : Z,
            ClientShare.sharePercentage s == inject_Z n / 100 /\
            Qabs (ClientShare.sharePercentage s
                  - ClientShare.totalInvestment s / totalCorpus cd * 100)
            <= 1 # 200))) /\
  ((forall inv, In inv (investments w) ->
                Investment.status inv = Investment.cancelled) ->
   getCorpusAtDate date w = (Returned (mkCorpusData 0 []), w)).
Proof.
  split.
  - intros Hres chosen of_client.
    destruct (forEach_groupByClient _ (populated_resolved date w Hres) [] 0)
      as (cs & tot & Hrun & Htot & Hsum & Hnd & Hids & Hof).
    fold chosen in Hrun, Htot, Hsum, Hids, Hof.
    rewrite map_fst_populate in Htot, Hsum.
    rewrite (map_fst_populate _ Investment.clientId) in Hids.
    exists (mkCorpusData (orZero tot) (map (withShare tot) cs)).
    cbn [totalCorpus clientShares].
    rewrite withShare_ids, withShare_total.
    split; [now apply getCorpusAtDate_run |].
    split; [| split; [| split; [| split; [| split]]]].
    + intros inv. unfold chosen. rewrite filter_In, selected_iff. tauto.
    + apply Hnd. constructor.
    + intros id. rewrite Hids, in_map_iff. simpl. split.
      * intros [[] | (inv & E & HIn)]. eauto.
      * intros (inv & HIn & E). right. eauto.
    + intros s HIn. apply in_map_iff in HIn.
      destruct HIn as (c & <- & HIn). cbn.
      assert (E : ClientInvestment.totalInvestment c
                  = totalOf cs (ClientInvestment.clientId c)).
      { unfold totalOf. rewrite lookupClient_In; auto. apply Hnd.
        constructor. }
      rewrite E, Hof. unfold totalOf at 1. simpl.
      rewrite filter_populate, map_fst_populate, sumQ_signed.
      unfold of_client. ring.
    + rewrite orZero_eq, Htot, Hsum. simpl. ring.
    + intros s HIn. apply in_map_iff in HIn. destruct HIn as (c & <- & HIn).
      cbn. split.
      * intros H0. rewrite orZero_eq in H0. apply Qeq_bool_iff in H0.
        now rewrite H0.
      * intros Hn0. rewrite orZero_eq in Hn0.
        destruct (Qeq_bool tot 0) eqn:E.
        -- apply Qeq_bool_iff in E. contradiction.
        -- unfold orZero. rewrite E. apply toFixed2_spec.
  - intros Hcan.
    assert (Hnil : filter (selected date) (investments w) = []).
    { clear - Hcan. revert Hcan.
      generalize (investments w) as invs.
      induction invs as [|inv invs IH]; intros Hcan; [reflexivity |].
      simpl. unfold selected at 1, Investment.isActive.
      rewrite (Hcan inv) by now left. rewrite andb_false_r.
      apply IH. intros inv' H'. apply Hcan. now right. }
    apply (getCorpusAtDate_run date w [] 0). now rewrite Hnil.
Qed.

(** ** One month *)

(** The calendar is used through its lemmas from here on. *)
Opaque mkDate setMonth setDate getFullYear getMonth getDate monthStart
  monthIndex.

Lemma getCorpusAtDate_eq date w :
  getCorpusAtDate date w = (corpusAt (users w) (investments w) date, w).
Proof.
  unfold getCorpusAtDate, corpusAt, bind, findInvestments, liftOutcome, ret.
  destruct (forEach _ _ _) as [[cs tot] | e |]; reflexivity.
Qed.

Lemma corpusAt_resolved date w :
  clientsResolve date w = true ->
  exists cd, corpusAt (users w) (investments w) date = Returned cd.
Proof.
  intros H.
  destruct (forEach_groupByClient _ (populated_resolved date w H) [] 0)
    as (cs & tot & Hrun & _).
  unfold corpusAt. rewrite Hrun. eauto.
Qed.

Lemma getPlatformReturns_eq startDate endDate w :
  getPlatformReturns startDate endDate w
  = (Returned (platformReturnsAt (platformInvestments w) endDate), w).
Proof. reflexivity. Qed.

Lemma calculateClientReturns_eq cd pct date w :
  calculateClientReturns cd pct date w
  = (Returned (map (clientReturnOf pct) (clientShares cd)), w).
Proof.
  unfold calculateClientReturns.
  induction (clientShares cd) as [|s ss IH]; [reflexivity |].
  cbn [mapAsync map]. unfold bind at 1. unfold bind at 1.
  unfold getPreviousClosingBalance at 1. cbn beta iota.
  unfold ret at 1. unfold bind at 1. rewrite IH. reflexivity.
Qed.

(** [calculateMonthlyReturns] either fails in the corpus resolution, leaving
    the state as it was, or upserts the snapshot of the month. *)
Lemma calculateMonthlyReturns_eq monthDate w :
  calculateMonthlyReturns monthDate w
  = match corpusAt (users w) (investments w) (endOfMonth monthDate) with
    | Returned cd =>
        (Returned tt,
         afterCalculation w
           (upsert (snapshotOf (platformInvestments w) monthDate cd
                      (clock w (ticks w)))
              (monthlyReturns w)))
    | Thrown e => (Thrown e, w)
    | Diverges => (Diverges, w)
    end.
Proof.
  unfold calculateMonthlyReturns.
  change (mkDate (getFullYear monthDate) (getMonth monthDate + 1) 0)
    with (endOfMonth monthDate).
  change (mkDate (getFullYear monthDate) (getMonth monthDate) 1)
    with (startOfMonth monthDate).
  unfold bind at 1. rewrite getCorpusAtDate_eq.
  destruct (corpusAt _ _ _) as [cd | e |]; try reflexivity.
  unfold bind at 1. rewrite getPlatformReturns_eq.
  unfold bind at 1. rewrite calculateClientReturns_eq.
  reflexivity.
Qed.

Lemma findMonth_upsert doc ms :
  findMonth (MonthlyReturn.month doc) (upsert doc ms) = Some doc.
Proof.
  unfold findMonth. induction ms as [|m ms IH]; simpl.
  - now rewrite Z.eqb_refl.
  - destruct (Z.eqb_spec (MonthlyReturn.month m) (MonthlyReturn.month doc));
      simpl.
    + now rewrite Z.eqb_refl.
    + destruct (Z.eqb_spec (MonthlyReturn.month m) (MonthlyReturn.month doc));
        [contradiction | exact IH].
Qed.

Lemma findMonth_upsert_other doc ms k :
  MonthlyReturn.month doc <> k ->
  findMonth k (upsert doc ms) = findMonth k ms.
Proof.
  intros Hk. unfold findMonth. induction ms as [|m ms IH]; simpl.
  - destruct (Z.eqb_spec (MonthlyReturn.month doc) k); [contradiction |].
    reflexivity.
  - destruct (Z.eqb_spec (MonthlyReturn.month m) (MonthlyReturn.month doc))
      as [E | NE]; simpl.
    + destruct (Z.eqb_spec (MonthlyReturn.month doc) k); [contradiction |].
      destruct (Z.eqb_spec (MonthlyReturn.month m) k); [congruence |].
      reflexivity.
    + destruct (Z.eqb_spec (MonthlyReturn.month m) k); [reflexivity | exact IH].
Qed.

(** ** The platform return aggregator *)

Lemma sumQ_map_ext {A} (f g : A -> Q) xs :
  (forall x, f x == g x) -> sumQ (map f xs) == sumQ (map g xs).
Proof.
  intros H. induction xs as [|x xs IH]; simpl; [reflexivity |].
  now rewrite H, IH.
Qed.

Lemma platformSelected_iff endDate p :
  platformSelected endDate p = true <->
  PlatformInvestment.status p = PlatformInvestment.active /\
  (PlatformInvestment.investmentDate p <= endDate)%Z.
Proof.
  unfold platformSelected, PlatformInvestment.isActive.
  rewrite andb_true_iff, Z.leb_le.
  destruct (PlatformInvestment.status p); intuition discriminate.
Qed.

(** C5. For a period, [getPlatformReturns] returns, without changing the
    store, the active platform investments dated no later than the end of
    the period; [totalValue] is the sum of their [currentValue]s; the
    weighted return is the sum over these platforms of
    [currentValue / totalValue * returnPercentage], and it is 0 when
    [totalValue] is zero. *)
Theorem getPlatformReturns_spec (w : World) (periodStart periodEnd : Date) :
  let chosen :=
    filter (platformSelected periodEnd) (platformInvestments w) in
  exists pr,
    getPlatformReturns periodStart periodEnd w = (Returned pr, w) /\
    (forall p,
        In p chosen <->
        In p (platformInvestments w) /\
        PlatformInvestment.status p = PlatformInvestment.active /\
        (PlatformInvestment.investmentDate p <= periodEnd)%Z) /\
    platforms pr = map toPlatformData chosen /\
    totalValue pr == sumQ (map PlatformInvestment.currentValue chosen) /\
    (~ totalValue pr == 0 ->
     calculateWeightedReturn pr
     == sumQ (map (fun p =>
                     PlatformInvestment.currentValue p / totalValue pr
                     * PlatformInvestment.returnPercentage p) chosen)) /\
    (totalValue pr == 0 -> calculateWeightedReturn pr = 0).
Proof.
  intros chosen.
  exists (platformReturnsAt (platformInvestments w) periodEnd).
  split; [reflexivity |].
  unfold platformReturnsAt. fold chosen.
  cbn [totalValue platforms].
  split; [| split; [| split; [| split]]].
  - intros p. unfold chosen. rewrite filter_In, platformSelected_iff. tauto.
  - reflexivity.
  - rewrite fold_left_Qplus. ring.
  - intros Hn0. unfold calculateWeightedReturn. cbn [totalValue platforms].
    destruct (Qeq_bool _ 0) eqn:E.
    + apply Qeq_bool_iff in E. contradiction.
    + rewrite fold_left_Qplus, map_map, Qplus_0_l.
      apply sumQ_map_ext. intros p. cbn. rewrite orZero_eq. ring.
  - intros H0. unfold calculateWeightedReturn. cbn [totalValue].
    apply Qeq_bool_iff in H0. now rewrite H0.
Qed.

(** ** The enumeration of months *)

Lemma startOfMonth_eq m : startOfMonth m = monthStart (monthIndex m).
Proof. apply firstOfMonth_eq. Qed.

Lemma endOfMonth_eq' m :
  endOfMonth m = (monthStart (monthIndex m + 1) - msPerDay)%Z.
Proof. apply endOfMonth_eq. Qed.

Lemma monthIndex_mono t t' : (t <= t')%Z -> (monthIndex t <= monthIndex t')%Z.
Proof.
  intros H. apply monthStart_le_iff.
  pose proof (proj2 (monthStart_le_iff (monthIndex t) t) (Z.le_refl _)).
  lia.
Qed.

Lemma monthStart_inj k k' : monthStart k = monthStart k' -> k = k'.
Proof.
  intros H. rewrite <- (monthIndex_monthStart k), H.
  apply monthIndex_monthStart.
Qed.

Lemma same_month m m' :
  startOfMonth m = startOfMonth m' -> endOfMonth m = endOfMonth m'.
Proof.
  rewrite !startOfMonth_eq, !endOfMonth_eq'. intros H.
  now rewrite (monthStart_inj _ _ H).
Qed.

Lemma monthStartDay_span k n :
  (monthStartDay k + 28 * Z.of_nat n <= monthStartDay (k + Z.of_nat n))%Z.
Proof.
  induction n as [|n IH].
  - replace (k + Z.of_nat 0)%Z with k by lia. lia.
  - replace (k + Z.of_nat (S n))%Z with (k + Z.of_nat n + 1)%Z by lia.
    pose proof (monthStartDay_succ (k + Z.of_nat n)). lia.
Qed.

Lemma length_monthsFrom k n : length (monthsFrom k n) = n.
Proof. revert k. induction n; intros k; simpl; auto. Qed.

Lemma monthsFrom_snoc k n :
  monthsFrom k (S n) = monthsFrom k n ++ [monthStart (k + Z.of_nat n)].
Proof.
  revert k. induction n as [|n IH]; intros k.
  - cbn [monthsFrom app]. change (Z.of_nat 0) with 0%Z.
    now rewrite Z.add_0_r.
  - change (monthsFrom k (S (S n)))
      with (monthStart k :: monthsFrom (k + 1) (S n)).
    rewrite IH. cbn [monthsFrom app].
    replace (k + 1 + Z.of_nat n)%Z with (k + Z.of_nat (S n))%Z by lia.
    reflexivity.
Qed.

Lemma nth_monthsFrom k n i d :
  (i < n)%nat -> nth i (monthsFrom k n) d = monthStart (k + Z.of_nat i).
Proof.
  revert k i. induction n as [|n IH]; intros k i Hi; [lia |].
  destruct i as [|i]; cbn [monthsFrom nth].
  - change (Z.of_nat 0) with 0%Z. now rewrite Z.add_0_r.
  - rewrite IH by lia. f_equal. lia.
Qed.

Lemma In_monthsFrom k n m :
  In m (monthsFrom k n) <->
  exists i, (i < n)%nat /\ m = monthStart (k + Z.of_nat i).
Proof.
  revert k. induction n as [|n IH]; intros k; cbn [monthsFrom In].
  - split; [tauto | intros (i & Hi & _); lia].
  - rewrite IH. split.
    + intros [<- | (i & Hi & ->)].
      * exists 0%nat. split; [lia |]. change (Z.of_nat 0) with 0%Z.
        now rewrite Z.add_0_r.
      * exists (S i). split; [lia |]. f_equal. lia.
    + intros ([|i] & Hi & ->).
      * left. change (Z.of_nat 0) with 0%Z. now rewrite Z.add_0_r.
      * right. exists i. split; [lia |]. f_equal. lia.
Qed.

(** The loop of [getMonthsFromDate], started at the first day of month [k]
    with enough fuel, pushes the months [k], ..., [monthIndex now]. *)
Lemma monthsLoop_eq now n :
  forall k fuel months,
    Z.of_nat n = Z.max 0 (monthIndex now - k + 1) ->
    (n < fuel)%nat ->
    monthsLoop fuel (monthStart k) now months
    = Some (months ++ monthsFrom k n).
Proof.
  induction n as [|n IH]; intros k fuel months Hn Hfuel.
  - destruct fuel as [|fuel]; [lia |]. cbn [monthsLoop monthsFrom].
    destruct (Z.leb_spec (monthStart k) now) as [Hle | Hgt].
    + apply monthStart_le_iff in Hle. lia.
    + now rewrite app_nil_r.
  - destruct fuel as [|fuel]; [lia |]. cbn [monthsLoop].
    destruct (Z.leb_spec (monthStart k) now) as [Hle | Hgt].
    + rewrite setMonth_next_monthStart, IH by lia.
      cbn [monthsFrom]. now rewrite <- app_assoc.
    + assert (~ (k <= monthIndex now)%Z)
        by (rewrite <- monthStart_le_iff; lia).
      lia.
Qed.

Lemma monthsFuel_enough k now :
  (Z.to_nat (monthIndex now - k + 1) < monthsFuel (monthStart k) now)%nat.
Proof.
  unfold monthsFuel.
  destruct (Z.le_gt_cases k (monthIndex now)) as [Hle | Hgt]; [| lia].
  set (n := Z.to_nat (monthIndex now - k)).
  assert (Hn : (k + Z.of_nat n)%Z = monthIndex now) by lia.
  pose proof (monthStartDay_span k n) as Hspan. rewrite Hn in Hspan.
  destruct (monthIndex_spec now) as [Hlo _].
  assert (Hms : (monthStartDay (monthIndex now) * msPerDay <= now)%Z).
  { unfold Day in Hlo.
    pose proof (Z.div_mod now msPerDay ltac:(unfold msPerDay; lia)).
    pose proof (Z.mod_pos_bound now msPerDay ltac:(unfold msPerDay; lia)).
    unfold msPerDay in *. lia. }
  assert (Hdiv : (Z.of_nat n <= (now - monthStart k) / (28 * msPerDay))%Z).
  { apply Z.div_le_lower_bound; [unfold msPerDay; lia |].
    rewrite monthStart_eq. unfold msPerDay in *. lia. }
  lia.
Qed.

Lemma getMonthsFromDate_eq fromDate w :
  getMonthsFromDate fromDate w
  = (Returned
       (monthsFrom (monthIndex fromDate)
          (Z.to_nat (monthIndex (clock w (ticks w))
                     - monthIndex fromDate + 1))),
     tick w).
Proof.
  unfold getMonthsFromDate, bind, newDate.
  rewrite firstOfMonth_eq.
  rewrite (monthsLoop_eq (clock w (ticks w))
             (Z.to_nat (monthIndex (clock w (ticks w))
                        - monthIndex fromDate + 1))
             (monthIndex fromDate) _ []);
    [reflexivity | lia | apply monthsFuel_enough].
Qed.

(** ** The cascade over a list of months *)

Lemma sameInputs_refl w : sameInputs w w.
Proof. repeat split. Qed.

Lemma sameInputs_sym w w' : sameInputs w w' -> sameInputs w' w.
Proof. intros (H1 & H2 & H3). repeat split; congruence. Qed.

Lemma sameInputs_trans w1 w2 w3 :
  sameInputs w1 w2 -> sameInputs w2 w3 -> sameInputs w1 w3.
Proof. intros (H1 & H2 & H3) (H4 & H5 & H6). repeat split; congruence. Qed.

Lemma computed_sameInputs w w' k doc :
  sameInputs w w' -> computed w k doc -> computed w' k doc.
Proof.
  intros (Hu & Hi & Hp) (m & cd & at_ & Hk & Hc & Hd).
  exists m, cd, at_. now rewrite <- Hu, <- Hi, <- Hp.
Qed.

(** Two snapshots computed for the same month from the same inputs differ
    at most in [calculatedAt]. *)
Lemma computed_fieldsOf w k doc1 doc2 :
  computed w k doc1 -> computed w k doc2 -> fieldsOf doc1 = fieldsOf doc2.
Proof.
  intros (m1 & cd1 & at1 & Hk1 & Hc1 & ->) (m2 & cd2 & at2 & Hk2 & Hc2 & ->).
  assert (Hend : endOfMonth m1 = endOfMonth m2)
    by (apply same_month; congruence).
  rewrite Hend in Hc1. assert (cd1 = cd2) by congruence. subst cd2.
  unfold fieldsOf, snapshotOf. cbn. rewrite Hend. congruence.
Qed.

(** One calculation: its outcome, and its effect on the state. *)
Lemma calculateMonthlyReturns_step m w o w' :
  calculateMonthlyReturns m w = (o, w') ->
  (exists cd,
      corpusAt (users w) (investments w) (endOfMonth m) = Returned cd /\
      o = Returned tt /\
      w' = afterCalculation w
             (upsert (snapshotOf (platformInvestments w) m cd
                        (clock w (ticks w)))
                (monthlyReturns w)))
  \/ (exists e,
         corpusAt (users w) (investments w) (endOfMonth m) = Thrown e /\
         o = Thrown e /\ w' = w).
Proof.
  rewrite calculateMonthlyReturns_eq.
  destruct (corpusAt _ _ _) as [cd | e |] eqn:E; intros H;
    injection H as <- <-.
  - left. eauto.
  - right. eauto.
  - exfalso. unfold corpusAt in E.
    assert (Hnd : forall pis acc,
               forEach groupByClient pis acc <> Diverges).
    { induction pis as [|pi pis IH]; intros [cs tot]; [discriminate |].
      cbn [forEach]. unfold groupByClient at 1.
      destruct (snd pi); [apply IH | discriminate]. }
    destruct (forEach _ _ _) as [[cs tot] | e |] eqn:E'; try discriminate.
    now apply Hnd in E'.
Qed.

Lemma snapshotOf_month ps m cd at_ :
  MonthlyReturn.month (snapshotOf ps m cd at_) = startOfMonth m.
Proof. reflexivity. Qed.

Lemma snapshotOf_calculatedAt ps m cd at_ :
  MonthlyReturn.calculatedAt (snapshotOf ps m cd at_) = at_.
Proof. reflexivity. Qed.

(** What any run of the cascade over [months] preserves and produces,
    whatever its outcome. *)
Lemma forOf_calculate_any months :
  forall w o w',
    forOf months calculateMonthlyReturns w = (o, w') ->
    sameInputs w w' /\ clock w' = clock w /\
    weeklyPlatformData w' = weeklyPlatformData w /\
    o <> Diverges /\
    forall k,
      findMonth k (monthlyReturns w') = findMonth k (monthlyReturns w)
      \/ exists doc,
           findMonth k (monthlyReturns w') = Some doc /\ computed w k doc /\
           exists m, In m months /\ startOfMonth m = k.
Proof.
  induction months as [|m months IH]; intros w o w' H.
  - injection H as <- <-. repeat split; try discriminate. now left.
  - cbn [forOf] in H. unfold bind in H.
    destruct (calculateMonthlyReturns m w) as [o1 w1] eqn:E1.
    destruct (calculateMonthlyReturns_step _ _ _ _ E1)
      as [(cd & Hcd & -> & Hw1) | (e & He & -> & ->)].
    + destruct (IH _ _ _ H) as (Hs & Hc & Hwk & Hnd & Hfind).
      assert (Hs1 : sameInputs w w1) by (subst w1; repeat split).
      split; [exact (sameInputs_trans _ _ _ Hs1 Hs) |].
      split; [rewrite Hc; now subst w1 |].
      split; [rewrite Hwk; now subst w1 |].
      split; [exact Hnd |].
      intros k. destruct (Hfind k) as [Hsame | (doc & Hdoc & Hcomp & m' & Hin & Hk)].
      * rewrite Hsame. subst w1. cbn [afterCalculation monthlyReturns].
        destruct (Z.eq_dec (startOfMonth m) k) as [Ek | Nk].
        -- right. eexists. split.
           ++ rewrite <- Ek, <- (snapshotOf_month (platformInvestments w) m cd
                                   (clock w (ticks w))).
              apply findMonth_upsert.
           ++ split; [exists m, cd, (clock w (ticks w)); auto |].
              exists m. split; [now left | exact Ek].
        -- left. apply findMonth_upsert_other. exact Nk.
      * right. exists doc. split; [exact Hdoc |].
        split; [exact (computed_sameInputs _ _ _ _ (sameInputs_sym _ _ Hs1) Hcomp) |].
        exists m'. split; [now right | exact Hk].
    + injection H as <- <-. repeat split; try discriminate. now left.
Qed.

(** The cascade returns exactly when the corpus of every month resolves;
    then it has read the clock once per month and stored a snapshot of every
    month. *)
Lemma forOf_calculate_returns months :
  forall w o w',
    forOf months calculateMonthlyReturns w = (o, w') ->
    (o = Returned tt <->
     Forall (fun m => exists cd,
                 corpusAt (users w) (investments w) (endOfMonth m)
                 = Returned cd) months) /\
    (o = Returned tt ->
     ticks w' = (ticks w + length months)%nat /\
     forall m, In m months ->
       exists doc,
         findMonth (startOfMonth m) (monthlyReturns w') = Some doc /\
         computed w (startOfMonth m) doc).
Proof.
  induction months as [|m months IH]; intros w o w' H.
  - injection H as <- <-. split; [split; auto |].
    intros _. split; [cbn; lia | intros m []].
  - cbn [forOf] in H. unfold bind in H.
    destruct (calculateMonthlyReturns m w) as [o1 w1] eqn:E1.
    destruct (calculateMonthlyReturns_step _ _ _ _ E1)
      as [(cd & Hcd & -> & Hw1) | (e & He & -> & ->)].
    + assert (Hs1 : sameInputs w w1) by (subst w1; repeat split).
      assert (Hu : users w1 = users w /\ investments w1 = investments w)
        by (subst w1; split; reflexivity).
      destruct Hu as [Hu Hi].
      destruct (IH _ _ _ H) as (Hiff & Hret). rewrite Hu, Hi in Hiff.
      split.
      * rewrite Hiff. split.
        -- intros HF. constructor; eauto.
        -- intros HF. now inversion HF.
      * intros Ho. destruct (Hret Ho) as (Ht & Hdocs).
        split; [rewrite Ht; subst w1; cbn; lia |].
        intros m' [<- | Hin].
        -- destruct (forOf_calculate_any _ _ _ _ H) as (_ & _ & _ & _ & Hfind).
           destruct (Hfind (startOfMonth m))
             as [Hsame | (doc & Hdoc & Hcomp & _)].
           ++ eexists. split.
              ** rewrite Hsame. subst w1.
                 cbn [afterCalculation monthlyReturns].
                 rewrite <- (snapshotOf_month (platformInvestments w) m cd
                               (clock w (ticks w))) at 1.
                 apply findMonth_upsert.
              ** exists m, cd, (clock w (ticks w)). auto.
           ++ exists doc. split; [exact Hdoc |].
              exact (computed_sameInputs _ _ _ _ (sameInputs_sym _ _ Hs1) Hcomp).
        -- destruct (Hdocs m' Hin) as (doc & Hdoc & Hcomp).
           exists doc. split; [exact Hdoc |].
           exact (computed_sameInputs _ _ _ _ (sameInputs_sym _ _ Hs1) Hcomp).
    + injection H as <- <-. split.
      * split; [discriminate |]. intros HF. inversion HF as [| ? ? (cd & Hcd) _].
        congruence.
      * discriminate.
Qed.

Lemma startOfMonth_monthStart k : startOfMonth (monthStart k) = monthStart k.
Proof. now rewrite startOfMonth_eq, monthIndex_monthStart. Qed.

Lemma monthsFrom_seq k n :
  monthsFrom k n = map (fun i => monthStart (k + Z.of_nat i)) (seq 0 n).
Proof.
  revert k. induction n as [|n IH]; intros k; [reflexivity |].
  cbn [monthsFrom seq map]. rewrite IH, <- seq_shift, map_map.
  f_equal.
  - f_equal. lia.
  - apply map_ext. intros i. f_equal. lia.
Qed.

Lemma NoDup_monthsFrom k n : NoDup (map startOfMonth (monthsFrom k n)).
Proof.
  revert k. induction n as [|n IH]; intros k; cbn [monthsFrom map].
  - constructor.
  - constructor; [| apply IH].
    rewrite in_map_iff. intros (m & Hm & Hin).
    apply In_monthsFrom in Hin. destruct Hin as (i & _ & ->).
    rewrite !startOfMonth_monthStart in Hm.
    apply monthStart_inj in Hm. lia.
Qed.

Lemma selected_active date inv :
  selected date inv = true -> Investment.isActive inv = true.
Proof. unfold selected. now rewrite andb_true_iff. Qed.

Lemma allClientsResolve_at w date :
  allClientsResolve w = true -> clientsResolve date w = true.
Proof.
  unfold allClientsResolve, clientsResolve. rewrite !forallb_forall.
  intros H inv Hin. apply H. apply filter_In in Hin. apply filter_In.
  destruct Hin as [Hin Hsel]. split; [exact Hin |].
  exact (selected_active _ _ Hsel).
Qed.

(** With distinct months, the snapshot of the i-th month carries the i-th
    clock reading of the run. *)
Lemma forOf_calculate_times months :
  forall w w',
    NoDup (map startOfMonth months) ->
    forOf months calculateMonthlyReturns w = (Returned tt, w') ->
    forall i m,
      nth_error months i = Some m ->
      exists doc,
        findMonth (startOfMonth m) (monthlyReturns w') = Some doc /\
        MonthlyReturn.calculatedAt doc = clock w (ticks w + i).
Proof.
  induction months as [|m0 months IH]; intros w w' Hnd H i m Hi.
  - destruct i; discriminate.
  - cbn [forOf] in H. unfold bind in H.
    destruct (calculateMonthlyReturns m0 w) as [o1 w1] eqn:E1.
    destruct (calculateMonthlyReturns_step _ _ _ _ E1)
      as [(cd & Hcd & -> & Hw1) | (e & He & -> & ->)]; [| discriminate].
    cbn [map] in Hnd. inversion Hnd as [| ? ? Hnot Hnd']; subst.
    destruct i as [|i].
    + injection Hi as <-.
      destruct (forOf_calculate_any _ _ _ _ H) as (_ & _ & _ & _ & Hfind).
      destruct (Hfind (startOfMonth m0)) as [Hsame | (_ & _ & _ & m' & Hin & Hk)].
      * eexists. split.
        -- rewrite Hsame. cbn [afterCalculation monthlyReturns].
           rewrite <- (snapshotOf_month (platformInvestments w) m0 cd
                         (clock w (ticks w))) at 1.
           apply findMonth_upsert.
        -- rewrite snapshotOf_calculatedAt. f_equal. lia.
      * exfalso. apply Hnot. rewrite <- Hk. now apply in_map.
    + destruct (IH _ _ Hnd' H i m Hi) as (doc & Hdoc & Hat).
      exists doc. split; [exact Hdoc |].
      rewrite Hat. cbn [afterCalculation clock ticks]. f_equal. lia.
Qed.

Lemma recalculateFromDate_eq fromDate w :
  recalculateFromDate fromDate w
  = let months :=
      monthsFrom (monthIndex fromDate)
        (Z.to_nat (monthIndex (clock w (ticks w))
                   - monthIndex fromDate + 1)) in
    match forOf months calculateMonthlyReturns (tick w) with
    | (Returned _, w') => (Returned (mkResult true (length months)), w')
    | (Thrown e, w') => (Thrown e, w')
    | (Diverges, w') => (Diverges, w')
    end.
Proof.
  unfold recalculateFromDate. unfold bind at 1.
  rewrite getMonthsFromDate_eq. cbv zeta. unfold bind at 1.
  destruct (forOf _ _ _) as [[[] | e |] w']; reflexivity.
Qed.

Lemma forOf_calculate_resolved months w :
  allClientsResolve w = true ->
  exists w', forOf months calculateMonthlyReturns w = (Returned tt, w').
Proof.
  intros Hres.
  destruct (forOf months calculateMonthlyReturns w) as [o w'] eqn:E.
  destruct (forOf_calculate_returns _ _ _ _ E) as [Hiff _].
  exists w'. f_equal. apply Hiff. apply Forall_forall. intros m _.
  apply corpusAt_resolved. now apply allClientsResolve_at.
Qed.

(** ** The users only provide names *)

Lemma lookupClient_unnamed cs1 cs2 id :
  unnamed cs1 = unnamed cs2 ->
  (lookupClient cs1 id = None <-> lookupClient cs2 id = None).
Proof.
  intros H. rewrite !lookupClient_None. unfold ids, unnamed in *.
  assert (E : map ClientInvestment.clientId cs1
              = map ClientInvestment.clientId cs2).
  { apply (f_equal (map fst)) in H. rewrite !map_map in H. exact H. }
  now rewrite E.
Qed.

Lemma addToClient_unnamed cs1 cs2 id a :
  unnamed cs1 = unnamed cs2 ->
  unnamed (addToClient cs1 id a) = unnamed (addToClient cs2 id a).
Proof.
  revert cs2. induction cs1 as [|c1 cs1 IH]; intros [|c2 cs2] H;
    try discriminate; [reflexivity |].
  cbn [unnamed map] in H. injection H as Hid Htot Hrest.
  cbn [addToClient]. rewrite Hid.
  destruct (N.eqb (ClientInvestment.clientId c2) id);
    cbn [unnamed map ClientInvestment.clientId
           ClientInvestment.totalInvestment];
    rewrite ?Hid, ?Htot; f_equal; [exact Hrest | apply IH; exact Hrest].
Qed.

Lemma forEach_groupByClient_users us1 us2 invs :
  forall cs1 cs2 tot cs1' cs2' tot1 tot2,
    unnamed cs1 = unnamed cs2 ->
    forEach groupByClient (map (populate us1) invs) (cs1, tot)
    = Returned (cs1', tot1) ->
    forEach groupByClient (map (populate us2) invs) (cs2, tot)
    = Returned (cs2', tot2) ->
    unnamed cs1' = unnamed cs2' /\ tot1 = tot2.
Proof.
  induction invs as [|inv invs IH]; intros cs1 cs2 tot cs1' cs2' tot1 tot2 Hcs H1 H2.
  - cbn in H1, H2. injection H1 as <- <-. injection H2 as <- <-. auto.
  - cbn [map forEach] in H1, H2. unfold groupByClient at 1 in H1.
    unfold groupByClient at 1 in H2. unfold populate at 1 in H1.
    unfold populate at 1 in H2. cbn [snd fst] in H1, H2.
    destruct (find _ us1) as [u1 |] eqn:E1; [| discriminate].
    destruct (find _ us2) as [u2 |] eqn:E2; [| discriminate].
    apply find_some in E1, E2. destruct E1 as [_ E1], E2 as [_ E2].
    apply N.eqb_eq in E1, E2.
    rewrite E1 in H1. rewrite E2 in H2.
    refine (IH _ _ _ _ _ _ _ _ H1 H2).
    apply addToClient_unnamed.
    pose proof (lookupClient_unnamed _ _ (Investment.clientId inv) Hcs) as Hl.
    destruct (lookupClient cs1 (Investment.clientId inv)) eqn:L1,
             (lookupClient cs2 (Investment.clientId inv)) eqn:L2.
    + exact Hcs.
    + destruct Hl as [_ Hl]. discriminate (Hl eq_refl).
    + destruct Hl as [Hl _]. discriminate (Hl eq_refl).
    + unfold unnamed in *. rewrite !map_app, Hcs. reflexivity.
Qed.

Lemma withShare_unnamed pct tot cs1 cs2 :
  unnamed cs1 = unnamed cs2 ->
  map (clientReturnOf pct) (map (withShare tot) cs1)
  = map (clientReturnOf pct) (map (withShare tot) cs2).
Proof.
  revert cs2. induction cs1 as [|c1 cs1 IH]; intros [|c2 cs2] H;
    try discriminate; [reflexivity |].
  cbn [unnamed map] in H. injection H as Hid Htot Hrest.
  cbn [map]. f_equal; [| now apply IH].
  unfold clientReturnOf, withShare. cbn. now rewrite Hid, Htot.
Qed.

(** The snapshots computed from the same investments and platform
    investments, with whatever users, have the same fields. *)
Lemma corpusAt_users us1 us2 invs ps monthDate cd1 cd2 at1 at2 :
  corpusAt us1 invs (endOfMonth monthDate) = Returned cd1 ->
  corpusAt us2 invs (endOfMonth monthDate) = Returned cd2 ->
  fieldsOf (snapshotOf ps monthDate cd1 at1)
  = fieldsOf (snapshotOf ps monthDate cd2 at2).
Proof.
  unfold corpusAt. intros H1 H2.
  destruct (forEach _ (map (populate us1) _) _) as [[cs1 tot1] | |] eqn:E1;
    try discriminate.
  destruct (forEach _ (map (populate us2) _) _) as [[cs2 tot2] | |] eqn:E2;
    try discriminate.
  injection H1 as <-. injection H2 as <-.
  destruct (forEach_groupByClient_users _ _ _ _ _ _ _ _ _ _ eq_refl E1 E2)
    as [Hcs <-].
  unfold fieldsOf, snapshotOf. cbn.
  now rewrite (withShare_unnamed _ _ _ _ Hcs).
Qed.

(** ** The monthly calculation and the cascade *)


(** C4. After [calculateMonthlyReturns], the stored snapshot of the month
    holds, for each client share of the corpus resolved at the end of the
    month and in the same order, a return with
    [investmentShare = totalInvestment],
    [returnAmount = investmentShare * returnPct / 100] and
    [closingBalance = investmentShare + returnAmount]; the same client
    returns are stored whatever monthly returns were stored before. *)
Theorem calculateClientReturns_spec (w : World) (monthDate : Date) :
  clientsResolve (endOfMonth monthDate) w = true ->
  exists cd doc w',
    getCorpusAtDate (endOfMonth monthDate) w = (Returned cd, w) /\
    calculateMonthlyReturns monthDate w = (Returned tt, w') /\
    findMonth (startOfMonth monthDate) (monthlyReturns w') = Some doc /\
    Forall2 (returnFor (MonthlyReturn.monthlyReturnPercentage doc))
      (clientShares cd) (MonthlyReturn.clientReturns doc) /\
    forall previous o w'',
      calculateMonthlyReturns monthDate (withMonthlyReturns w previous)
      = (o, w'') ->
      o = Returned tt /\
      option_map MonthlyReturn.clientReturns
        (findMonth (startOfMonth monthDate) (monthlyReturns w''))
      = Some (MonthlyReturn.clientReturns doc).
Proof.
  intros Hres. destruct (corpusAt_resolved _ _ Hres) as (cd & Hcd).
  set (doc := snapshotOf (platformInvestments w) monthDate cd
                (clock w (ticks w))).
  exists cd, doc, (afterCalculation w (upsert doc (monthlyReturns w))).
  split; [now rewrite getCorpusAtDate_eq, Hcd |].
  split; [now rewrite calculateMonthlyReturns_eq, Hcd |].
  split; [apply (findMonth_upsert doc) |].
  split.
  - unfold doc, snapshotOf. cbn [MonthlyReturn.monthlyReturnPercentage
                                   MonthlyReturn.clientReturns].
    induction (clientShares cd) as [|s ss IH]; constructor; [| exact IH].
    unfold returnFor, clientReturnOf. cbn. repeat split; try reflexivity.
    unfold Qdiv. ring.
  - intros previous o w'' H. rewrite calculateMonthlyReturns_eq in H.
    cbn [withMonthlyReturns users investments platformInvestments clock
           ticks monthlyReturns] in H.
    rewrite Hcd in H. injection H as <- <-. split; [reflexivity |].
    cbn [afterCalculation monthlyReturns]. fold doc.
    now rewrite (findMonth_upsert doc).
Qed.

(** C6. The investment shares of the stored snapshot of a month add up to
    its [totalCorpus]. *)
Theorem snapshot_conservation (w : World) (monthDate : Date) :
  clientsResolve (endOfMonth monthDate) w = true ->
  exists doc w',
    calculateMonthlyReturns monthDate w = (Returned tt, w') /\
    findMonth (startOfMonth monthDate) (monthlyReturns w') = Some doc /\
    sumQ (map MonthlyReturn.investmentShare (MonthlyReturn.clientReturns doc))
    == MonthlyReturn.totalCorpus doc.
Proof.
  intros Hres.
  destruct (forEach_groupByClient _ (populated_resolved _ w Hres) [] 0)
    as (cs & tot & Hrun & Htot & Hsum & _).
  rewrite map_fst_populate in Htot, Hsum.
  set (cd := mkCorpusData (orZero tot) (map (withShare tot) cs)).
  assert (Hcd : corpusAt (users w) (investments w) (endOfMonth monthDate)
                = Returned cd) by (unfold corpusAt; now rewrite Hrun).
  set (doc := snapshotOf (platformInvestments w) monthDate cd
                (clock w (ticks w))).
  exists doc, (afterCalculation w (upsert doc (monthlyReturns w))).
  split; [now rewrite calculateMonthlyReturns_eq, Hcd |].
  split; [apply (findMonth_upsert doc) |].
  unfold doc, snapshotOf, cd.
  cbn [MonthlyReturn.clientReturns MonthlyReturn.totalCorpus totalCorpus
         clientShares].
  rewrite !map_map. cbn [clientReturnOf MonthlyReturn.investmentShare
                           withShare ClientShare.totalInvestment].
  fold (totals cs). rewrite orZero_eq, Htot, Hsum. cbn. ring.
Qed.

(** ** A client that does not exist *)

Lemma forEach_unresolved pis :
  (exists pi, In pi pis /\ snd pi = None) ->
  forall acc, forEach groupByClient pis acc = Thrown TypeError.
Proof.
  induction pis as [|pi pis IH]; intros (pi0 & Hin & Hnone) [cs tot].
  - destruct Hin.
  - cbn [forEach]. unfold groupByClient at 1.
    destruct (snd pi) as [u |] eqn:E; [| reflexivity].
    apply IH. exists pi0. split; [| exact Hnone].
    destruct Hin as [-> | Hin]; [congruence | exact Hin].
Qed.

Lemma populate_None us inv :
  snd (populate us inv) = None <-> hasUser us inv = false.
Proof.
  unfold populate, hasUser. cbn [snd]. split.
  - intros H. apply not_true_is_false. intros Hex.
    apply existsb_exists in Hex. destruct Hex as (u & Hin & Hu).
    apply (find_none _ _ H) in Hin. congruence.
  - intros H. destruct (find _ us) as [u |] eqn:E; [| reflexivity].
    apply find_some in E. destruct E as [Hin Hu].
    assert (existsb (fun u => N.eqb (User._id u) (Investment.clientId inv)) us
            = true) by (apply existsb_exists; eauto).
    congruence.
Qed.

Lemma clientsResolve_false date w :
  clientsResolve date w = false <->
  exists inv,
    In inv (investments w) /\ selected date inv = true /\
    hasUser (users w) inv = false.
Proof.
  unfold clientsResolve. split.
  - intros H.
    destruct (forallb (hasUser (users w))
                (filter (selected date) (investments w))) eqn:E;
      [discriminate |].
    clear H. induction (investments w) as [|inv invs IH]; [discriminate |].
    cbn [filter] in E. destruct (selected date inv) eqn:Hs.
    + cbn [forallb] in E. destruct (hasUser (users w) inv) eqn:Hu.
      * destruct (IH E) as (inv' & Hin & H1 & H2).
        exists inv'. split; [now right | auto].
      * exists inv. split; [now left | auto].
    + destruct (IH E) as (inv' & Hin & H1 & H2).
      exists inv'. split; [now right | auto].
  - intros (inv & Hin & Hs & Hu). apply not_true_is_false. intros H.
    rewrite forallb_forall in H.
    rewrite (H inv) in Hu; [discriminate |]. apply filter_In. auto.
Qed.

(** C7, as the code has it.  [getCorpusAtDate] throws a [TypeError], and
    returns no result, exactly when some selected investment (active and
    dated no later than the cutoff) references a client that does not
    exist; the investments that are not selected are never looked at. *)
Theorem getCorpusAtDate_missing_client (w : World) (date : Date) :
  getCorpusAtDate date w = (Thrown TypeError, w) <->
  exists inv,
    In inv (investments w) /\
    Investment.status inv = Investment.active /\
    (Investment.investmentDate inv <= date)%Z /\
    hasUser (users w) inv = false.
Proof.
  split.
  - intros H. destruct (clientsResolve date w) eqn:E.
    + destruct (corpusAt_resolved _ _ E) as (cd & Hcd).
      rewrite getCorpusAtDate_eq, Hcd in H. discriminate.
    + apply clientsResolve_false in E. destruct E as (inv & Hin & Hs & Hu).
      apply selected_iff in Hs. exists inv. tauto.
  - intros (inv & Hin & Hact & Hdate & Hu).
    rewrite getCorpusAtDate_eq. unfold corpusAt.
    rewrite forEach_unresolved; [reflexivity |].
    exists (populate (users w) inv). split.
    + apply in_map, filter_In. split; [exact Hin |].
      apply selected_iff. auto.
    + now apply populate_None.
Qed.

(** C7 fails as stated: the ledger of [danglingWorld] has a deposit of a
    client that does not exist next to deposits of existing clients, and the
    corpus computation throws instead of returning a result for the
    others. *)
Lemma missing_client_not_skipped :
  hasUser (users danglingWorld)
    (Investment.mk 3 250 1705104000000 Investment.deposit Investment.active)
  = false /\
  (exists inv, In inv (investments danglingWorld)
               /\ hasUser (users danglingWorld) inv = true) /\
  ~ exists cd w',
      getCorpusAtDate 1706659200000 danglingWorld = (Returned cd, w').
Proof.
  split; [reflexivity |]. split.
  - eexists. split; [left; reflexivity | reflexivity].
  - intros (cd & w' & H).
    assert (E : fst (getCorpusAtDate 1706659200000 danglingWorld)
                = Thrown TypeError) by (vm_compute; reflexivity).
    rewrite H in E. discriminate.
Qed.

(** ** The pre-derived return percentage *)


(** ** Repeating and reordering the cascade *)

Lemma recalculateFromDate_run fromDate w o w' :
  recalculateFromDate fromDate w = (o, w') ->
  let months :=
    monthsFrom (monthIndex fromDate)
      (Z.to_nat (monthIndex (clock w (ticks w)) - monthIndex fromDate + 1)) in
  exists o',
    forOf months calculateMonthlyReturns (tick w) = (o', w') /\
    (o' = Returned tt <-> exists r, o = Returned r) /\
    (forall r, o = Returned r -> monthsRecalculated r = length months).
Proof.
  rewrite recalculateFromDate_eq. cbv zeta.
  destruct (forOf _ _ _) as [[[] | e |] w1] eqn:E; intros H;
    injection H as <- <-; eexists; (split; [reflexivity |]); split;
    try (split; [eauto | reflexivity]);
    try (split; [discriminate | intros (r & Hr); discriminate]);
    try (intros r Hr; congruence).
  intros r Hr. injection Hr as <-. reflexivity.
Qed.

(** C9, as the code has it.  When [recalculateFromDate] has returned, a
    second call from the same date on the resulting state leaves every month
    that the first call recalculated with a stored snapshot that has the same
    fields, [calculatedAt] excepted; the ledger and the platform investments
    are the same after both calls. *)
Theorem recalculate_twice_same_fields (w : World) (fromDate : Date)
  (r : RecalculationResult) (w1 : World) (o : Outcome RecalculationResult)
  (w2 : World) :
  recalculateFromDate fromDate w = (Returned r, w1) ->
  recalculateFromDate fromDate w1 = (o, w2) ->
  sameInputs w w1 /\ sameInputs w1 w2 /\
  forall month,
    In month (monthsFrom (monthIndex fromDate) (monthsRecalculated r)) ->
    exists doc1 doc2,
      findMonth month (monthlyReturns w1) = Some doc1 /\
      findMonth month (monthlyReturns w2) = Some doc2 /\
      fieldsOf doc1 = fieldsOf doc2.
Proof.
  intros H1 H2.
  destruct (recalculateFromDate_run _ _ _ _ H1) as (o1 & Hrun1 & Hok1 & Hlen1).
  destruct (recalculateFromDate_run _ _ _ _ H2) as (o2 & Hrun2 & _ & _).
  assert (Ho1 : o1 = Returned tt) by (apply Hok1; eauto).
  subst o1. rewrite (Hlen1 r eq_refl), length_monthsFrom.
  destruct (forOf_calculate_any _ _ _ _ Hrun1) as (Hs1 & _).
  destruct (forOf_calculate_any _ _ _ _ Hrun2) as (Hs2 & _ & _ & _ & Hfind2).
  destruct (forOf_calculate_returns _ _ _ _ Hrun1) as (_ & Hret1).
  destruct (Hret1 eq_refl) as (_ & Hdocs1).
  assert (Hw1 : sameInputs w w1)
    by (apply (sameInputs_trans _ (tick w)); [repeat split | exact Hs1]).
  assert (Hw2 : sameInputs w1 w2)
    by (apply (sameInputs_trans _ (tick w1)); [repeat split | exact Hs2]).
  split; [exact Hw1 |]. split; [exact Hw2 |].
  intros month Hin.
  destruct (Hdocs1 month Hin) as (doc1 & Hdoc1 & Hcomp1).
  assert (Hmonth : startOfMonth month = month).
  { apply In_monthsFrom in Hin. destruct Hin as (i & _ & ->).
    apply startOfMonth_monthStart. }
  rewrite Hmonth in Hdoc1, Hcomp1.
  exists doc1.
  destruct (Hfind2 month) as [Hsame | (doc2 & Hdoc2 & Hcomp2 & _)].
  - exists doc1. cbn [tick monthlyReturns] in Hsame. rewrite Hsame. auto.
  - exists doc2. split; [exact Hdoc1 |]. split; [exact Hdoc2 |].
    apply (computed_fieldsOf (tick w1) month).
    + apply (computed_sameInputs (tick w)); [| exact Hcomp1].
      apply (sameInputs_trans _ w1); [| repeat split].
      apply (sameInputs_trans _ w); [repeat split | exact Hw1].
    + exact Hcomp2.
Qed.

(** C9 fails as stated: on the sample ledger, whose clock advances between
    the readings, the second of two consecutive calls stores snapshots that
    differ from those of the first (in [calculatedAt]). *)
Lemma recalculate_twice_not_identical :
  let w1 := snd (recalculateFromDate 1704844800000 sampleWorld) in
  let w2 := snd (recalculateFromDate 1704844800000 w1) in
  users w2 = users w1 /\ investments w2 = investments w1 /\
  platformInvestments w2 = platformInvestments w1 /\
  monthlyReturns w2 <> monthlyReturns w1.
Proof.
  cbv zeta. split; [vm_compute; reflexivity |].
  split; [vm_compute; reflexivity |]. split; [vm_compute; reflexivity |].
  intros H. apply (f_equal (map MonthlyReturn.calculatedAt)) in H.
  vm_compute in H. discriminate.
Qed.

(** C10. The snapshot that [calculateMonthlyReturns] stores for a month has
    the same fields, [calculatedAt] excepted, in two states with the same
    investments and platform investments, whatever monthly returns (and
    users, weekly data and clock) they hold; with the same users the call
    also has the same outcome in both; hence two cascades from one state
    over the same months in different orders both return or both fail, and
    when they return the stored snapshot of every month has the same fields
    in both. *)
Theorem monthly_snapshot_noninterference :
  (forall w1 w2 monthDate w1' w2',
      investments w1 = investments w2 ->
      platformInvestments w1 = platformInvestments w2 ->
      calculateMonthlyReturns monthDate w1 = (Returned tt, w1') ->
      calculateMonthlyReturns monthDate w2 = (Returned tt, w2') ->
      exists doc1 doc2,
        findMonth (startOfMonth monthDate) (monthlyReturns w1') = Some doc1 /\
        findMonth (startOfMonth monthDate) (monthlyReturns w2') = Some doc2 /\
        fieldsOf doc1 = fieldsOf doc2) /\
  (forall w1 w2 monthDate,
      sameInputs w1 w2 ->
      fst (calculateMonthlyReturns monthDate w1)
      = fst (calculateMonthlyReturns monthDate w2)) /\
  (forall w months1 months2 o1 o2 w1 w2,
      Permutation months1 months2 ->
      forOf months1 calculateMonthlyReturns w = (o1, w1) ->
      forOf months2 calculateMonthlyReturns w = (o2, w2) ->
      (o1 = Returned tt <-> o2 = Returned tt) /\
      (o1 = Returned tt ->
       forall month,
         option_map fieldsOf (findMonth month (monthlyReturns w1))
         = option_map fieldsOf (findMonth month (monthlyReturns w2)))).
Proof.
  split; [| split].
  - intros w1 w2 m w1' w2' Hi Hp H1 H2.
    rewrite calculateMonthlyReturns_eq in H1, H2.
    destruct (corpusAt (users w1) _ _) as [cd1 | e |] eqn:E1;
      try discriminate.
    destruct (corpusAt (users w2) _ _) as [cd2 | e |] eqn:E2;
      try discriminate.
    injection H1 as <-. injection H2 as <-.
    eexists _, _. cbn [afterCalculation monthlyReturns].
    split; [apply (findMonth_upsert (snapshotOf _ m cd1 _)) |].
    split; [apply (findMonth_upsert (snapshotOf _ m cd2 _)) |].
    rewrite Hi in E1. rewrite Hp.
    exact (corpusAt_users _ _ _ _ _ _ _ _ _ E1 E2).
  - intros w1 w2 m (Hu & Hi & Hp).
    rewrite !calculateMonthlyReturns_eq, Hu, Hi.
    destruct (corpusAt _ _ _); reflexivity.
  - intros w l1 l2 o1 o2 w1 w2 Hperm H1 H2.
    destruct (forOf_calculate_returns _ _ _ _ H1) as (Hiff1 & Hret1).
    destruct (forOf_calculate_returns _ _ _ _ H2) as (Hiff2 & Hret2).
    assert (Hboth : o1 = Returned tt <-> o2 = Returned tt).
    { rewrite Hiff1, Hiff2. split; intros HF.
      - exact (Permutation_Forall Hperm HF).
      - exact (Permutation_Forall (Permutation_sym Hperm) HF). }
    split; [exact Hboth |].
    intros Ho1 month. pose proof (proj1 Hboth Ho1) as Ho2.
    destruct (Hret1 Ho1) as (_ & Hdocs1).
    destruct (Hret2 Ho2) as (_ & Hdocs2).
    destruct (forOf_calculate_any _ _ _ _ H1) as (_ & _ & _ & _ & Hf1).
    destruct (forOf_calculate_any _ _ _ _ H2) as (_ & _ & _ & _ & Hf2).
    assert (Hwritten : forall m, In m l1 -> startOfMonth m = month ->
              option_map fieldsOf (findMonth month (monthlyReturns w1))
              = option_map fieldsOf (findMonth month (monthlyReturns w2))).
    { intros m Hin <-.
      destruct (Hdocs1 m Hin) as (d1 & -> & Hc1).
      destruct (Hdocs2 m (Permutation_in _ Hperm Hin)) as (d2 & -> & Hc2).
      cbn [option_map]. f_equal. exact (computed_fieldsOf _ _ _ _ Hc1 Hc2). }
    destruct (Hf1 month) as [Hs1 | (_ & _ & _ & m & Hin & Hk)];
      [| exact (Hwritten m Hin Hk)].
    destruct (Hf2 month) as [Hs2 | (_ & _ & _ & m & Hin & Hk)];
      [now rewrite Hs1, Hs2 |].
    exact (Hwritten m (Permutation_in _ (Permutation_sym Hperm) Hin) Hk).
Qed.

(** ** The weekly interpolator *)

Lemma leastBy_None {A} (key : A -> Z) xs : leastBy key xs = None <-> xs = [].
Proof.
  destruct xs as [|x xs]; [tauto |]. cbn [leastBy].
  destruct (leastBy key xs) as [y |]; [destruct (key y <? key x)%Z |];
    split; discriminate.
Qed.

Lemma leastBy_Some {A} (key : A -> Z) xs x :
  leastBy key xs = Some x ->
  In x xs /\ forall y, In y xs -> (key x <= key y)%Z.
Proof.
  revert x. induction xs as [|x0 xs IH]; intros x H; [discriminate |].
  cbn [leastBy] in H. destruct (leastBy key xs) as [y |] eqn:E.
  - destruct (IH y eq_refl) as [Hin Hmin].
    destruct (Z.ltb_spec (key y) (key x0)); injection H as <-.
    + split; [now right |]. intros z [<- | Hz]; [lia | now apply Hmin].
    + split; [now left |]. intros z [<- | Hz]; [lia |].
      specialize (Hmin z Hz). lia.
  - injection H as <-. apply leastBy_None in E. subst xs.
    split; [now left |]. intros z [<- | []]. lia.
Qed.

(** A candidate whose key is strictly least is the one found. *)
Lemma leastBy_unique {A} (key : A -> Z) xs x :
  In x xs -> (forall y, In y xs -> y = x \/ (key x < key y)%Z) ->
  leastBy key xs = Some x.
Proof.
  intros Hin Hmin. destruct (leastBy key xs) as [y |] eqn:E.
  - destruct (leastBy_Some _ _ _ E) as [Hy Hle].
    destruct (Hmin y Hy) as [-> | Hlt]; [reflexivity |].
    specialize (Hle x Hin). lia.
  - apply leastBy_None in E. subst xs. destruct Hin.
Qed.

Lemma Qceiling_unique (x : Q) (z : Z) :
  inject_Z (z - 1) < x -> x <= inject_Z z -> Qceiling x = z.
Proof.
  intros Hlo Hhi.
  pose proof (Qle_ceiling x) as H1. pose proof (Qceiling_lt x) as H2.
  assert (Ha : (Qceiling x - 1 < z)%Z).
  { rewrite Zlt_Qlt. apply (Qlt_le_trans _ x); assumption. }
  assert (Hb : (z - 1 < Qceiling x)%Z).
  { rewrite Zlt_Qlt. apply (Qlt_le_trans _ x); assumption. }
  lia.
Qed.

Lemma inject_Z_pos (m : Z) : (0 < m)%Z -> 0 < inject_Z m.
Proof. intros H. unfold Qlt. cbn. lia. Qed.

Lemma Qceiling_quotient (x m q : Z) :
  (0 < m)%Z -> (m * q < x <= m * (q + 1))%Z ->
  Qceiling (inject_Z x / inject_Z m) = (q + 1)%Z.
Proof.
  intros Hm [Hlo Hhi].
  assert (Hm' : 0 < inject_Z m) by (apply inject_Z_pos; exact Hm).
  apply Qceiling_unique.
  - apply Qlt_shift_div_l; [exact Hm' |].
    rewrite <- inject_Z_mult, <- Zlt_Qlt. lia.
  - apply Qle_shift_div_r; [exact Hm' |].
    rewrite <- inject_Z_mult, <- Zle_Qle. lia.
Qed.

Lemma Qceiling_positive (x m : Z) :
  (0 < m)%Z -> (0 < x)%Z -> (1 <= Qceiling (inject_Z x / inject_Z m))%Z.
Proof.
  intros Hm Hx.
  assert (Hm' : 0 < inject_Z m) by (apply inject_Z_pos; exact Hm).
  assert (H : 0 < inject_Z x / inject_Z m).
  { apply Qlt_shift_div_l; [exact Hm' |]. rewrite Qmult_0_l.
    apply inject_Z_pos. exact Hx. }
  pose proof (Qle_ceiling (inject_Z x / inject_Z m)) as Hc.
  assert (H0 : 0 < inject_Z (Qceiling (inject_Z x / inject_Z m)))
    by (apply (Qlt_le_trans _ _ _ H Hc)).
  unfold Qlt in H0. cbn in H0. lia.
Qed.

Lemma findBefore_eq p c w :
  findBefore p c w = (Returned (nearestBefore p c (weeklyPlatformData w)), w).
Proof. reflexivity. Qed.

Lemma findAfter_eq p c w :
  findAfter p c w = (Returned (nearestAfter p c (weeklyPlatformData w)), w).
Proof. reflexivity. Qed.

Lemma nearestBefore_Some p c ws b :
  nearestBefore p c ws = Some b ->
  In b ws /\ WeeklyPlatformData.platformId b = p /\
  (WeeklyPlatformData.weekEndDate b < c)%Z /\
  forall r, In r ws -> WeeklyPlatformData.platformId r = p ->
            (WeeklyPlatformData.weekEndDate r < c)%Z ->
            (WeeklyPlatformData.weekEndDate r
             <= WeeklyPlatformData.weekEndDate b)%Z.
Proof.
  unfold nearestBefore. intros H. apply leastBy_Some in H.
  destruct H as [Hin Hmin]. apply filter_In in Hin.
  destruct Hin as [Hin Hb]. unfold endsBefore, ofPlatform in Hb.
  apply andb_true_iff in Hb. destruct Hb as [Hp He].
  apply N.eqb_eq in Hp. apply Z.ltb_lt in He.
  repeat split; auto. intros r Hr Hrp Hre.
  assert (Hc : In r (filter (endsBefore p c) ws)).
  { apply filter_In. split; [exact Hr |]. unfold endsBefore, ofPlatform.
    apply andb_true_iff. split; [now apply N.eqb_eq | now apply Z.ltb_lt]. }
  specialize (Hmin r Hc). cbn beta in Hmin. lia.
Qed.

Lemma nearestBefore_None p c ws :
  nearestBefore p c ws = None <->
  forall r, In r ws -> WeeklyPlatformData.platformId r = p ->
            ~ (WeeklyPlatformData.weekEndDate r < c)%Z.
Proof.
  unfold nearestBefore. rewrite leastBy_None. split.
  - intros H r Hr Hp He.
    assert (Hc : In r (filter (endsBefore p c) ws)).
    { apply filter_In. split; [exact Hr |]. unfold endsBefore, ofPlatform.
      apply andb_true_iff. split; [now apply N.eqb_eq | now apply Z.ltb_lt]. }
    rewrite H in Hc. destruct Hc.
  - intros H. destruct (filter (endsBefore p c) ws) as [|r rs] eqn:E;
      [reflexivity |].
    assert (Hc : In r (filter (endsBefore p c) ws)) by (rewrite E; now left).
    apply filter_In in Hc. destruct Hc as [Hr Hb].
    unfold endsBefore, ofPlatform in Hb. apply andb_true_iff in Hb.
    destruct Hb as [Hp He]. apply N.eqb_eq in Hp. apply Z.ltb_lt in He.
    destruct (H r Hr Hp He).
Qed.

Lemma nearestAfter_Some p c ws a :
  nearestAfter p c ws = Some a ->
  In a ws /\ WeeklyPlatformData.platformId a = p /\
  (c < WeeklyPlatformData.weekStartDate a)%Z /\
  forall r, In r ws -> WeeklyPlatformData.platformId r = p ->
            (c < WeeklyPlatformData.weekStartDate r)%Z ->
            (WeeklyPlatformData.weekStartDate a
             <= WeeklyPlatformData.weekStartDate r)%Z.
Proof.
  unfold nearestAfter. intros H. apply leastBy_Some in H.
  destruct H as [Hin Hmin]. apply filter_In in Hin.
  destruct Hin as [Hin Hb]. unfold startsAfter, ofPlatform in Hb.
  apply andb_true_iff in Hb. destruct Hb as [Hp He].
  apply N.eqb_eq in Hp. apply Z.ltb_lt in He.
  repeat split; auto. intros r Hr Hrp Hre.
  apply Hmin. apply filter_In. split; [exact Hr |].
  unfold startsAfter, ofPlatform.
  apply andb_true_iff. split; [now apply N.eqb_eq | now apply Z.ltb_lt].
Qed.

Lemma nearestAfter_None p c ws :
  nearestAfter p c ws = None <->
  forall r, In r ws -> WeeklyPlatformData.platformId r = p ->
            ~ (c < WeeklyPlatformData.weekStartDate r)%Z.
Proof.
  unfold nearestAfter. rewrite leastBy_None. split.
  - intros H r Hr Hp He.
    assert (Hc : In r (filter (startsAfter p c) ws)).
    { apply filter_In. split; [exact Hr |]. unfold startsAfter, ofPlatform.
      apply andb_true_iff. split; [now apply N.eqb_eq | now apply Z.ltb_lt]. }
    rewrite H in Hc. destruct Hc.
  - intros H. destruct (filter (startsAfter p c) ws) as [|r rs] eqn:E;
      [reflexivity |].
    assert (Hc : In r (filter (startsAfter p c) ws)) by (rewrite E; now left).
    apply filter_In in Hc. destruct Hc as [Hr Hb].
    unfold startsAfter, ofPlatform in Hb. apply andb_true_iff in Hb.
    destruct Hb as [Hp He]. apply N.eqb_eq in Hp. apply Z.ltb_lt in He.
    destruct (H r Hr Hp He).
Qed.

(** One round of the loop, case by case. *)
Lemma interpolateWeek_eq platform existingWeeks c w :
  interpolateWeek platform existingWeeks c w
  = let p := PlatformInvestment._id platform in
    let ws := weeklyPlatformData w in
    if weekExists existingWeeks c then (Returned tt, w)
    else
      match nearestBefore p c ws, nearestAfter p c ws with
      | Some before, Some after =>
          let row := interpolatedRow p c before after in
          if js_isNaN (WeeklyPlatformData.weeklyReturn row)
          then (Thrown CastError, w)
          else if existsb (startsAt p c) ws
               then (Thrown DuplicateKeyError, w)
               else (Returned tt, withWeeklyPlatformData w (ws ++ [row]))
      | _, _ => (Returned tt, w)
      end.
Proof.
  unfold interpolateWeek. fold (weekExists existingWeeks c). cbv zeta.
  destruct (weekExists existingWeeks c); [reflexivity |]. cbn [negb].
  unfold bind at 1. rewrite findBefore_eq.
  unfold bind at 1. rewrite findAfter_eq.
  destruct (nearestBefore _ _ _) as [b |]; [| reflexivity].
  destruct (nearestAfter _ _ _) as [a |]; [| reflexivity].
  unfold create, bind, getWorld.
  destruct (js_isNaN _); [reflexivity |].
  unfold startsAt. cbn [interpolatedRow WeeklyPlatformData.platformId
                          WeeklyPlatformData.weekStartDate].
  destruct (existsb _ _); reflexivity.
Qed.

(** The weekly return of an interpolated row is NaN exactly when both
    boundary values are zero. *)
Lemma interpolatedRow_NaN p c b a :
  (WeeklyPlatformData.weekEndDate b < WeeklyPlatformData.weekStartDate a)%Z ->
  js_isNaN (WeeklyPlatformData.weeklyReturn (interpolatedRow p c b a)) = true
  <-> WeeklyPlatformData.closingValue b == 0
      /\ WeeklyPlatformData.openingValue a == 0.
Proof.
  intros Hlt. unfold interpolatedRow.
  cbn [WeeklyPlatformData.weeklyReturn].
  fold (weeksBetween b a).
  assert (HW : (1 <= weeksBetween b a)%Z)
    by (apply Qceiling_positive; [reflexivity | lia]).
  assert (HW' : ~ inject_Z (weeksBetween b a) == 0).
  { intros H. unfold Qeq in H. cbn in H. lia. }
  set (W := inject_Z (weeksBetween b a)) in *.
  set (cb := WeeklyPlatformData.closingValue b).
  set (oa := WeeklyPlatformData.openingValue a).
  unfold js_div.
  destruct (Qeq_bool cb 0) eqn:Ecb.
  - apply Qeq_bool_iff in Ecb.
    destruct (Qeq_bool (cb + (oa - cb) / W - cb) 0) eqn:Ex; cbn.
    + apply Qeq_bool_iff in Ex. split; [| reflexivity]. intros _.
      split; [exact Ecb |].
      assert (Hd : (oa - cb) / W == 0).
      { setoid_replace ((oa - cb) / W) with (cb + (oa - cb) / W - cb)
          by ring. exact Ex. }
      assert (Hm : oa - cb == (oa - cb) / W * W) by (field; exact HW').
      rewrite Hd in Hm. lra.
    + split; [discriminate |]. intros [_ Hoa].
      assert (Hx : cb + (oa - cb) / W - cb == 0).
      { rewrite Hoa, Ecb. unfold Qdiv. ring. }
      apply Qeq_bool_iff in Hx. congruence.
  - cbn. split; [discriminate |]. intros [H _].
    apply Qeq_bool_iff in H. congruence.
Qed.

(** The fields of an interpolated row, and its closing value as a point of
    the segment between the two boundary values. *)
Lemma interpolatedRow_fields p c b a :
  let row := interpolatedRow p c b a in
  WeeklyPlatformData.platformId row = p /\
  WeeklyPlatformData.weekStartDate row = c /\
  WeeklyPlatformData.weekEndDate row = (c + 6 * msPerDay)%Z /\
  WeeklyPlatformData.openingValue row = WeeklyPlatformData.closingValue b /\
  WeeklyPlatformData.closingValue row
  = WeeklyPlatformData.closingValue b
    + (WeeklyPlatformData.openingValue a - WeeklyPlatformData.closingValue b)
      / inject_Z (weeksBetween b a) /\
  WeeklyPlatformData.isInterpolated row = true /\
  WeeklyPlatformData.enteredBy row = None.
Proof. repeat split. Qed.

Lemma interpolatedRow_between p c b a :
  (WeeklyPlatformData.weekEndDate b < WeeklyPlatformData.weekStartDate a)%Z ->
  (1 <= weeksBetween b a)%Z /\
  exists t : Q,
    0 < t /\ t <= 1 /\
    WeeklyPlatformData.closingValue (interpolatedRow p c b a)
    == (1 - t) * WeeklyPlatformData.closingValue b
       + t * WeeklyPlatformData.openingValue a.
Proof.
  intros Hlt.
  assert (HW : (1 <= weeksBetween b a)%Z)
    by (apply Qceiling_positive; [reflexivity | lia]).
  split; [exact HW |].
  assert (HWpos : 0 < inject_Z (weeksBetween b a))
    by (apply inject_Z_pos; lia).
  exists (/ inject_Z (weeksBetween b a)). split; [| split].
  - now apply Qinv_lt_0_compat.
  - apply Qle_shift_inv_r; [exact HWpos |]. rewrite Qmult_1_l.
    change 1 with (inject_Z 1). rewrite <- Zle_Qle. exact HW.
  - unfold interpolatedRow. cbn [WeeklyPlatformData.closingValue].
    fold (weeksBetween b a). unfold Qdiv. ring.
Qed.

(** *** A gap between two known weeks *)

(** Linear arithmetic on instants. *)
Ltac dates :=
  unfold weekAt, getTime, msPerWeek, msPerDay in *; lia.

Lemma onLine_step v b k i :
  let v' := v + (b - v) / inject_Z (Z.of_nat (S (S k))) in
  onLine v' b (S k) i == onLine v b (S (S k)) (S i).
Proof.
  cbv zeta. unfold onLine.
  rewrite !Nat2Z.inj_succ. unfold Z.succ. rewrite !inject_Z_plus.
  change (inject_Z 1) with 1.
  assert (H0 : 0 <= inject_Z (Z.of_nat k))
    by (change 0 with (inject_Z 0); rewrite <- Zle_Qle; lia).
  field. split; lra.
Qed.

Lemma withWeeklyPlatformData_twice w ws ws' :
  withWeeklyPlatformData (withWeeklyPlatformData w ws) ws'
  = withWeeklyPlatformData w ws'.
Proof. reflexivity. Qed.

Lemma onLine_compat v1 v2 b n i :
  v1 == v2 -> onLine v1 b n i == onLine v2 b n i.
Proof. intros H. unfold onLine. now rewrite H. Qed.

Lemma endsAt_iff p e v r :
  endsAt p e v r = true <->
  WeeklyPlatformData.platformId r = p /\
  WeeklyPlatformData.weekEndDate r = e /\
  WeeklyPlatformData.closingValue r == v.
Proof.
  unfold endsAt, ofPlatform.
  rewrite !andb_true_iff, N.eqb_eq, Z.eqb_eq, Qeq_bool_iff. tauto.
Qed.

Lemma opensAt_iff p sB b r :
  opensAt p sB b r = true <->
  WeeklyPlatformData.platformId r = p /\
  WeeklyPlatformData.weekStartDate r = sB /\
  WeeklyPlatformData.openingValue r == b.
Proof.
  unfold opensAt, ofPlatform.
  rewrite !andb_true_iff, N.eqb_eq, Z.eqb_eq, Qeq_bool_iff. tauto.
Qed.

Lemma clearBefore_iff p e v sB r :
  clearBefore p e v sB r = true <->
  (WeeklyPlatformData.platformId r = p ->
   (WeeklyPlatformData.weekEndDate r < e)%Z
   \/ endsAt p e v r = true
   \/ (sB <= WeeklyPlatformData.weekEndDate r)%Z).
Proof.
  unfold clearBefore, ofPlatform at 1.
  rewrite !orb_true_iff, negb_true_iff, Z.ltb_lt, Z.leb_le.
  destruct (N.eqb_spec (WeeklyPlatformData.platformId r) p); split;
    try tauto; intros H; try (left; left; left; reflexivity).
  destruct H as [[[H | H] | H] | H]; auto. discriminate.
Qed.

Lemma clearAfter_iff p c sB b r :
  clearAfter p c sB b r = true <->
  (WeeklyPlatformData.platformId r = p ->
   (WeeklyPlatformData.weekStartDate r < c)%Z
   \/ opensAt p sB b r = true
   \/ (sB < WeeklyPlatformData.weekStartDate r)%Z).
Proof.
  unfold clearAfter, ofPlatform at 1.
  rewrite !orb_true_iff, negb_true_iff, !Z.ltb_lt.
  destruct (N.eqb_spec (WeeklyPlatformData.platformId r) p); split;
    try tauto; intros H; try (left; left; left; reflexivity).
  destruct H as [[[H | H] | H] | H]; auto. discriminate.
Qed.

Lemma isGap_iff p ws c sB e v b :
  isGap p ws c sB e v b = true <->
  (exists r, In r ws /\ endsAt p e v r = true) /\
  (forall r, In r ws -> clearBefore p e v sB r = true) /\
  (exists r, In r ws /\ opensAt p sB b r = true) /\
  (forall r, In r ws -> clearAfter p c sB b r = true).
Proof.
  unfold isGap.
  rewrite !andb_true_iff, !existsb_exists, !forallb_forall. tauto.
Qed.

(** The loop at week [c], with [k] weeks left before the known week that
    starts at [sB], none of which has a stored snapshot: after [k] rounds it
    has appended [k] rows, on the line from the closing value [v] of the
    nearest earlier row to the opening value [b] of that week, and goes on
    from the week [sB]. *)
Lemma weeksLoop_gap platform existingWeeks endDate sB b :
  let p := PlatformInvestment._id platform in
  forall k fuel c e v w,
    let ws := weeklyPlatformData w in
    sB = weekAt c k ->
    (weekAt c k - msPerWeek <= endDate)%Z ->
    (forall i, (i < k)%nat -> weekExists existingWeeks (weekAt c i) = false) ->
    (c - msPerWeek <= e < c)%Z ->
    isGap p ws c sB e v b = true ->
    ~ (v == 0 /\ b == 0) ->
    exists rows,
      weeksLoop (k + fuel) platform existingWeeks c endDate w
      = weeksLoop fuel platform existingWeeks sB endDate
          (withWeeklyPlatformData w (ws ++ rows)) /\
      length rows = k /\
      forall i r, nth_error rows i = Some r ->
        fillsWeek p (weekAt c i) (onLine v b (S k) i) (onLine v b (S k) (S i))
          r.
Proof.
  intros p k.
  induction k as [|k IH];
    intros fuel c e v w ws HsB Hend Hnone He Hgap Hnan.
  - exists []. cbn [plus].
    split; [| split; [reflexivity | intros [|i] r Hr; discriminate]].
    rewrite app_nil_r. replace sB with c by dates.
    f_equal. subst ws. now destruct w.
  - cbn [plus].
    apply isGap_iff in Hgap.
    destruct Hgap as ((r0 & Hr0 & Hr0e) & Hbefore & (rB & HrB & HrBo) & Hafter).
    apply endsAt_iff in Hr0e. destruct Hr0e as (Hr0p & Hr0e & Hr0v).
    apply opensAt_iff in HrBo. destruct HrBo as (HrBp & HrBs & HrBo).
    cbn [weeksLoop].
    destruct (Z.leb_spec c endDate) as [_ | Hgt]; [| dates].
    unfold bind at 1. rewrite interpolateWeek_eq. cbv zeta.
    fold p. fold ws.
    replace (weekExists existingWeeks c) with false
      by (symmetry; rewrite <- (Hnone 0%nat ltac:(lia)); f_equal; dates).
    assert (Hnb : exists x, nearestBefore p c ws = Some x /\
                            WeeklyPlatformData.weekEndDate x = e /\
                            WeeklyPlatformData.closingValue x == v).
    { destruct (nearestBefore p c ws) as [x |] eqn:E.
      - exists x. split; [reflexivity |].
        destruct (nearestBefore_Some _ _ _ _ E) as (Hx & Hxp & Hxe & Hmax).
        specialize (Hmax r0 Hr0 Hr0p ltac:(lia)).
        destruct (proj1 (clearBefore_iff _ _ _ _ _) (Hbefore x Hx) Hxp)
          as [Hl | [Hm | Hg]].
        + lia.
        + apply endsAt_iff in Hm. tauto.
        + exfalso. dates.
      - exfalso.
        apply (proj1 (nearestBefore_None _ _ _) E r0 Hr0 Hr0p). lia. }
    assert (Hna : exists y, nearestAfter p c ws = Some y /\
                            WeeklyPlatformData.weekStartDate y = sB /\
                            WeeklyPlatformData.openingValue y == b).
    { destruct (nearestAfter p c ws) as [y |] eqn:E.
      - exists y. split; [reflexivity |].
        destruct (nearestAfter_Some _ _ _ _ E) as (Hy & Hyp & Hys & Hmin).
        specialize (Hmin rB HrB HrBp ltac:(dates)).
        destruct (proj1 (clearAfter_iff _ _ _ _ _) (Hafter y Hy) Hyp)
          as [Hl | [Hm | Hg]].
        + lia.
        + apply opensAt_iff in Hm. tauto.
        + exfalso. lia.
      - exfalso.
        apply (proj1 (nearestAfter_None _ _ _) E rB HrB HrBp). dates. }
    destruct Hnb as (x & -> & Hxe & Hxv).
    destruct Hna as (y & -> & Hys & Hyo).
    set (row := interpolatedRow p c x y).
    assert (Hlt : (WeeklyPlatformData.weekEndDate x
                   < WeeklyPlatformData.weekStartDate y)%Z)
      by dates.
    assert (HnotNaN :
              js_isNaN (WeeklyPlatformData.weeklyReturn row) = false).
    { apply not_true_is_false. intros H.
      apply (interpolatedRow_NaN p c x y Hlt) in H.
      rewrite Hxv, Hyo in H. exact (Hnan H). }
    rewrite HnotNaN.
    assert (Hnodup : existsb (startsAt p c) ws = false).
    { apply not_true_is_false. intros H. apply existsb_exists in H.
      destruct H as (r & Hr & Hc). unfold startsAt, ofPlatform in Hc.
      apply andb_true_iff in Hc. destruct Hc as [Hrp Hrs].
      apply N.eqb_eq in Hrp. apply Z.eqb_eq in Hrs.
      destruct (proj1 (clearAfter_iff _ _ _ _ _) (Hafter r Hr) Hrp)
        as [Hl | [Hm | Hg]]; [lia | | dates].
      apply opensAt_iff in Hm. dates. }
    rewrite Hnodup.
    assert (HW : weeksBetween x y = Z.of_nat (S (S k))).
    { unfold weeksBetween, Math_ceil.
      rewrite (Qceiling_quotient _ _ (Z.of_nat (S k))); [lia | reflexivity |].
      dates. }
    assert (Hclose : WeeklyPlatformData.closingValue row
                     == v + (b - v) / inject_Z (Z.of_nat (S (S k)))).
    { unfold row, interpolatedRow. cbn [WeeklyPlatformData.closingValue].
      fold (weeksBetween x y). now rewrite HW, Hxv, Hyo. }
    set (w1 := withWeeklyPlatformData w (ws ++ [row])).
    unfold bind.
    destruct (IH fuel (setDate c (getDate c + 7))
                (c + 6 * msPerDay)%Z (WeeklyPlatformData.closingValue row) w1)
      as (rows & Hrun & Hlen & Hrows).
    + rewrite setDate_plus. dates.
    + rewrite setDate_plus. dates.
    + intros i Hi. rewrite <- (Hnone (S i) ltac:(lia)). f_equal.
      rewrite setDate_plus. dates.
    + rewrite setDate_plus. dates.
    + apply isGap_iff. cbn [w1 withWeeklyPlatformData weeklyPlatformData].
      split; [| split; [| split]].
      * exists row. split; [apply in_or_app; right; now left |].
        apply endsAt_iff. repeat split; try reflexivity.
      * intros r Hr. apply clearBefore_iff. intros Hrp.
        apply in_app_or in Hr. destruct Hr as [Hr | [<- | []]].
        -- destruct (proj1 (clearBefore_iff _ _ _ _ _) (Hbefore r Hr) Hrp)
             as [Hl | [Hm | Hg]].
           ++ left. dates.
           ++ apply endsAt_iff in Hm. left. dates.
           ++ right. right. exact Hg.
        -- right. left. apply endsAt_iff. repeat split; try reflexivity.
      * exists rB. split; [apply in_or_app; now left |].
        apply opensAt_iff. auto.
      * intros r Hr. apply clearAfter_iff. intros Hrp.
        rewrite setDate_plus.
        apply in_app_or in Hr. destruct Hr as [Hr | [<- | []]].
        -- destruct (proj1 (clearAfter_iff _ _ _ _ _) (Hafter r Hr) Hrp)
             as [Hl | [Hm | Hg]]; [left; dates | auto | auto].
        -- left. cbn. dates.
    + rewrite Hclose. intros [Hv Hb0]. apply Hnan. split; [| exact Hb0].
      rewrite Hb0 in Hv.
      assert (HK : 0 <= inject_Z (Z.of_nat k))
        by (change 0 with (inject_Z 0); rewrite <- Zle_Qle; lia).
      rewrite !Nat2Z.inj_succ in Hv. unfold Z.succ in Hv.
      rewrite !inject_Z_plus in Hv. change (inject_Z 1) with 1 in Hv.
      set (K := inject_Z (Z.of_nat k)) in *.
      assert (Hv' : v * ((K + 1) / (K + 1 + 1)) == 0).
      { rewrite <- Hv. field. lra. }
      apply Qmult_integral in Hv'. destruct Hv' as [Hv' | Hv']; [exact Hv' |].
      exfalso.
      assert (Hpos : 0 < (K + 1) / (K + 1 + 1)).
      { apply Qlt_shift_div_l; lra. }
      lra.
    + exists (row :: rows). split; [| split].
      * rewrite Hrun. unfold w1. rewrite withWeeklyPlatformData_twice.
        cbn [withWeeklyPlatformData weeklyPlatformData].
        now rewrite <- app_assoc.
      * cbn. now rewrite Hlen.
      * intros [|i] r Hr.
        -- cbn [nth_error] in Hr. injection Hr as <-.
           unfold fillsWeek, weekAt.
           replace (c + Z.of_nat 0 * msPerWeek)%Z with c by lia.
           repeat split.
           ++ unfold onLine. change (inject_Z (Z.of_nat 0)) with 0.
              cbn [row interpolatedRow WeeklyPlatformData.openingValue].
              rewrite Hxv. ring.
           ++ rewrite Hclose. unfold onLine.
              change (inject_Z (Z.of_nat 1)) with 1. ring.
        -- cbn [nth_error] in Hr.
           destruct (Hrows i r Hr) as (H1 & H2 & H3 & H4 & H5 & H6 & H7).
           unfold fillsWeek.
           assert (Hwk : weekAt (setDate c (getDate c + 7)) i
                         = weekAt c (S i)).
           { rewrite setDate_plus. dates. }
           rewrite Hwk in H2, H3.
           repeat split; auto.
           ++ rewrite H6, (onLine_compat _ _ _ _ _ Hclose).
              apply onLine_step.
           ++ rewrite H7, (onLine_compat _ _ _ _ _ Hclose).
              apply onLine_step.
Qed.

(** *** One platform, and all of them *)

Lemma interpolatePlatform_eq startDate endDate platform w :
  interpolatePlatform startDate endDate platform w
  = weeksLoop (weeksFuel startDate endDate) platform
      (existingWeeksOf (PlatformInvestment._id platform) startDate endDate
         (weeklyPlatformData w))
      startDate endDate w.
Proof. reflexivity. Qed.

Lemma withWeeklyPlatformData_same w :
  w = withWeeklyPlatformData w (weeklyPlatformData w ++ []).
Proof. rewrite app_nil_r. now destruct w. Qed.

(** Whatever its outcome, the loop for a platform from the week [c] only
    appends rows of that platform that start at [c] or later. *)
Lemma weeksLoop_frame platform existingWeeks endDate fuel :
  forall c w o w',
    weeksLoop fuel platform existingWeeks c endDate w = (o, w') ->
    exists rows,
      w' = withWeeklyPlatformData w (weeklyPlatformData w ++ rows) /\
      Forall (fun r => WeeklyPlatformData.platformId r
                       = PlatformInvestment._id platform
                       /\ (c <= WeeklyPlatformData.weekStartDate r)%Z) rows.
Proof.
  induction fuel as [|fuel IH]; intros c w o w' H.
  - injection H as <- <-. exists [].
    split; [apply withWeeklyPlatformData_same | constructor].
  - cbn [weeksLoop] in H. destruct (c <=? endDate)%Z.
    + unfold bind at 1 in H. rewrite interpolateWeek_eq in H.
      cbv zeta in H.
      assert (Hlater : forall rows,
                Forall (fun r => WeeklyPlatformData.platformId r
                                 = PlatformInvestment._id platform
                                 /\ (setDate c (getDate c + 7)
                                     <= WeeklyPlatformData.weekStartDate r)%Z)
                  rows ->
                Forall (fun r => WeeklyPlatformData.platformId r
                                 = PlatformInvestment._id platform
                                 /\ (c <= WeeklyPlatformData.weekStartDate r)%Z)
                  rows).
      { intros rows. apply Forall_impl. intros r [Hp Hs].
        rewrite setDate_plus in Hs. split; [exact Hp | dates]. }
      destruct (weekExists existingWeeks c).
      { apply IH in H. destruct H as (rows & -> & Hrows). eauto. }
      destruct (nearestBefore _ _ _) as [x |].
      2:{ apply IH in H. destruct H as (rows & -> & Hrows). eauto. }
      destruct (nearestAfter _ _ _) as [y |].
      2:{ apply IH in H. destruct H as (rows & -> & Hrows). eauto. }
      destruct (js_isNaN _).
      { injection H as <- <-. exists [].
        split; [apply withWeeklyPlatformData_same | constructor]. }
      destruct (existsb _ _).
      { injection H as <- <-. exists [].
        split; [apply withWeeklyPlatformData_same | constructor]. }
      apply IH in H. destruct H as (rows & -> & Hrows).
      eexists (_ :: rows). split.
      * rewrite withWeeklyPlatformData_twice.
        cbn [withWeeklyPlatformData weeklyPlatformData].
        rewrite <- app_assoc. reflexivity.
      * constructor; [| exact (Hlater _ Hrows)].
        split; [reflexivity | cbn; lia].
    + injection H as <- <-. exists [].
      split; [apply withWeeklyPlatformData_same | constructor].
Qed.

(** The first [j] rounds of a loop that returns: they append rows of the
    platform for weeks before the week of index [j], and the loop goes on
    from that week. *)
Lemma weeksLoop_rounds platform existingWeeks endDate :
  forall j fuel c w w',
    (weekAt c j - msPerWeek <= endDate)%Z ->
    weeksLoop (j + fuel) platform existingWeeks c endDate w
    = (Returned tt, w') ->
    exists rows,
      weeksLoop fuel platform existingWeeks (weekAt c j) endDate
        (withWeeklyPlatformData w (weeklyPlatformData w ++ rows))
      = (Returned tt, w') /\
      Forall (fun r => WeeklyPlatformData.platformId r
                       = PlatformInvestment._id platform
                       /\ (WeeklyPlatformData.weekStartDate r + msPerWeek
                           <= weekAt c j)%Z
                       /\ WeeklyPlatformData.weekEndDate r
                          = (WeeklyPlatformData.weekStartDate r
                             + 6 * msPerDay)%Z) rows.
Proof.
  induction j as [|j IH]; intros fuel c w w' Hend H.
  - exists []. cbn [plus] in H. split; [| constructor].
    rewrite <- withWeeklyPlatformData_same.
    replace (weekAt c 0) with c by dates. exact H.
  - cbn [plus weeksLoop] in H.
    destruct (Z.leb_spec c endDate) as [_ | Hgt]; [| dates].
    unfold bind at 1 in H. rewrite interpolateWeek_eq in H. cbv zeta in H.
    assert (Hnext : weekAt (setDate c (getDate c + 7)) j = weekAt c (S j))
      by (rewrite setDate_plus; dates).
    assert (Hlater : forall rows,
              Forall (fun r => WeeklyPlatformData.platformId r
                               = PlatformInvestment._id platform
                               /\ (WeeklyPlatformData.weekStartDate r
                                   + msPerWeek
                                   <= weekAt (setDate c (getDate c + 7)) j)%Z
                               /\ WeeklyPlatformData.weekEndDate r
                                  = (WeeklyPlatformData.weekStartDate r
                                     + 6 * msPerDay)%Z) rows ->
              Forall (fun r => WeeklyPlatformData.platformId r
                               = PlatformInvestment._id platform
                               /\ (WeeklyPlatformData.weekStartDate r
                                   + msPerWeek <= weekAt c (S j))%Z
                               /\ WeeklyPlatformData.weekEndDate r
                                  = (WeeklyPlatformData.weekStartDate r
                                     + 6 * msPerDay)%Z) rows)
      by (intros rows; now rewrite Hnext).
    assert (Hskip :
              weeksLoop (j + fuel) platform existingWeeks
                (setDate c (getDate c + 7)) endDate w = (Returned tt, w') ->
              exists rows,
                weeksLoop fuel platform existingWeeks (weekAt c (S j)) endDate
                  (withWeeklyPlatformData w (weeklyPlatformData w ++ rows))
                = (Returned tt, w') /\
                Forall (fun r => WeeklyPlatformData.platformId r
                                 = PlatformInvestment._id platform
                                 /\ (WeeklyPlatformData.weekStartDate r
                                     + msPerWeek <= weekAt c (S j))%Z
                                 /\ WeeklyPlatformData.weekEndDate r
                                    = (WeeklyPlatformData.weekStartDate r
                                       + 6 * msPerDay)%Z) rows).
    { intros H'. apply IH in H'; [| rewrite Hnext; exact Hend].
      destruct H' as (rows & Hrun & Hrows). exists rows.
      rewrite <- Hnext. split; [exact Hrun | rewrite Hnext; auto]. }
    destruct (weekExists existingWeeks c); [exact (Hskip H) |].
    destruct (nearestBefore _ _ _) as [x |]; [| exact (Hskip H)].
    destruct (nearestAfter _ _ _) as [y |]; [| exact (Hskip H)].
    destruct (js_isNaN _); [discriminate |].
    destruct (existsb _ _); [discriminate |].
    apply IH in H; [| rewrite Hnext; exact Hend].
    destruct H as (rows & Hrun & Hrows).
    eexists (_ :: rows). split.
    + rewrite <- Hnext. rewrite <- Hrun.
      rewrite withWeeklyPlatformData_twice.
      cbn [withWeeklyPlatformData weeklyPlatformData].
      now rewrite <- app_assoc.
    + constructor; [| exact (Hlater _ Hrows)].
      split; [reflexivity |]. split; [cbn; dates | reflexivity].
Qed.

Lemma isGap_app p ws rows c sB e v b :
  Forall (fun r => WeeklyPlatformData.platformId r = p ->
                   (WeeklyPlatformData.weekEndDate r < e)%Z
                   /\ (WeeklyPlatformData.weekStartDate r < c)%Z) rows ->
  isGap p ws c sB e v b = true -> isGap p (ws ++ rows) c sB e v b = true.
Proof.
  intros Hrows. rewrite !isGap_iff.
  intros ((r0 & Hr0 & H0) & Hbefore & (rB & HrB & HB) & Hafter).
  rewrite Forall_forall in Hrows.
  split; [exists r0; split; [apply in_or_app; now left | exact H0] |].
  split.
  { intros r Hr. apply in_app_or in Hr. destruct Hr as [Hr | Hr]; auto.
    apply clearBefore_iff. intros Hp. left. now apply Hrows. }
  split; [exists rB; split; [apply in_or_app; now left | exact HB] |].
  intros r Hr. apply in_app_or in Hr. destruct Hr as [Hr | Hr]; auto.
  apply clearAfter_iff. intros Hp. left. now apply Hrows.
Qed.

Lemma noKnownWeek_iff existingWeeks startDate j n :
  noKnownWeek existingWeeks startDate j n = true <->
  forall i, (i < n)%nat ->
            weekExists existingWeeks (weekAt startDate (j + i)) = false.
Proof.
  unfold noKnownWeek. rewrite forallb_forall. split.
  - intros H i Hi. apply negb_true_iff. apply H. apply in_seq. lia.
  - intros H i Hi. apply in_seq in Hi. apply negb_true_iff. apply H. lia.
Qed.

(** The interpolation of one platform, over any range: the gap of [n]
    weeks that starts at the walked week of index [j] is filled on the
    line. *)
Lemma interpolatePlatform_gap platform w startDate endDate j n eA a b w' :
  let p := PlatformInvestment._id platform in
  let ws := weeklyPlatformData w in
  let existingWeeks := existingWeeksOf p startDate endDate ws in
  let c := weekAt startDate j in
  let sB := weekAt startDate (j + n) in
  (sB - msPerWeek <= endDate)%Z ->
  precededByKnownWeek existingWeeks startDate j = true ->
  noKnownWeek existingWeeks startDate j n = true ->
  (c - msPerWeek <= eA < c)%Z ->
  isGap p ws c sB eA a b = true ->
  ~ (a == 0 /\ b == 0) ->
  interpolatePlatform startDate endDate platform w = (Returned tt, w') ->
  exists earlier rows later,
    weeklyPlatformData w' = ws ++ earlier ++ rows ++ later /\
    Forall (fun r => WeeklyPlatformData.platformId r = p
                     /\ (WeeklyPlatformData.weekStartDate r < c)%Z) earlier /\
    Forall (fun r => WeeklyPlatformData.platformId r = p
                     /\ (sB <= WeeklyPlatformData.weekStartDate r)%Z) later /\
    length rows = n /\
    forall i r, nth_error rows i = Some r ->
      fillsWeek p (weekAt c i) (onLine a b (S n) i) (onLine a b (S n) (S i))
        r.
Proof.
  intros p ws existingWeeks c sB Hend Hknown Hnone HeA Hgap Hnan Hrun.
  rewrite interpolatePlatform_eq in Hrun. fold p ws existingWeeks in Hrun.
  rewrite noKnownWeek_iff in Hnone.
  assert (Hfuel : (j + n < weeksFuel startDate endDate)%nat).
  { unfold weeksFuel.
    assert (Z.of_nat (j + n) - 1 <= (endDate - startDate) / msPerWeek)%Z;
      [| lia].
    apply Z.div_le_lower_bound; [reflexivity |].
    unfold sB in Hend. dates. }
  (* the rounds before the gap *)
  assert (Hpre : exists earlier,
             weeksLoop (n + (weeksFuel startDate endDate - j - n)) platform
               existingWeeks c endDate
               (withWeeklyPlatformData w (ws ++ earlier))
             = (Returned tt, w') /\
             Forall (fun r => WeeklyPlatformData.platformId r = p
                              /\ (WeeklyPlatformData.weekEndDate r < eA)%Z
                              /\ (WeeklyPlatformData.weekStartDate r < c)%Z)
               earlier).
  { destruct j as [|j'].
    - exists []. split; [| constructor].
      rewrite <- withWeeklyPlatformData_same.
      replace c with startDate by (unfold c; dates).
      replace (n + (weeksFuel startDate endDate - 0 - n))%nat
        with (weeksFuel startDate endDate) by lia.
      exact Hrun.
    - cbn [precededByKnownWeek] in Hknown.
      replace (weeksFuel startDate endDate)
        with (j' + S (n + (weeksFuel startDate endDate - S j' - n)))%nat
        in Hrun by lia.
      apply weeksLoop_rounds in Hrun; [| unfold sB in Hend; dates].
      destruct Hrun as (earlier & Hrun & Hearlier).
      exists earlier. split.
      + cbn [weeksLoop] in Hrun.
        destruct (Z.leb_spec (weekAt startDate j') endDate) as [_ | Hgt];
          [| unfold sB in Hend; dates].
        unfold bind at 1 in Hrun. rewrite interpolateWeek_eq in Hrun.
        cbv zeta in Hrun. rewrite Hknown in Hrun.
        rewrite setDate_plus in Hrun.
        replace (weekAt startDate j' + 7 * msPerDay)%Z with c in Hrun
          by (unfold c; dates).
        exact Hrun.
      + eapply Forall_impl; [| exact Hearlier].
        cbn beta. intros r (H1 & H2 & H3). unfold c in *.
        split; [exact H1 |]. split; dates. }
  destruct Hpre as (earlier & Hrun' & Hearlier).
  (* the gap *)
  destruct (weeksLoop_gap platform existingWeeks endDate sB b n
              (weeksFuel startDate endDate - j - n) c eA a
              (withWeeklyPlatformData w (ws ++ earlier)))
    as (rows & Hgaprun & Hlen & Hrows).
  - unfold sB, c. dates.
  - unfold sB, c in *. dates.
  - intros i Hi. rewrite <- (Hnone i Hi). f_equal. unfold c. dates.
  - exact HeA.
  - cbn [withWeeklyPlatformData weeklyPlatformData].
    apply isGap_app; [| exact Hgap].
    eapply Forall_impl; [| exact Hearlier]. cbn beta. tauto.
  - exact Hnan.
  - rewrite Hgaprun in Hrun'.
    cbn [withWeeklyPlatformData weeklyPlatformData] in Hrun'.
    apply weeksLoop_frame in Hrun'.
    destruct Hrun' as (later & -> & Hlater).
    exists earlier, rows, later.
    cbn [withWeeklyPlatformData weeklyPlatformData].
    rewrite <- !app_assoc. split; [reflexivity |].
    split; [eapply Forall_impl; [| exact Hearlier]; cbn beta; tauto |].
    split; [exact Hlater |]. split; [exact Hlen | exact Hrows].
Qed.

(** *** The outcomes of the interpolator *)

Lemma In_insertBy {A} (key : A -> Z) x xs y :
  In y (insertBy key x xs) <-> y = x \/ In y xs.
Proof.
  induction xs as [|z zs IH]; cbn [insertBy].
  - cbn. intuition.
  - destruct (key x <=? key z)%Z; cbn [In]; [intuition |].
    rewrite IH. intuition.
Qed.

Lemma In_sortBy {A} (key : A -> Z) xs y : In y (sortBy key xs) <-> In y xs.
Proof.
  unfold sortBy. induction xs as [|x xs IH]; cbn [fold_right]; [tauto |].
  rewrite In_insertBy, IH. cbn. intuition.
Qed.

(** The rounds of the loop that are left at week [c]. *)
Lemma weeksLoop_outcome platform startDate endDate ws0 :
  let p := PlatformInvestment._id platform in
  let existingWeeks :=
    sortBy WeeklyPlatformData.weekStartDate
      (filter
         (fun d => ofPlatform p d
                   && (startDate <=? WeeklyPlatformData.weekStartDate d)%Z
                   && (WeeklyPlatformData.weekStartDate d <=? endDate)%Z)
         ws0) in
  forall fuel c w,
    (startDate <= c)%Z ->
    (forall r, In r (weeklyPlatformData w) ->
               WeeklyPlatformData.platformId r = p ->
               In r ws0 \/ (WeeklyPlatformData.weekStartDate r < c)%Z) ->
    (Z.to_nat ((endDate - c) / msPerWeek + 1) < fuel)%nat ->
    let o := fst (weeksLoop fuel platform existingWeeks c endDate w) in
    o = Returned tt \/ o = Thrown CastError.
Proof.
  intros p existingWeeks fuel.
  induction fuel as [|fuel IH]; intros c w Hc Hinv Hfuel; [lia |].
  cbn [weeksLoop].
  destruct (Z.leb_spec c endDate) as [Hle | Hgt]; [| now left].
  assert (Hnext : (Z.to_nat ((endDate - (c + 7 * msPerDay)) / msPerWeek + 1)
                   < fuel)%nat).
  { unfold msPerWeek, msPerDay in *.
    assert (Hd : ((endDate - (c + 7 * 86400000)) / (7 * 24 * 60 * 60 * 1000)
                  = (endDate - c) / (7 * 24 * 60 * 60 * 1000) - 1)%Z).
    { replace (endDate - (c + 7 * 86400000))%Z
        with ((endDate - c) + (-1) * (7 * 24 * 60 * 60 * 1000))%Z by lia.
      rewrite Z.div_add by lia. lia. }
    rewrite Hd.
    assert (0 <= (endDate - c) / (7 * 24 * 60 * 60 * 1000))%Z
      by (apply Z.div_pos; lia).
    lia. }
  unfold bind. rewrite interpolateWeek_eq. cbv zeta. fold p.
  assert (Hsame : forall w1,
             weeklyPlatformData w1 = weeklyPlatformData w ->
             let o := fst (weeksLoop fuel platform existingWeeks
                             (setDate c (getDate c + 7)) endDate w1) in
             o = Returned tt \/ o = Thrown CastError).
  { intros w1 Hw1. apply IH.
    - rewrite setDate_plus. unfold msPerDay. lia.
    - rewrite Hw1, setDate_plus. intros r Hr Hp.
      destruct (Hinv r Hr Hp); [now left | right; unfold msPerDay; lia].
    - rewrite setDate_plus. exact Hnext. }
  destruct (weekExists existingWeeks c) eqn:Hex.
  { specialize (Hsame w eq_refl). cbv zeta in Hsame.
    destruct (weeksLoop _ _ _ _ _ w). exact Hsame. }
  destruct (nearestBefore _ _ _) as [x |].
  2:{ specialize (Hsame w eq_refl). cbv zeta in Hsame.
      destruct (weeksLoop _ _ _ _ _ w). exact Hsame. }
  destruct (nearestAfter _ _ _) as [y |].
  2:{ specialize (Hsame w eq_refl). cbv zeta in Hsame.
      destruct (weeksLoop _ _ _ _ _ w). exact Hsame. }
  destruct (js_isNaN _); [now right |].
  assert (Hnodup : existsb (startsAt p c) (weeklyPlatformData w) = false).
  { apply not_true_is_false. intros H. apply existsb_exists in H.
    destruct H as (r & Hr & Hs). unfold startsAt, ofPlatform in Hs.
    apply andb_true_iff in Hs. destruct Hs as [Hp Hs].
    apply N.eqb_eq in Hp. apply Z.eqb_eq in Hs.
    destruct (Hinv r Hr Hp) as [H0 | Hlt]; [| lia].
    assert (Hin : In r existingWeeks).
    { apply In_sortBy, filter_In. split; [exact H0 |].
      unfold ofPlatform. rewrite !andb_true_iff, N.eqb_eq, !Z.leb_le. lia. }
    assert (Htrue : weekExists existingWeeks c = true).
    { apply existsb_exists. exists r. split; [exact Hin |].
      unfold sameDateString. rewrite Hs. apply Z.eqb_refl. }
    congruence. }
  rewrite Hnodup.
  set (w1 := withWeeklyPlatformData w _).
  assert (H1 : let o := fst (weeksLoop fuel platform existingWeeks
                               (setDate c (getDate c + 7)) endDate w1) in
               o = Returned tt \/ o = Thrown CastError).
  { apply IH.
    - rewrite setDate_plus. unfold msPerDay. lia.
    - rewrite setDate_plus. intros r Hr Hp. cbn in Hr.
      apply in_app_or in Hr. destruct Hr as [Hr | [<- | []]].
      + destruct (Hinv r Hr Hp); [now left | right; unfold msPerDay; lia].
      + right. cbn. unfold msPerDay. lia.
    - rewrite setDate_plus. exact Hnext. }
  cbv zeta in H1. destruct (weeksLoop _ _ _ _ _ w1). exact H1.
Qed.

(** The interpolation of a platform returns, or throws the [CastError] of a
    row whose weekly return is NaN: the rounds suffice to leave the loop,
    and no row is inserted twice. *)
Lemma interpolatePlatform_outcome startDate endDate platform w :
  let o := fst (interpolatePlatform startDate endDate platform w) in
  o = Returned tt \/ o = Thrown CastError.
Proof.
  unfold interpolatePlatform, bind, findExistingWeeks.
  apply (weeksLoop_outcome platform startDate endDate (weeklyPlatformData w)).
  - lia.
  - intros r Hr _. now left.
  - unfold weeksFuel.
    destruct (Z.le_gt_cases startDate endDate) as [Hle | Hgt].
    + assert (0 <= (endDate - startDate) / msPerWeek)%Z
        by (apply Z.div_pos; [lia | reflexivity]).
      lia.
    + assert ((endDate - startDate) / msPerWeek < 0)%Z
        by (apply Z.div_lt_upper_bound; [reflexivity | lia]).
      lia.
Qed.

Lemma filter_nil_forall {A} (f : A -> bool) xs :
  (forall x, In x xs -> f x = false) -> filter f xs = [].
Proof.
  induction xs as [|x xs IH]; intros H; [reflexivity |].
  cbn [filter]. rewrite (H x) by now left.
  apply IH. intros y Hy. apply H. now right.
Qed.

Lemma interpolatePlatform_frame startDate endDate platform w o w' :
  interpolatePlatform startDate endDate platform w = (o, w') ->
  exists rows,
    w' = withWeeklyPlatformData w (weeklyPlatformData w ++ rows) /\
    Forall (fun r => WeeklyPlatformData.platformId r
                     = PlatformInvestment._id platform) rows.
Proof.
  rewrite interpolatePlatform_eq. intros H. apply weeksLoop_frame in H.
  destruct H as (rows & -> & Hrows). exists rows. split; [reflexivity |].
  eapply Forall_impl; [| exact Hrows]. cbn beta. tauto.
Qed.

Lemma forOf_interpolate_frame startDate endDate p platforms :
  ~ In p (map PlatformInvestment._id platforms) ->
  forall w o w',
    forOf platforms (interpolatePlatform startDate endDate) w = (o, w') ->
    exists rows,
      w' = withWeeklyPlatformData w (weeklyPlatformData w ++ rows) /\
      Forall (fun r => WeeklyPlatformData.platformId r <> p) rows.
Proof.
  induction platforms as [|q qs IH]; intros Hnot w o w' H.
  - injection H as <- <-. exists [].
    split; [apply withWeeklyPlatformData_same | constructor].
  - cbn [forOf] in H. unfold bind in H.
    destruct (interpolatePlatform startDate endDate q w) as [o1 w1] eqn:E1.
    destruct (interpolatePlatform_frame _ _ _ _ _ _ E1) as (rows1 & -> & H1).
    assert (Hq : PlatformInvestment._id q <> p)
      by (intros E; apply Hnot; now left).
    assert (H1' : Forall (fun r => WeeklyPlatformData.platformId r <> p)
                    rows1).
    { eapply Forall_impl; [| exact H1]. cbn. intros r Hr. congruence. }
    destruct o1 as [[] | e |].
    + apply IH in H; [| intros HIn; apply Hnot; now right].
      destruct H as (rows2 & -> & H2). exists (rows1 ++ rows2). split.
      * rewrite withWeeklyPlatformData_twice.
        cbn [withWeeklyPlatformData weeklyPlatformData].
        now rewrite <- app_assoc.
      * apply Forall_app. auto.
    + injection H as <- <-. eauto.
    + injection H as <- <-. eauto.
Qed.

Lemma existingWeeksOf_other p startDate endDate ws rows :
  Forall (fun r => WeeklyPlatformData.platformId r <> p) rows ->
  existingWeeksOf p startDate endDate (ws ++ rows)
  = existingWeeksOf p startDate endDate ws.
Proof.
  intros H. unfold existingWeeksOf. rewrite filter_app.
  rewrite (filter_nil_forall _ rows), app_nil_r; [reflexivity |].
  rewrite Forall_forall in H. intros r Hr.
  unfold ofPlatform. destruct (N.eqb_spec (WeeklyPlatformData.platformId r) p)
    as [E | _]; [destruct (H r Hr E) | reflexivity].
Qed.

Lemma distinctPlatforms_NoDup w :
  distinctPlatforms w = true ->
  NoDup (map PlatformInvestment._id
           (filter PlatformInvestment.isActive (platformInvestments w))).
Proof.
  unfold distinctPlatforms. cbv zeta. rewrite forallb_forall. intros H.
  apply (NoDup_count_occ' N.eq_dec). intros id Hid.
  apply Nat.eqb_eq. now apply H.
Qed.

Lemma forOf_app {A} (f : A -> Async unit) xs ys w :
  forOf (xs ++ ys) f w
  = match forOf xs f w with
    | (Returned _, w1) => forOf ys f w1
    | (Thrown e, w1) => (Thrown e, w1)
    | (Diverges, w1) => (Diverges, w1)
    end.
Proof.
  revert w. induction xs as [|x xs IH]; intros w; [reflexivity |].
  cbn [app forOf]. unfold bind.
  destruct (f x w) as [[[] | e |] w1]; [apply IH | reflexivity ..].
Qed.

(** The whole interpolation over a range: when it returns, the gap of an
    active platform is filled on the line, and the rows of that platform
    which it adds beside those of the gap are for other weeks. *)
Lemma interpolateMissingWeeks_gap w startDate endDate platform j n eA a b w' :
  let p := PlatformInvestment._id platform in
  let ws := weeklyPlatformData w in
  let existingWeeks := existingWeeksOf p startDate endDate ws in
  let c := weekAt startDate j in
  let sB := weekAt startDate (j + n) in
  In platform (platformInvestments w) ->
  PlatformInvestment.isActive platform = true ->
  distinctPlatforms w = true ->
  (sB - msPerWeek <= endDate)%Z ->
  precededByKnownWeek existingWeeks startDate j = true ->
  noKnownWeek existingWeeks startDate j n = true ->
  (c - msPerWeek <= eA < c)%Z ->
  isGap p ws c sB eA a b = true ->
  ~ (a == 0 /\ b == 0) ->
  interpolateMissingWeeks startDate endDate w = (Returned tt, w') ->
  exists earlier rows later,
    weeklyPlatformData w' = ws ++ earlier ++ rows ++ later /\
    Forall (fun r => WeeklyPlatformData.platformId r = p ->
                     (WeeklyPlatformData.weekStartDate r < c)%Z) earlier /\
    Forall (fun r => WeeklyPlatformData.platformId r = p ->
                     (sB <= WeeklyPlatformData.weekStartDate r)%Z) later /\
    length rows = n /\
    forall i r, nth_error rows i = Some r ->
      fillsWeek p (weekAt c i) (onLine a b (S n) i) (onLine a b (S n) (S i))
        r.
Proof.
  intros p ws existingWeeks c sB Hin Hact Hdist Hend Hknown Hnone HeA Hgap
    Hnan Hrun.
  apply distinctPlatforms_NoDup in Hdist.
  unfold interpolateMissingWeeks, bind, findActivePlatforms in Hrun.
  assert (Hin' : In platform (filter PlatformInvestment.isActive
                                (platformInvestments w)))
    by (apply filter_In; auto).
  destruct (in_split _ _ Hin') as (l1 & l2 & Hsplit).
  rewrite Hsplit in Hrun, Hdist. rewrite map_app in Hdist.
  cbn [map] in Hdist.
  pose proof (NoDup_remove_2 _ _ _ Hdist) as Hnot. fold p in Hnot.
  assert (Hnot1 : ~ In p (map PlatformInvestment._id l1))
    by (intros H; apply Hnot, in_or_app; now left).
  assert (Hnot2 : ~ In p (map PlatformInvestment._id l2))
    by (intros H; apply Hnot, in_or_app; now right).
  rewrite forOf_app in Hrun.
  destruct (forOf l1 _ w) as [o1 w1] eqn:E1.
  destruct (forOf_interpolate_frame _ _ p _ Hnot1 _ _ _ E1)
    as (others1 & -> & Hothers1).
  destruct o1 as [[] | e |]; try discriminate.
  cbn [forOf] in Hrun. unfold bind at 1 in Hrun.
  destruct (interpolatePlatform startDate endDate platform _)
    as [oP wP] eqn:EP.
  destruct oP as [[] | e |]; try discriminate.
  apply (interpolatePlatform_gap platform _ startDate endDate j n eA a b)
    in EP; cbn [withWeeklyPlatformData weeklyPlatformData]; fold p.
  - destruct EP as (earlier & rows & later & HwP & Hearlier & Hlater & Hlen
                    & Hrows).
    destruct (forOf_interpolate_frame _ _ p _ Hnot2 _ _ _ Hrun)
      as (others2 & -> & Hothers2).
    exists (others1 ++ earlier), rows, (later ++ others2).
    cbn [withWeeklyPlatformData weeklyPlatformData]. rewrite HwP.
    cbn [withWeeklyPlatformData weeklyPlatformData].
    split; [now rewrite <- !app_assoc |].
    split.
    { apply Forall_app. split.
      - eapply Forall_impl; [| exact Hothers1]. cbn beta. tauto.
      - eapply Forall_impl; [| exact Hearlier]. cbn beta. tauto. }
    split.
    { apply Forall_app. split.
      - eapply Forall_impl; [| exact Hlater]. cbn beta. tauto.
      - eapply Forall_impl; [| exact Hothers2]. cbn beta. tauto. }
    auto.
  - exact Hend.
  - rewrite existingWeeksOf_other by exact Hothers1. exact Hknown.
  - rewrite existingWeeksOf_other by exact Hothers1. exact Hnone.
  - exact HeA.
  - apply isGap_app; [| exact Hgap].
    eapply Forall_impl; [| exact Hothers1]. cbn beta. tauto.
  - exact Hnan.
Qed.

(** *** The interpolator *)




(** Between two rows whose boundary values are both zero the weekly return
    of the interpolated row is NaN, which is not stored: the interpolation
    throws and adds no row. *)
Example interpolation_zero_boundaries :
  let r := interpolateMissingWeeks 1704067200000 1706659200000 zeroWorld in
  fst r = Thrown CastError /\
  weeklyPlatformData (snd r) = weeklyPlatformData zeroWorld.
Proof. cbv zeta. split; vm_compute; reflexivity. Qed.

(** ** Instances on the sample ledger *)

(** The corpus of the sample ledger at the end of January 2024: every
    selected investment names an existing client, and the call returns. *)
Lemma getCorpusAtDate_spec_witness :
  exists cd,
    getCorpusAtDate 1706659200000 sampleWorld = (Returned cd, sampleWorld).
Proof.
  destruct (proj1 (getCorpusAtDate_spec sampleWorld 1706659200000%Z))
    as (cd & Hrun & _); [vm_compute; reflexivity |].
  exists cd. exact Hrun.
Defined.


(** The calculation of January 2024 on the sample ledger returns. *)
Lemma calculateClientReturns_spec_witness :
  exists w',
    calculateMonthlyReturns 1705276800000 sampleWorld = (Returned tt, w').
Proof.
  destruct (calculateClientReturns_spec sampleWorld 1705276800000%Z)
    as (cd & doc & w' & _ & Hrun & _); [vm_compute; reflexivity |].
  exists w'. exact Hrun.
Defined.

(** The shares of the January 2024 snapshot of the sample ledger add up to
    its corpus. *)
Lemma snapshot_conservation_witness :
  exists doc w',
    calculateMonthlyReturns 1705276800000 sampleWorld = (Returned tt, w') /\
    sumQ (map MonthlyReturn.investmentShare (MonthlyReturn.clientReturns doc))
    == MonthlyReturn.totalCorpus doc.
Proof.
  destruct (snapshot_conservation sampleWorld 1705276800000%Z)
    as (doc & w' & Hrun & _ & Hsum); [vm_compute; reflexivity |].
  exists doc, w'. split; [exact Hrun | exact Hsum].
Defined.

(** Two consecutive cascades on the sample ledger leave the ledger and the
    platform investments as they were. *)
Lemma recalculate_twice_same_fields_witness :
  exists w1 w2,
    snd (recalculateFromDate 1704844800000 sampleWorld) = w1 /\
    snd (recalculateFromDate 1704844800000 w1) = w2 /\
    sameInputs sampleWorld w1 /\ sameInputs w1 w2.
Proof.
  destruct (recalculateFromDate 1704844800000 sampleWorld) as [o1 w1] eqn:E1.
  destruct (recalculateFromDate 1704844800000 w1) as [o2 w2] eqn:E2.
  assert (H1 : o1 = Returned (mkResult true 3)).
  { change o1 with (fst (o1, w1)). rewrite <- E1. vm_compute. reflexivity. }
  subst o1.
  destruct (recalculate_twice_same_fields _ _ _ _ _ _ E1 E2) as (Ha & Hb & _).
  exists w1, w2. rewrite E2. cbn [snd]. auto.
Defined.

(** A stale snapshot of December 2023 in the store does not change the
    outcome of the calculation of January 2024. *)
Lemma monthly_snapshot_noninterference_witness :
  fst (calculateMonthlyReturns 1705276800000 sampleWorld)
  = fst (calculateMonthlyReturns 1705276800000
           (withMonthlyReturns sampleWorld
              [MonthlyReturn.mk 1701388800000 1 2 3 [] [] 0])).
Proof.
  destruct monthly_snapshot_noninterference as (_ & Hsame & _).
  apply Hsame. repeat split.
Defined.
(** * Further properties of the code *)

(** ** Week numbers *)

Transparent mkDate setMonth setDate getFullYear getMonth getDate monthStart
  monthIndex.

Lemma mkDate_fields t :
  mkDate (getFullYear t) (getMonth t) (getDate t) = (Day t * msPerDay)%Z.
Proof.
  unfold mkDate, getFullYear, getMonth, getDate, MakeDate.
  rewrite MakeDay_monthStartDay, DateFromTime_eq.
  unfold monthIndex. lia.
Qed.

Lemma mkDate_january_day y d :
  mkDate y 0 d = ((DayFromYear y + d - 1) * msPerDay)%Z.
Proof.
  unfold mkDate, MakeDate, MakeDay.
  replace (0 / 12)%Z with 0%Z by reflexivity.
  replace (0 mod 12)%Z with 0%Z by reflexivity.
  replace (y + 0)%Z with y by lia. cbn [MonthStartInYear]. lia.
Qed.

Lemma mkDate_january y : mkDate y 0 1 = (DayFromYear y * msPerDay)%Z.
Proof. rewrite mkDate_january_day. f_equal. lia. Qed.

Lemma monthIndex_eq t : monthIndex t = (12 * getFullYear t + getMonth t)%Z.
Proof. reflexivity. Qed.

Lemma Day_midnight d : Day (d * msPerDay) = d.
Proof. unfold Day, msPerDay. apply Z.div_mul. lia. Qed.

Lemma getFullYear_midnight d : getFullYear (d * msPerDay) = YearFromDay d.
Proof. unfold getFullYear, YearFromTime. now rewrite Day_midnight. Qed.

Opaque mkDate setMonth setDate getFullYear getMonth getDate monthStart
  monthIndex.

(** The Thursday of the week (Monday to Sunday) of a day, as a day number:
    day 0 is a Thursday. *)
Lemma thursday_eq t :
  let d := (Day t * msPerDay)%Z in
  let dayNum := if (WeekDay d =? 0)%Z then 7%Z else WeekDay d in
  (Day t + 4 - dayNum = 7 * ((Day t + 3) / 7))%Z.
Proof.
  cbv zeta. unfold WeekDay. rewrite Day_midnight.
  pose proof (Z.div_mod (Day t + 3) 7 ltac:(lia)) as E.
  pose proof (Z.mod_pos_bound (Day t + 3) 7 ltac:(lia)) as B.
  set (q := ((Day t + 3) / 7)%Z) in *. set (r := ((Day t + 3) mod 7)%Z) in *.
  clearbody q r.
  replace (Day t + 4)%Z with (r + 1 + q * 7)%Z by lia.
  rewrite Z.mod_add by lia.
  assert (C : (r = 6 \/ r < 6)%Z) by lia. destruct C as [C | C].
  - subst r. replace ((6 + 1) mod 7)%Z with 0%Z by reflexivity.
    rewrite Z.eqb_refl. lia.
  - rewrite Z.mod_small by lia.
    destruct (r + 1 =? 0)%Z eqn:E0; lia.
Qed.

Lemma getWeekNumber_eq date :
  let th := (7 * ((Day date + 3) / 7))%Z in
  getWeekNumber date = ((th - DayFromYear (YearFromDay th)) / 7 + 1)%Z.
Proof.
  cbv zeta. unfold getWeekNumber.
  rewrite mkDate_fields.
  set (d := (Day date * msPerDay)%Z).
  set (dayNum := if (WeekDay d =? 0)%Z then 7%Z else WeekDay d).
  replace (getDate d + 4 - dayNum)%Z with (getDate d + (4 - dayNum))%Z by lia.
  rewrite setDate_plus.
  assert (E : (d + (4 - dayNum) * msPerDay
               = 7 * ((Day date + 3) / 7) * msPerDay)%Z).
  { pose proof (thursday_eq date) as H. cbv zeta in H. fold d dayNum in H.
    subst d. rewrite <- H. ring. }
  rewrite E. set (th := (7 * ((Day date + 3) / 7))%Z).
  rewrite getFullYear_midnight, mkDate_january.
  set (n := (th - DayFromYear (YearFromDay th))%Z).
  replace (th * msPerDay - DayFromYear (YearFromDay th) * msPerDay)%Z
    with (n * 86400000)%Z by (unfold n, msPerDay; ring).
  unfold Math_ceil.
  assert (Hq : (inject_Z (n * 86400000) / inject_Z 86400000 + 1) / 7
               == inject_Z (n + 1) / inject_Z 7).
  { rewrite !inject_Z_mult, !inject_Z_plus. field. }
  rewrite Hq.
  apply Qceiling_quotient; [lia |].
  pose proof (Z.div_mod n 7 ltac:(lia)).
  pose proof (Z.mod_pos_bound n 7 ltac:(lia)). lia.
Qed.



(** The fourth of January is in week 1 of its year, every year. *)
Theorem getWeekNumber_january_4 (y : Z) : getWeekNumber (mkDate y 0 4) = 1%Z.
Proof.
  rewrite getWeekNumber_eq, mkDate_january_day, Day_midnight. cbv zeta.
  set (D := DayFromYear y).
  pose proof (Z.div_mod (D + 4 - 1 + 3) 7 ltac:(lia)) as E.
  pose proof (Z.mod_pos_bound (D + 4 - 1 + 3) 7 ltac:(lia)) as B.
  set (th := (7 * ((D + 4 - 1 + 3) / 7))%Z) in *.
  assert (Hth : (D <= th <= D + 6)%Z) by lia.
  assert (Hy : YearFromDay th = y).
  { apply YearFromDay_unique. rewrite DayFromYear_succ. fold D.
    destruct (DaysInYear_cases y); lia. }
  rewrite Hy. fold D.
  rewrite Z.div_small by lia. reflexivity.
Qed.

(** Seven days later the week number is one more, or 1 again when the
    new week belongs to the next year. *)
Theorem getWeekNumber_next_week (date : Date) :
  let next := (date + 7 * msPerDay)%Z in
  getWeekNumber next = (getWeekNumber date + 1)%Z \/ getWeekNumber next = 1%Z.
Proof.
  cbv zeta. rewrite !getWeekNumber_eq. cbv zeta.
  assert (Hd : Day (date + 7 * msPerDay) = (Day date + 7)%Z).
  { unfold Day. rewrite Z.div_add by (unfold msPerDay; lia). reflexivity. }
  rewrite Hd.
  replace (Day date + 7 + 3)%Z with (Day date + 3 + 1 * 7)%Z by lia.
  rewrite Z.div_add by lia.
  set (th := (7 * ((Day date + 3) / 7))%Z).
  replace (7 * ((Day date + 3) / 7 + 1))%Z with (th + 7)%Z by (unfold th; lia).
  pose proof (YearFromDay_spec th) as [H1 H2].
  set (Y := YearFromDay th) in *.
  pose proof (DayFromYear_succ Y) as S1.
  pose proof (DayFromYear_succ (Y + 1)) as S2.
  destruct (Z_lt_le_dec (th + 7) (DayFromYear (Y + 1))) as [L | L].
  - left. rewrite (YearFromDay_unique (th + 7) Y) by lia.
    replace (th + 7 - DayFromYear Y)%Z
      with (th - DayFromYear Y + 1 * 7)%Z by lia.
    rewrite Z.div_add by lia. lia.
  - right. rewrite (YearFromDay_unique (th + 7) (Y + 1)).
    + rewrite Z.div_small by lia. reflexivity.
    + destruct (DaysInYear_cases (Y + 1)); lia.
Qed.


(** ** The cascade and the stored snapshots *)

Lemma forEach_groupByClient_outcome pis :
  forall acc,
    (exists acc', forEach groupByClient pis acc = Returned acc')
    \/ forEach groupByClient pis acc = Thrown TypeError.
Proof.
  induction pis as [|pi pis IH]; intros [cs tot]; [left; eexists; reflexivity |].
  cbn [forEach]. unfold groupByClient at 1 3.
  destruct (snd pi) as [u |]; [apply IH | now right].
Qed.

Lemma corpusAt_outcome us invs date :
  (exists cd, corpusAt us invs date = Returned cd)
  \/ corpusAt us invs date = Thrown TypeError.
Proof.
  unfold corpusAt.
  destruct (forEach_groupByClient_outcome
              (map (populate us) (filter (selected date) invs)) ([], 0))
    as [([cs tot] & ->) | ->]; [left; eexists; reflexivity | now right].
Qed.

Lemma corpusAt_unresolved date w :
  clientsResolve date w = false ->
  corpusAt (users w) (investments w) date = Thrown TypeError.
Proof.
  intros H. apply clientsResolve_false in H.
  destruct H as (inv & Hin & Hs & Hu).
  unfold corpusAt. rewrite forEach_unresolved; [reflexivity |].
  exists (populate (users w) inv). split.
  - apply in_map, filter_In. auto.
  - now apply populate_None.
Qed.

Lemma forOf_calculate_error months :
  forall w o w',
    forOf months calculateMonthlyReturns w = (o, w') ->
    o = Returned tt \/ o = Thrown TypeError.
Proof.
  induction months as [|m months IH]; intros w o w' H.
  - injection H as <- <-. now left.
  - cbn [forOf] in H. unfold bind in H.
    rewrite calculateMonthlyReturns_eq in H.
    destruct (corpusAt_outcome (users w) (investments w) (endOfMonth m))
      as [(cd & E) | E]; rewrite E in H.
    + exact (IH _ _ _ H).
    + injection H as <- <-. now right.
Qed.

Lemma upsert_months doc ms :
  map MonthlyReturn.month (upsert doc ms)
  = if existsb (fun m => (MonthlyReturn.month m =? MonthlyReturn.month doc)%Z) ms
    then map MonthlyReturn.month ms
    else map MonthlyReturn.month ms ++ [MonthlyReturn.month doc].
Proof.
  induction ms as [|m ms IH]; [reflexivity |].
  cbn [upsert existsb].
  destruct (MonthlyReturn.month m =? MonthlyReturn.month doc)%Z eqn:E.
  - apply Z.eqb_eq in E. cbn [map orb]. now rewrite E.
  - cbn [map orb]. rewrite IH.
    destruct (existsb _ ms); reflexivity.
Qed.

Lemma upsert_NoDup doc ms :
  NoDup (map MonthlyReturn.month ms) ->
  NoDup (map MonthlyReturn.month (upsert doc ms)).
Proof.
  intros H. rewrite upsert_months.
  destruct (existsb _ ms) eqn:E; [exact H |].
  apply NoDup_app; [exact H | repeat constructor; intros [] |].
  intros k Hk [<- | []].
  apply in_map_iff in Hk. destruct Hk as (m & Em & Hm).
  assert (F : existsb
                (fun m => (MonthlyReturn.month m =? MonthlyReturn.month doc)%Z)
                ms = true).
  { apply existsb_exists. exists m. split; [exact Hm |]. now apply Z.eqb_eq. }
  congruence.
Qed.

Lemma forOf_calculate_NoDup months :
  forall w o w',
    forOf months calculateMonthlyReturns w = (o, w') ->
    NoDup (map MonthlyReturn.month (monthlyReturns w)) ->
    NoDup (map MonthlyReturn.month (monthlyReturns w')) /\
    (length (monthlyReturns w) <= length (monthlyReturns w')
     <= length (monthlyReturns w) + length months)%nat.
Proof.
  induction months as [|m months IH]; intros w o w' H Hnd.
  - injection H as <- <-. split; [exact Hnd | cbn; lia].
  - cbn [forOf] in H. unfold bind in H.
    rewrite calculateMonthlyReturns_eq in H.
    destruct (corpusAt (users w) (investments w) (endOfMonth m))
      as [cd | e |] eqn:E.
    + destruct (IH _ _ _ H) as (Hnd' & Hlen).
      { cbn [afterCalculation monthlyReturns]. now apply upsert_NoDup. }
      split; [exact Hnd' |].
      cbn [afterCalculation monthlyReturns] in Hlen.
      assert (Hu : (length (monthlyReturns w)
                    <= length (upsert (snapshotOf (platformInvestments w) m cd
                                         (clock w (ticks w)))
                                 (monthlyReturns w))
                    <= length (monthlyReturns w) + 1)%nat).
      { rewrite <- !(length_map MonthlyReturn.month), upsert_months.
        destruct (existsb _ _); rewrite ?length_app; cbn; lia. }
      cbn [length]. lia.
    + injection H as <- <-. split; [exact Hnd | cbn; lia].
    + injection H as <- <-. split; [exact Hnd | cbn; lia].
Qed.


(** X4. [recalculateFromDate] leaves the stored snapshot of every month
    before the month of [fromDate] as it was, and likewise every document
    whose [month] is later than the current month or is not the first
    instant of a month, also when it throws. *)
Theorem recalculateFromDate_other_months (w : World) (fromDate k : Date) :
  (k < startOfMonth fromDate)%Z
  \/ (startOfMonth (clock w (ticks w)) < k)%Z
  \/ startOfMonth k <> k ->
  findMonth k (monthlyReturns (snd (recalculateFromDate fromDate w)))
  = findMonth k (monthlyReturns w).
Proof.
  intros Hk.
  destruct (recalculateFromDate fromDate w) as [o w'] eqn:E. cbn [snd].
  destruct (recalculateFromDate_run _ _ _ _ E) as (o' & Hrun & _).
  destruct (forOf_calculate_any _ _ _ _ Hrun) as (_ & _ & _ & _ & Hfind).
  destruct (Hfind k) as [Hsame | (doc & _ & _ & m & Hin & Hm)];
    [exact Hsame |].
  exfalso. apply In_monthsFrom in Hin. destruct Hin as (i & Hi & ->).
  rewrite startOfMonth_monthStart in Hm. subst k.
  rewrite !startOfMonth_eq in Hk.
  destruct Hk as [Hk | [Hk | Hk]].
  - assert (monthIndex fromDate <= monthIndex fromDate + Z.of_nat i)%Z by lia.
    destruct (Z.eq_dec (Z.of_nat i) 0) as [E0 | N0].
    + rewrite E0, Z.add_0_r in Hk. lia.
    + pose proof (monthStart_lt_mono (monthIndex fromDate)
                    (monthIndex fromDate + Z.of_nat i) ltac:(lia)). lia.
  - destruct (Z.eq_dec (monthIndex fromDate + Z.of_nat i)
                (monthIndex (clock w (ticks w)))) as [E0 | N0].
    + rewrite E0 in Hk. lia.
    + pose proof (monthStart_lt_mono (monthIndex fromDate + Z.of_nat i)
                    (monthIndex (clock w (ticks w))) ltac:(lia)). lia.
  - apply Hk. now rewrite monthIndex_monthStart.
Qed.

Lemma recalculateFromDate_other_months_witness :
  findMonth 1701388800000
    (monthlyReturns
       (snd (recalculateFromDate 1704844800000
               (withMonthlyReturns sampleWorld
                  [MonthlyReturn.mk 1701388800000 1 2 3 [] [] 0]))))
  = Some (MonthlyReturn.mk 1701388800000 1 2 3 [] [] 0).
Proof.
  rewrite (recalculateFromDate_other_months
             (withMonthlyReturns sampleWorld
                [MonthlyReturn.mk 1701388800000 1 2 3 [] [] 0])
             1704844800000%Z 1701388800000%Z).
  - reflexivity.
  - left. vm_compute. reflexivity.
Defined.

(** X5. [calculateMonthlyReturns] and [recalculateFromDate] keep the months
    of the stored snapshots distinct: starting from a collection with one
    document per month, they end with one document per month, having added
    at most one document per recalculated month and removed none. *)
Theorem recalculateFromDate_unique_months (w : World) (fromDate : Date) :
  NoDup (map MonthlyReturn.month (monthlyReturns w)) ->
  let w1 := snd (calculateMonthlyReturns fromDate w) in
  let w2 := snd (recalculateFromDate fromDate w) in
  let n := Z.to_nat (monthIndex (clock w (ticks w))
                     - monthIndex fromDate + 1) in
  NoDup (map MonthlyReturn.month (monthlyReturns w1)) /\
  (length (monthlyReturns w) <= length (monthlyReturns w1)
   <= length (monthlyReturns w) + 1)%nat /\
  NoDup (map MonthlyReturn.month (monthlyReturns w2)) /\
  (length (monthlyReturns w) <= length (monthlyReturns w2)
   <= length (monthlyReturns w) + n)%nat.
Proof.
  intros Hnd. cbv zeta.
  destruct (forOf [fromDate] calculateMonthlyReturns w) as [o1 w1] eqn:E1.
  assert (Hw1 : snd (calculateMonthlyReturns fromDate w) = w1).
  { revert E1. cbn [forOf]. unfold bind, ret.
    destruct (calculateMonthlyReturns fromDate w) as [[[] | e |] w0];
      intros E1; now injection E1 as <- <-. }
  rewrite Hw1.
  destruct (forOf_calculate_NoDup _ _ _ _ E1 Hnd) as (N1 & L1).
  split; [exact N1 |]. split; [exact L1 |].
  destruct (recalculateFromDate fromDate w) as [o w2] eqn:E. cbn [snd].
  destruct (recalculateFromDate_run _ _ _ _ E) as (o' & Hrun & _).
  destruct (forOf_calculate_NoDup _ _ _ _ Hrun Hnd) as (N2 & L2).
  rewrite length_monthsFrom in L2. cbn [tick monthlyReturns] in L2.
  split; [exact N2 | exact L2].
Qed.

Lemma recalculateFromDate_unique_months_witness :
  NoDup (map MonthlyReturn.month
           (monthlyReturns (snd (recalculateFromDate 1704844800000
                                   sampleWorld)))).
Proof.
  apply (recalculateFromDate_unique_months sampleWorld 1704844800000%Z).
  constructor.
Defined.

(** ** The corpus and the snapshot of a month *)

Lemma corpusAt_facts date w :
  clientsResolve date w = true ->
  let chosen := filter (selected date) (investments w) in
  exists cs tot,
    corpusAt (users w) (investments w) date
    = Returned (mkCorpusData (orZero tot) (map (withShare tot) cs)) /\
    tot == sumQ (map signedAmount chosen) /\
    sumQ (totals cs) == tot /\
    NoDup (ids cs) /\
    (forall id, In id (ids cs) <-> In id (map Investment.clientId chosen)) /\
    (forall id,
        totalOf cs id
        == sumQ (map signedAmount (filter (ofClient id) chosen))).
Proof.
  intros Hres chosen.
  destruct (forEach_groupByClient _ (populated_resolved date w Hres) [] 0)
    as (cs & tot & Hrun & Htot & Hsum & Hnd & Hids & Hof).
  fold chosen in Hrun, Htot, Hsum, Hids, Hof.
  rewrite map_fst_populate in Htot, Hsum.
  rewrite (map_fst_populate _ Investment.clientId) in Hids.
  exists cs, tot.
  split; [unfold corpusAt; fold chosen; now rewrite Hrun |].
  split; [rewrite Htot; ring |].
  split; [rewrite Hsum, Htot; cbn; ring |].
  split; [apply Hnd; constructor |].
  split.
  - intros id. rewrite Hids. cbn. tauto.
  - intros id. rewrite Hof. unfold totalOf at 1. cbn [lookupClient].
    rewrite filter_populate, map_fst_populate. ring.
Qed.

Lemma shareOf_withShare tot0 tot cs id :
  shareOf (mkCorpusData tot0 (map (withShare tot) cs)) id = totalOf cs id.
Proof.
  unfold shareOf, totalOf. cbn [clientShares].
  induction cs as [|c cs IH]; [reflexivity |].
  cbn [map find lookupClient withShare ClientShare.clientId].
  destruct (N.eqb (ClientInvestment.clientId c) id); [reflexivity | exact IH].
Qed.

Lemma sumQ_scale {A} (f : A -> Q) (c : Q) xs :
  sumQ (map (fun x => f x * c) xs) == sumQ (map f xs) * c.
Proof.
  induction xs as [|x xs IH]; unfold sumQ in *; cbn [map fold_right];
    [ring |]. rewrite IH. ring.
Qed.

Lemma sumQ_plus {A} (f g : A -> Q) xs :
  sumQ (map (fun x => f x + g x) xs) == sumQ (map f xs) + sumQ (map g xs).
Proof.
  induction xs as [|x xs IH]; unfold sumQ in *; cbn [map fold_right];
    [ring |]. rewrite IH. ring.
Qed.

(** X6. The returns of the stored snapshot of a month add up to the corpus
    times the monthly percentage, and the closing balances to the corpus
    plus that amount. *)
Theorem snapshot_total_returns (w : World) (monthDate : Date) :
  clientsResolve (endOfMonth monthDate) w = true ->
  exists doc w',
    calculateMonthlyReturns monthDate w = (Returned tt, w') /\
    findMonth (startOfMonth monthDate) (monthlyReturns w') = Some doc /\
    sumQ (map MonthlyReturn.returnAmount (MonthlyReturn.clientReturns doc))
    == MonthlyReturn.totalCorpus doc
       * MonthlyReturn.monthlyReturnPercentage doc / 100 /\
    sumQ (map MonthlyReturn.closingBalance (MonthlyReturn.clientReturns doc))
    == MonthlyReturn.totalCorpus doc
       + MonthlyReturn.totalCorpus doc
         * MonthlyReturn.monthlyReturnPercentage doc / 100.
Proof.
  intros Hres.
  destruct (corpusAt_facts _ _ Hres) as (cs & tot & Hcd & _ & Hsum & _).
  set (cd := mkCorpusData (orZero tot) (map (withShare tot) cs)) in *.
  set (doc := snapshotOf (platformInvestments w) monthDate cd
                (clock w (ticks w))).
  exists doc, (afterCalculation w (upsert doc (monthlyReturns w))).
  split; [now rewrite calculateMonthlyReturns_eq, Hcd |].
  split; [apply (findMonth_upsert doc) |].
  unfold doc, snapshotOf, cd.
  cbn [MonthlyReturn.clientReturns MonthlyReturn.totalCorpus totalCorpus
         clientShares MonthlyReturn.monthlyReturnPercentage].
  set (pct := calculateWeightedReturn _).
  rewrite !map_map.
  cbn [clientReturnOf MonthlyReturn.returnAmount MonthlyReturn.closingBalance
         withShare ClientShare.totalInvestment].
  rewrite (sumQ_plus ClientInvestment.totalInvestment
             (fun c => ClientInvestment.totalInvestment c * (pct / 100))).
  rewrite (sumQ_scale ClientInvestment.totalInvestment (pct / 100)).
  fold (totals cs). rewrite orZero_eq, Hsum.
  split; field.
Qed.

Lemma snapshot_total_returns_witness :
  exists doc,
    findMonth 1704067200000
      (monthlyReturns (snd (calculateMonthlyReturns 1705276800000
                              sampleWorld))) = Some doc /\
    sumQ (map MonthlyReturn.returnAmount (MonthlyReturn.clientReturns doc))
    == MonthlyReturn.totalCorpus doc
       * MonthlyReturn.monthlyReturnPercentage doc / 100.
Proof.
  destruct (snapshot_total_returns sampleWorld 1705276800000%Z)
    as (doc & w' & Hrun & Hdoc & Hsum & _); [vm_compute; reflexivity |].
  exists doc. rewrite Hrun. cbn [snd]. split; [| exact Hsum].
  rewrite <- Hdoc. f_equal.
Defined.

Lemma toFixed2_error_sum {A} (g : A -> Q) xs :
  Qabs (sumQ (map (fun x => toFixed2 (g x)) xs) - sumQ (map g xs))
  <= inject_Z (Z.of_nat (length xs)) * (1 # 200).
Proof.
  induction xs as [|x xs IH].
  - cbn. discriminate.
  - cbn [map length]. unfold sumQ in *. cbn [fold_right].
    rewrite Nat2Z.inj_succ, <- Z.add_1_r, inject_Z_plus.
    destruct (toFixed2_spec (g x)) as (_ & _ & Hx).
    set (a := toFixed2 (g x)) in *.
    set (s' := fold_right Qplus 0 (map (fun x => toFixed2 (g x)) xs)) in *.
    set (s := fold_right Qplus 0 (map g xs)) in *.
    assert (E : a + s' - (g x + s) == (a - g x) + (s' - s)) by ring.
    rewrite E.
    eapply Qle_trans; [apply Qabs_triangle |].
    assert (R : (inject_Z (Z.of_nat (length xs)) + inject_Z 1) * (1 # 200)
                == (1 # 200)
                   + inject_Z (Z.of_nat (length xs)) * (1 # 200)).
    { change (inject_Z 1) with 1. ring. }
    rewrite R. apply Qplus_le_compat; assumption.
Qed.



Lemma weighted_sum_bounds (ps : list PlatformData.t) (lo hi T : Q) :
  (forall p, In p ps ->
             0 <= PlatformData.currentValue p
             /\ lo <= PlatformData.returnPercentage p <= hi) ->
  0 < T ->
  let s := sumQ (map (fun p => orZero (PlatformData.returnPercentage p)
                               * (PlatformData.currentValue p / T)) ps) in
  lo * (sumQ (map PlatformData.currentValue ps) / T) <= s
  /\ s <= hi * (sumQ (map PlatformData.currentValue ps) / T).
Proof.
  intros H HT. cbv zeta.
  induction ps as [|p ps IH].
  - unfold sumQ. cbn. split; apply Qle_lteq; right; field;
      intros E; rewrite E in HT; discriminate.
  - destruct IH as [IH1 IH2]; [intros q Hq; apply H; now right |].
    destruct (H p (or_introl eq_refl)) as (Hcv & Hlo & Hhi).
    unfold sumQ in *. cbn [map fold_right].
    set (r := PlatformData.returnPercentage p) in *.
    set (cv := PlatformData.currentValue p) in *.
    assert (Hn0 : ~ T == 0) by (intros E; rewrite E in HT; discriminate).
    assert (Hw : 0 <= cv / T).
    { apply Qle_shift_div_l; [exact HT |]. now rewrite Qmult_0_l. }
    rewrite orZero_eq.
    pose proof (Qmult_le_compat_r _ _ _ Hlo Hw) as L1.
    pose proof (Qmult_le_compat_r _ _ _ Hhi Hw) as L2.
    set (S1 := fold_right Qplus 0 (map PlatformData.currentValue ps)) in *.
    split.
    + setoid_replace (lo * ((cv + S1) / T))
        with (lo * (cv / T) + lo * (S1 / T)) by (field; exact Hn0).
      apply Qplus_le_compat; assumption.
    + setoid_replace (hi * ((cv + S1) / T))
        with (hi * (cv / T) + hi * (S1 / T)) by (field; exact Hn0).
      apply Qplus_le_compat; assumption.
Qed.

Lemma sumQ_nonneg {A} (f : A -> Q) xs :
  (forall x, In x xs -> 0 <= f x) -> 0 <= sumQ (map f xs).
Proof.
  induction xs as [|x xs IH]; intros H; unfold sumQ in *; cbn [map fold_right].
  - discriminate.
  - apply (Qle_trans _ (0 + 0)); [discriminate |].
    apply Qplus_le_compat; [apply H; now left |].
    apply IH. intros y Hy. apply H. now right.
Qed.

(** X8. When the selected platforms have non-negative current values, not
    all zero, the weighted return is an average of their return
    percentages: it lies between any two bounds that hold for all of
    them. *)
Theorem calculateWeightedReturn_bounds (w : World) (startDate endDate : Date)
  (lo hi : Q) (pr : PlatformReturns) :
  (forall p, In p (filter (platformSelected endDate) (platformInvestments w)) ->
             0 <= PlatformInvestment.currentValue p
             /\ lo <= PlatformInvestment.returnPercentage p <= hi) ->
  getPlatformReturns startDate endDate w = (Returned pr, w) ->
  ~ totalValue pr == 0 ->
  lo <= calculateWeightedReturn pr <= hi.
Proof.
  intros Hall Hrun Hn0.
  rewrite getPlatformReturns_eq in Hrun. injection Hrun as <-.
  unfold platformReturnsAt in *. cbv zeta in *.
  set (chosen := filter (platformSelected endDate) (platformInvestments w))
    in *.
  unfold calculateWeightedReturn.
  cbn [totalValue platforms] in *.
  set (T := fold_left _ chosen 0) in *.
  assert (HT : T == sumQ (map PlatformData.currentValue
                            (map toPlatformData chosen))).
  { unfold T. rewrite fold_left_Qplus, map_map.
    rewrite Qplus_0_l. reflexivity. }
  assert (Hall' : forall p, In p (map toPlatformData chosen) ->
            0 <= PlatformData.currentValue p
            /\ lo <= PlatformData.returnPercentage p <= hi).
  { intros p Hp. apply in_map_iff in Hp. destruct Hp as (q & <- & Hq).
    exact (Hall q Hq). }
  assert (Hpos : 0 < T).
  { assert (H0 : 0 <= T).
    { rewrite HT. apply sumQ_nonneg. intros p Hp.
      now destruct (Hall' p Hp). }
    apply Qle_lteq in H0. destruct H0 as [H0 | H0]; [exact H0 |].
    exfalso. apply Hn0. now rewrite <- H0. }
  destruct (Qeq_bool T 0) eqn:E; [apply Qeq_bool_iff in E; contradiction |].
  rewrite (fold_left_Qplus
             (fun p => orZero (PlatformData.returnPercentage p)
                       * (PlatformData.currentValue p / T))).
  destruct (weighted_sum_bounds _ lo hi T Hall' Hpos) as [L1 L2].
  rewrite <- HT in L1, L2.
  assert (E1 : T / T == 1) by (field; exact Hn0).
  rewrite E1, Qmult_1_r in L1, L2.
  rewrite Qplus_0_l. split; assumption.
Qed.

Lemma calculateWeightedReturn_bounds_witness :
  exists pr,
    getPlatformReturns 1704067200000 1706659200000 sampleWorld
    = (Returned pr, sampleWorld) /\
    4 <= calculateWeightedReturn pr <= 10.
Proof.
  eexists. split; [reflexivity |].
  apply (calculateWeightedReturn_bounds sampleWorld 1704067200000%Z
           1706659200000%Z 4 10).
  - intros p [<- | [<- | []]]; repeat split; discriminate.
  - reflexivity.
  - discriminate.
Defined.

Lemma sumQ_Permutation xs ys : Permutation xs ys -> sumQ xs == sumQ ys.
Proof.
  induction 1 as [| x xs ys _ IH | x y xs | xs ys zs _ IH1 _ IH2];
    unfold sumQ in *; cbn [fold_right].
  - reflexivity.
  - now rewrite IH.
  - ring.
  - now rewrite IH1.
Qed.

Lemma Permutation_filter' {A} (f : A -> bool) xs ys :
  Permutation xs ys -> Permutation (filter f xs) (filter f ys).
Proof.
  induction 1 as [| x xs ys _ IH | x y xs | xs ys zs _ IH1 _ IH2];
    cbn [filter].
  - constructor.
  - destruct (f x); [now constructor | exact IH].
  - destruct (f x), (f y); try apply Permutation_refl. constructor.
  - exact (Permutation_trans IH1 IH2).
Qed.

Lemma clientsResolve_incl date w w' :
  users w' = users w ->
  (forall inv, In inv (filter (selected date) (investments w')) ->
               In inv (filter (selected date) (investments w))) ->
  clientsResolve date w = true -> clientsResolve date w' = true.
Proof.
  unfold clientsResolve. intros Hu Hincl H.
  rewrite forallb_forall in *. intros inv Hin. rewrite Hu.
  apply H, Hincl, Hin.
Qed.

(** The corpus does not depend on the order of the ledger: two ledgers
    with the same documents in different orders give the same total corpus
    and the same investment for every client, and list the same clients. *)
Theorem getCorpusAtDate_permutation (w1 w2 : World) (date : Date) :
  users w1 = users w2 ->
  Permutation (investments w1) (investments w2) ->
  clientsResolve date w1 = true ->
  exists cd1 cd2,
    getCorpusAtDate date w1 = (Returned cd1, w1) /\
    getCorpusAtDate date w2 = (Returned cd2, w2) /\
    totalCorpus cd1 == totalCorpus cd2 /\
    (forall id, shareOf cd1 id == shareOf cd2 id) /\
    Permutation (map ClientShare.clientId (clientShares cd1))
      (map ClientShare.clientId (clientShares cd2)).
Proof.
  intros Hu Hperm Hres1.
  pose proof (Permutation_filter' (selected date) _ _ Hperm) as Hsel.
  assert (Hres2 : clientsResolve date w2 = true).
  { apply (clientsResolve_incl date w1 w2 (eq_sym Hu)); [| exact Hres1].
    intros inv Hin. exact (Permutation_in _ (Permutation_sym Hsel) Hin). }
  destruct (corpusAt_facts _ _ Hres1)
    as (cs1 & tot1 & Hcd1 & Htot1 & _ & Hnd1 & Hids1 & Hof1).
  destruct (corpusAt_facts _ _ Hres2)
    as (cs2 & tot2 & Hcd2 & Htot2 & _ & Hnd2 & Hids2 & Hof2).
  eexists _, _.
  split; [rewrite getCorpusAtDate_eq, Hcd1; reflexivity |].
  split; [rewrite getCorpusAtDate_eq, Hcd2; reflexivity |].
  cbn [totalCorpus clientShares]. split; [| split].
  - rewrite !orZero_eq, Htot1, Htot2.
    apply sumQ_Permutation, Permutation_map, Hsel.
  - intros id. rewrite !shareOf_withShare, Hof1, Hof2.
    apply sumQ_Permutation, Permutation_map, Permutation_filter', Hsel.
  - rewrite !withShare_ids. apply NoDup_Permutation; [exact Hnd1 | exact Hnd2 |].
    intros id. rewrite Hids1, Hids2. split; intros H.
    + exact (Permutation_in _ (Permutation_map _ Hsel) H).
    + exact (Permutation_in _ (Permutation_map _ (Permutation_sym Hsel)) H).
Qed.

Lemma getCorpusAtDate_permutation_witness :
  exists cd1 cd2,
    getCorpusAtDate 1706659200000 sampleWorld = (Returned cd1, sampleWorld) /\
    fst (getCorpusAtDate 1706659200000
           (withInvestments sampleWorld (rev (investments sampleWorld))))
    = Returned cd2 /\
    totalCorpus cd1 == totalCorpus cd2.
Proof.
  destruct (getCorpusAtDate_permutation sampleWorld
              (withInvestments sampleWorld (rev (investments sampleWorld)))
              1706659200000%Z)
    as (cd1 & cd2 & H1 & H2 & Htot & _).
  - reflexivity.
  - apply Permutation_rev.
  - vm_compute. reflexivity.
  - exists cd1, cd2. split; [exact H1 |]. split; [now rewrite H2 | exact Htot].
Defined.

Lemma selected_cancelled date inv : selected date (cancelled inv) = false.
Proof. unfold selected, cancelled, Investment.isActive. cbn. apply andb_false_r. Qed.

Lemma cancelAt_sum date (q : Investment.t -> bool) :
  forall invs i inv,
    nth_error invs i = Some inv ->
    selected date inv = true ->
    sumQ (map signedAmount
            (filter q (filter (selected date) (cancelAt i invs))))
    == sumQ (map signedAmount (filter q (filter (selected date) invs)))
       - (if q inv then signedAmount inv else 0).
Proof.
  induction invs as [|x invs IH]; intros [|i] inv Hnth Hsel;
    try discriminate Hnth.
  - injection Hnth as ->. cbn [cancelAt filter].
    rewrite selected_cancelled, Hsel. cbn [filter].
    destruct (q inv); unfold sumQ; cbn [map fold_right]; ring.
  - cbn [nth_error] in Hnth. cbn [cancelAt filter].
    destruct (selected date x); [| exact (IH _ _ Hnth Hsel)].
    cbn [filter]. destruct (q x); [| exact (IH _ _ Hnth Hsel)].
    unfold sumQ in *. cbn [map fold_right].
    rewrite (IH _ _ Hnth Hsel). ring.
Qed.

Lemma cancelAt_incl date :
  forall invs i inv,
    In inv (filter (selected date) (cancelAt i invs)) ->
    In inv (filter (selected date) invs).
Proof.
  induction invs as [|x invs IH]; intros [|i] inv Hin; cbn [cancelAt] in Hin;
    try exact Hin.
  - cbn [filter] in *. rewrite selected_cancelled in Hin.
    destruct (selected date x); [now right | exact Hin].
  - cbn [filter] in *. destruct (selected date x).
    + destruct Hin as [-> | Hin]; [now left | right; eauto].
    + eauto.
Qed.

Lemma cancelAt_unselected date :
  forall invs i inv,
    nth_error invs i = Some inv ->
    selected date inv = false ->
    filter (selected date) (cancelAt i invs) = filter (selected date) invs.
Proof.
  induction invs as [|x invs IH]; intros [|i] inv Hnth Hsel;
    try discriminate Hnth.
  - injection Hnth as ->. cbn [cancelAt filter].
    now rewrite selected_cancelled, Hsel.
  - cbn [nth_error] in Hnth. cbn [cancelAt filter].
    now rewrite (IH _ _ Hnth Hsel).
Qed.

Lemma filter_true {A} (xs : list A) : filter (fun _ => true) xs = xs.
Proof. induction xs as [|x xs IH]; cbn; [| rewrite IH]; reflexivity. Qed.

(** X9. Cancelling an investment, as the soft delete of the admin routes
    does, takes its signed amount out of the corpus at every date that
    selected it, and out of the investment of its client, and changes
    nothing for the other clients; at a date that did not select it, the
    corpus is the same as before. *)
Theorem getCorpusAtDate_cancel (w : World) (date : Date) (i : nat)
  (inv : Investment.t) :
  nth_error (investments w) i = Some inv ->
  clientsResolve date w = true ->
  let w' := withInvestments w (cancelAt i (investments w)) in
  exists cd cd',
    getCorpusAtDate date w = (Returned cd, w) /\
    getCorpusAtDate date w' = (Returned cd', w') /\
    (selected date inv = true ->
     totalCorpus cd' == totalCorpus cd - signedAmount inv /\
     forall id,
       shareOf cd' id
       == shareOf cd id
          - (if N.eqb (Investment.clientId inv) id then signedAmount inv
             else 0)) /\
    (selected date inv = false -> cd' = cd).
Proof.
  intros Hnth Hres w'.
  assert (Hres' : clientsResolve date w' = true).
  { apply (clientsResolve_incl date w w' eq_refl); [| exact Hres].
    intros x Hx. exact (cancelAt_incl _ _ _ _ Hx). }
  destruct (corpusAt_facts _ _ Hres)
    as (cs & tot & Hcd & Htot & _ & _ & _ & Hof).
  destruct (corpusAt_facts _ _ Hres')
    as (cs' & tot' & Hcd' & Htot' & _ & _ & _ & Hof').
  cbn [w' withInvestments investments] in Htot', Hof'.
  eexists _, _.
  split; [rewrite getCorpusAtDate_eq, Hcd; reflexivity |].
  split; [rewrite getCorpusAtDate_eq, Hcd'; reflexivity |].
  split.
  - intros Hsel. cbn [totalCorpus]. split.
    + rewrite !orZero_eq, Htot, Htot'.
      pose proof (cancelAt_sum date (fun _ => true) _ _ _ Hnth Hsel) as H.
      rewrite !filter_true in H. exact H.
    + intros id. rewrite !shareOf_withShare, Hof, Hof'.
      exact (cancelAt_sum date (ofClient id) _ _ _ Hnth Hsel).
  - intros Hsel.
    assert (E : corpusAt (users w') (investments w') date
                = corpusAt (users w) (investments w) date).
    { unfold corpusAt. cbn [w' withInvestments users investments].
      now rewrite (cancelAt_unselected _ _ _ _ Hnth Hsel). }
    rewrite Hcd, Hcd' in E. now injection E as -> ->.
Qed.

Lemma getCorpusAtDate_cancel_witness :
  exists cd cd',
    getCorpusAtDate 1706659200000 sampleWorld = (Returned cd, sampleWorld) /\
    fst (getCorpusAtDate 1706659200000
           (withInvestments sampleWorld
              (cancelAt 1 (investments sampleWorld)))) = Returned cd' /\
    totalCorpus cd' == totalCorpus cd - 500.
Proof.
  destruct (getCorpusAtDate_cancel sampleWorld 1706659200000%Z 1
              (Investment.mk 2 500 1705017600000 Investment.deposit
                 Investment.active))
    as (cd & cd' & H1 & H2 & Hsel & _).
  - reflexivity.
  - vm_compute. reflexivity.
  - exists cd, cd'. split; [exact H1 |]. split; [now rewrite H2 |].
    destruct Hsel as [Htot _]; [vm_compute; reflexivity |]. exact Htot.
Defined.

Lemma selected_split d1 d2 inv :
  (d1 <= d2)%Z ->
  selected d2 inv = selected d1 inv || selectedBetween d1 d2 inv
  /\ selected d1 inv && selectedBetween d1 d2 inv = false.
Proof.
  intros Hle. unfold selectedBetween, selected.
  destruct (Investment.isActive inv); rewrite ?andb_true_r, ?andb_false_r;
    [| split; reflexivity].
  destruct (Z.leb_spec (Investment.investmentDate inv) d1),
    (Z.leb_spec (Investment.investmentDate inv) d2),
    (Z.ltb_spec d1 (Investment.investmentDate inv)); cbn; split;
    try reflexivity; lia.
Qed.

Lemma between_sum d1 d2 (q : Investment.t -> bool) invs :
  (d1 <= d2)%Z ->
  sumQ (map signedAmount (filter q (filter (selected d2) invs)))
  == sumQ (map signedAmount (filter q (filter (selected d1) invs)))
     + sumQ (map signedAmount
               (filter q (filter (selectedBetween d1 d2) invs))).
Proof.
  intros Hle. induction invs as [|x invs IH]; [unfold sumQ; cbn; ring |].
  cbn [filter]. destruct (selected_split d1 d2 x Hle) as [E1 E2].
  rewrite E1.
  destruct (selected d1 x), (selectedBetween d1 d2 x); try discriminate E2;
    cbn [orb filter]; try exact IH;
    (destruct (q x); [| exact IH]);
    unfold sumQ in *; cbn [map fold_right]; rewrite IH; ring.
Qed.

(** X10. The corpus at a later date is the corpus at an earlier date plus the
    signed amounts of the active investments dated in between, in total and
    for every client. *)
Theorem getCorpusAtDate_between (w : World) (d1 d2 : Date) :
  (d1 <= d2)%Z ->
  clientsResolve d2 w = true ->
  let added := filter (selectedBetween d1 d2) (investments w) in
  exists cd1 cd2,
    getCorpusAtDate d1 w = (Returned cd1, w) /\
    getCorpusAtDate d2 w = (Returned cd2, w) /\
    totalCorpus cd2 == totalCorpus cd1 + sumQ (map signedAmount added) /\
    forall id,
      shareOf cd2 id
      == shareOf cd1 id
         + sumQ (map signedAmount (filter (ofClient id) added)).
Proof.
  intros Hle Hres2 added.
  assert (Hres1 : clientsResolve d1 w = true).
  { revert Hres2. unfold clientsResolve. rewrite !forallb_forall.
    intros H inv Hin. apply H. rewrite filter_In in *.
    destruct Hin as [Hin Hsel]. split; [exact Hin |].
    destruct (selected_split d1 d2 inv Hle) as [E _]. rewrite E, Hsel.
    reflexivity. }
  destruct (corpusAt_facts _ _ Hres1)
    as (cs1 & tot1 & Hcd1 & Htot1 & _ & _ & _ & Hof1).
  destruct (corpusAt_facts _ _ Hres2)
    as (cs2 & tot2 & Hcd2 & Htot2 & _ & _ & _ & Hof2).
  eexists _, _.
  split; [rewrite getCorpusAtDate_eq, Hcd1; reflexivity |].
  split; [rewrite getCorpusAtDate_eq, Hcd2; reflexivity |].
  cbn [totalCorpus]. split.
  - rewrite !orZero_eq, Htot1, Htot2.
    pose proof (between_sum d1 d2 (fun _ => true) (investments w) Hle) as H.
    rewrite !filter_true in H. exact H.
  - intros id. rewrite !shareOf_withShare, Hof1, Hof2.
    exact (between_sum d1 d2 (ofClient id) (investments w) Hle).
Qed.

Lemma getCorpusAtDate_between_witness :
  exists cd1 cd2,
    getCorpusAtDate 1706659200000 sampleWorld = (Returned cd1, sampleWorld) /\
    getCorpusAtDate 1709164800000 sampleWorld = (Returned cd2, sampleWorld) /\
    totalCorpus cd2 == totalCorpus cd1 + 900.
Proof.
  destruct (getCorpusAtDate_between sampleWorld 1706659200000%Z
              1709164800000%Z)
    as (cd1 & cd2 & H1 & H2 & Htot & _).
  - lia.
  - vm_compute. reflexivity.
  - exists cd1, cd2. split; [exact H1 |]. split; [exact H2 |].
    rewrite Htot. vm_compute. reflexivity.
Defined.

(** ** The closing balance of the previous month *)

Lemma previousMonth_eq date :
  mkDate (getFullYear date) (getMonth date - 1) 1
  = monthStart (monthIndex date - 1).
Proof. rewrite mkDate_first, monthIndex_eq. f_equal. lia. Qed.

Lemma getPreviousClosingBalance_eq clientId date w :
  getPreviousClosingBalance clientId date w
  = (Returned
       match find (fun m => (MonthlyReturn.month m
                             =? monthStart (monthIndex date - 1))%Z
                            && hasClient clientId m) (monthlyReturns w) with
       | Some previousReturn =>
           match find (fun cr => N.eqb (MonthlyReturn.clientId cr) clientId)
                   (MonthlyReturn.clientReturns previousReturn) with
           | Some clientReturn => MonthlyReturn.closingBalance clientReturn
           | None => 0
           end
       | None => 0
       end, w).
Proof.
  unfold getPreviousClosingBalance. now rewrite previousMonth_eq.
Qed.

Lemma find_upsert_having (P : MonthlyReturn.t -> bool) doc ms :
  P doc = true ->
  find (fun m => (MonthlyReturn.month m =? MonthlyReturn.month doc)%Z && P m)
    (upsert doc ms) = Some doc.
Proof.
  intros HP. induction ms as [|m ms IH]; cbn [upsert find].
  - now rewrite Z.eqb_refl, HP.
  - destruct (MonthlyReturn.month m =? MonthlyReturn.month doc)%Z eqn:E.
    + cbn [find]. now rewrite Z.eqb_refl, HP.
    + cbn [find]. rewrite E. exact IH.
Qed.

Lemma find_clientReturnOf pct shares s :
  NoDup (map ClientShare.clientId shares) ->
  In s shares ->
  find (fun cr => N.eqb (MonthlyReturn.clientId cr) (ClientShare.clientId s))
    (map (clientReturnOf pct) shares)
  = Some (clientReturnOf pct s).
Proof.
  induction shares as [|x shares IH]; intros Hnd Hin; [destruct Hin |].
  destruct Hin as [-> | Hin].
  - cbn [map find clientReturnOf MonthlyReturn.clientId].
    now rewrite N.eqb_refl.
  - cbn [map find]. cbn [map] in Hnd. inversion Hnd as [|? ? Hx Hnd']; subst.
    cbn [clientReturnOf MonthlyReturn.clientId].
    destruct (N.eqb_spec (ClientShare.clientId x) (ClientShare.clientId s))
      as [E | _]; [| exact (IH Hnd' Hin)].
    exfalso. apply Hx. rewrite E. now apply in_map.
Qed.

(** X11. [getPreviousClosingBalance] only reads the store.  Its result is 0
    when no stored snapshot of the month before that of [date] lists the
    client; the month before January is December of the year before.  After
    [calculateMonthlyReturns] for a month, the closing balance found from
    any date of the following month, for a client of the corpus, is the
    client's investment plus the return of that month. *)
Theorem getPreviousClosingBalance_spec (w : World) (clientId : ObjectId)
  (date : Date) :
  (exists balance,
      getPreviousClosingBalance clientId date w = (Returned balance, w) /\
      ((forall m, In m (monthlyReturns w) ->
                  MonthlyReturn.month m = monthStart (monthIndex date - 1) ->
                  hasClient clientId m = false) ->
       balance = 0)) /\
  (getMonth date = 0%Z ->
   monthStart (monthIndex date - 1) = mkDate (getFullYear date - 1) 11 1) /\
  (forall monthDate cd,
      (monthIndex date = monthIndex monthDate + 1)%Z ->
      clientsResolve (endOfMonth monthDate) w = true ->
      getCorpusAtDate (endOfMonth monthDate) w = (Returned cd, w) ->
      In clientId (map ClientShare.clientId (clientShares cd)) ->
      let w' := snd (calculateMonthlyReturns monthDate w) in
      exists doc,
        findMonth (startOfMonth monthDate) (monthlyReturns w') = Some doc /\
        getPreviousClosingBalance clientId date w'
        = (Returned
             (shareOf cd clientId
              + shareOf cd clientId
                * (MonthlyReturn.monthlyReturnPercentage doc / 100)), w')).
Proof.
  split; [| split].
  - eexists. split; [apply getPreviousClosingBalance_eq |].
    intros Hnone.
    destruct (find _ (monthlyReturns w)) as [m |] eqn:E; [| reflexivity].
    apply find_some in E. destruct E as [Hin Hm].
    apply andb_prop in Hm. destruct Hm as [Hm Hc].
    apply Z.eqb_eq in Hm. rewrite (Hnone m Hin Hm) in Hc. discriminate.
  - intros H0. rewrite mkDate_first, monthIndex_eq, H0. f_equal. lia.
  - intros monthDate cd Hidx Hres Hrun Hin w'.
    destruct (corpusAt_facts _ _ Hres)
      as (cs & tot & Hcd & _ & _ & Hnd & _).
    rewrite getCorpusAtDate_eq, Hcd in Hrun. injection Hrun as <-.
    set (cd := mkCorpusData (orZero tot) (map (withShare tot) cs)) in *.
    set (doc := snapshotOf (platformInvestments w) monthDate cd
                  (clock w (ticks w))).
    assert (Hw' : w' = afterCalculation w (upsert doc (monthlyReturns w))).
    { unfold w'. now rewrite calculateMonthlyReturns_eq, Hcd. }
    exists doc. rewrite Hw'. cbn [afterCalculation monthlyReturns].
    split; [apply (findMonth_upsert doc) |].
    rewrite getPreviousClosingBalance_eq. cbn [afterCalculation monthlyReturns].
    f_equal. f_equal.
    assert (Hmonth : monthStart (monthIndex date - 1)
                     = MonthlyReturn.month doc).
    { unfold doc. rewrite snapshotOf_month, startOfMonth_eq. f_equal. lia. }
    rewrite Hmonth.
    apply in_map_iff in Hin. destruct Hin as (s & <- & Hs).
    assert (Hfind : find (fun cr => N.eqb (MonthlyReturn.clientId cr)
                                      (ClientShare.clientId s))
                      (MonthlyReturn.clientReturns doc)
                    = Some (clientReturnOf
                              (MonthlyReturn.monthlyReturnPercentage doc) s)).
    { unfold doc, snapshotOf.
      cbn [MonthlyReturn.clientReturns MonthlyReturn.monthlyReturnPercentage].
      apply find_clientReturnOf; [| exact Hs].
      unfold cd. cbn [clientShares]. rewrite withShare_ids. exact Hnd. }
    rewrite (find_upsert_having (hasClient (ClientShare.clientId s)) doc).
    2:{ unfold hasClient. apply existsb_exists.
        apply find_some in Hfind. destruct Hfind as [Hf1 Hf2]. eauto. }
    rewrite Hfind. cbn [clientReturnOf MonthlyReturn.closingBalance].
    assert (Hshare : shareOf cd (ClientShare.clientId s)
                     = ClientShare.totalInvestment s).
    { unfold shareOf.
      assert (F : find (fun x => N.eqb (ClientShare.clientId x)
                                   (ClientShare.clientId s))
                    (clientShares cd) = Some s).
      { assert (Hnd' : NoDup (map ClientShare.clientId (clientShares cd)))
          by (unfold cd; cbn [clientShares]; rewrite withShare_ids;
              exact Hnd).
        revert Hs Hnd'. generalize (clientShares cd) as shares.
        induction shares as [|x shares IH]; intros Hin Hnd';
          [destruct Hin |]. destruct Hin as [-> | Hin].
        - cbn [find]. now rewrite N.eqb_refl.
        - cbn [find]. cbn [map] in Hnd'.
          inversion Hnd' as [|? ? Hx Hnd'']; subst.
          destruct (N.eqb_spec (ClientShare.clientId x)
                      (ClientShare.clientId s)) as [E | _];
            [| exact (IH Hin Hnd'')].
          exfalso. apply Hx. rewrite E. now apply in_map. }
      now rewrite F. }
    rewrite Hshare. reflexivity.
Qed.

Lemma getPreviousClosingBalance_spec_witness :
  let w' := snd (calculateMonthlyReturns 1704067200000 sampleWorld) in
  exists cd,
    getCorpusAtDate (endOfMonth 1704067200000) sampleWorld
    = (Returned cd, sampleWorld) /\
    exists doc,
      findMonth (startOfMonth 1704067200000) (monthlyReturns w') = Some doc /\
      getPreviousClosingBalance 1 1706745600000 w'
      = (Returned
           (shareOf cd 1
            + shareOf cd 1
              * (MonthlyReturn.monthlyReturnPercentage doc / 100)), w').
Proof.
  cbv zeta. eexists. split; [vm_compute; reflexivity |].
  apply (proj2 (proj2 (getPreviousClosingBalance_spec sampleWorld 1%N
                         1706745600000%Z)) 1704067200000%Z).
  - vm_compute. reflexivity.
  - vm_compute. reflexivity.
  - vm_compute. reflexivity.
  - vm_compute. auto.
Defined.

(** ** What the interpolation keeps *)

(** A property of the weekly data that every creation of a row by the
    interpolator preserves holds after the loop for a platform, whatever
    the outcome. *)
Lemma weeksLoop_invariant (J : list WeeklyPlatformData.t -> Prop)
  platform existingWeeks startDate endDate :
  (forall ws i b a,
      let p := PlatformInvestment._id platform in
      let c := weekAt startDate i in
      (c <= endDate)%Z -> J ws ->
      nearestBefore p c ws = Some b -> nearestAfter p c ws = Some a ->
      existsb (startsAt p c) ws = false ->
      J (ws ++ [interpolatedRow p c b a])) ->
  forall fuel i w o w',
    J (weeklyPlatformData w) ->
    weeksLoop fuel platform existingWeeks (weekAt startDate i) endDate w
    = (o, w') ->
    J (weeklyPlatformData w').
Proof.
  intros Hstep. induction fuel as [|fuel IH]; intros i w o w' HJ H.
  - injection H as <- <-. exact HJ.
  - cbn [weeksLoop] in H.
    destruct (weekAt startDate i <=? endDate)%Z eqn:Hle.
    2:{ injection H as <- <-. exact HJ. }
    apply Z.leb_le in Hle.
    unfold bind at 1 in H. rewrite interpolateWeek_eq in H. cbv zeta in H.
    rewrite setDate_plus in H.
    replace (weekAt startDate i + 7 * msPerDay)%Z
      with (weekAt startDate (S i)) in H by dates.
    destruct (weekExists existingWeeks (weekAt startDate i));
      [exact (IH _ _ _ _ HJ H) |].
    destruct (nearestBefore _ _ _) as [b |] eqn:Eb;
      [| exact (IH _ _ _ _ HJ H)].
    destruct (nearestAfter _ _ _) as [a |] eqn:Ea;
      [| exact (IH _ _ _ _ HJ H)].
    destruct (js_isNaN _); [injection H as <- <-; exact HJ |].
    destruct (existsb _ _) eqn:Ex; [injection H as <- <-; exact HJ |].
    refine (IH _ _ _ _ _ H). cbn [withWeeklyPlatformData weeklyPlatformData].
    exact (Hstep _ _ _ _ Hle HJ Eb Ea Ex).
Qed.

Lemma forOf_interpolate_invariant (J : list WeeklyPlatformData.t -> Prop)
  startDate endDate platforms :
  (forall platform ws i b a,
      In platform platforms ->
      let p := PlatformInvestment._id platform in
      let c := weekAt startDate i in
      (c <= endDate)%Z -> J ws ->
      nearestBefore p c ws = Some b -> nearestAfter p c ws = Some a ->
      existsb (startsAt p c) ws = false ->
      J (ws ++ [interpolatedRow p c b a])) ->
  forall w o w',
    J (weeklyPlatformData w) ->
    forOf platforms (interpolatePlatform startDate endDate) w = (o, w') ->
    J (weeklyPlatformData w') /\
    w' = withWeeklyPlatformData w (weeklyPlatformData w').
Proof.
  induction platforms as [|q qs IH]; intros Hstep w o w' HJ H.
  - injection H as <- <-. split; [exact HJ | now destruct w].
  - cbn [forOf] in H. unfold bind in H.
    destruct (interpolatePlatform startDate endDate q w) as [o1 w1] eqn:E1.
    assert (HJ1 : J (weeklyPlatformData w1)).
    { rewrite interpolatePlatform_eq in E1.
      refine (weeksLoop_invariant J q _ startDate endDate _ _ 0%nat w o1 w1
                HJ _).
      - intros ws i b a. apply Hstep. now left.
      - rewrite <- E1. f_equal. unfold weekAt. cbn. lia. }
    destruct (interpolatePlatform_frame _ _ _ _ _ _ E1) as (rows1 & Hw1 & _).
    assert (F1 : w1 = withWeeklyPlatformData w (weeklyPlatformData w1)).
    { rewrite Hw1 at 1. now rewrite Hw1. }
    destruct o1 as [[] | e |].
    + destruct (IH (fun p ws i b a Hin => Hstep p ws i b a (or_intror Hin))
                  _ _ _ HJ1 H) as (HJ' & F').
      split; [exact HJ' |]. rewrite F' at 1. rewrite F1 at 1.
      apply withWeeklyPlatformData_twice.
    + injection H as <- <-. split; assumption.
    + injection H as <- <-. split; assumption.
Qed.

Lemma interpolateMissingWeeks_eq startDate endDate w :
  interpolateMissingWeeks startDate endDate w
  = forOf (filter PlatformInvestment.isActive (platformInvestments w))
      (interpolatePlatform startDate endDate) w.
Proof. reflexivity. Qed.

Lemma interpolateMissingWeeks_invariant
  (J : list WeeklyPlatformData.t -> Prop) startDate endDate w :
  (forall platform ws i b a,
      In platform (platformInvestments w) ->
      PlatformInvestment.isActive platform = true ->
      let p := PlatformInvestment._id platform in
      let c := weekAt startDate i in
      (c <= endDate)%Z -> J ws ->
      nearestBefore p c ws = Some b -> nearestAfter p c ws = Some a ->
      existsb (startsAt p c) ws = false ->
      J (ws ++ [interpolatedRow p c b a])) ->
  J (weeklyPlatformData w) ->
  let w' := snd (interpolateMissingWeeks startDate endDate w) in
  J (weeklyPlatformData w') /\
  w' = withWeeklyPlatformData w (weeklyPlatformData w').
Proof.
  intros Hstep HJ. cbv zeta. rewrite interpolateMissingWeeks_eq.
  destruct (forOf _ _ w) as [o w'] eqn:E. cbn [snd].
  refine (forOf_interpolate_invariant J startDate endDate _ _ w o w' HJ E).
  intros platform ws i b a Hin. apply filter_In in Hin.
  destruct Hin as [Hin Hact]. now apply Hstep.
Qed.

Lemma interpolatedRow_autoRow p startDate endDate i b a :
  (weekAt startDate i <= endDate)%Z ->
  autoRow p startDate endDate (interpolatedRow p (weekAt startDate i) b a).
Proof.
  intros Hle. unfold autoRow, interpolatedRow.
  cbn [WeeklyPlatformData.platformId WeeklyPlatformData.weekStartDate
         WeeklyPlatformData.weekEndDate WeeklyPlatformData.weekNumber
         WeeklyPlatformData.year WeeklyPlatformData.profitAmount
         WeeklyPlatformData.closingValue WeeklyPlatformData.openingValue
         WeeklyPlatformData.isInterpolated WeeklyPlatformData.enteredBy
         WeeklyPlatformData.notes].
  repeat split; eauto; try (unfold getTime, msPerDay; lia).
Qed.


(** [interpolateMissingWeeks] keeps the pairs of platform and week start
    distinct: from weekly data without two rows of the same platform for
    the same instant, it leaves weekly data without two such rows. *)
Theorem interpolateMissingWeeks_unique_weeks (w : World)
  (startDate endDate : Date) :
  NoDup (map weekKey (weeklyPlatformData w)) ->
  NoDup (map weekKey
           (weeklyPlatformData
              (snd (interpolateMissingWeeks startDate endDate w)))).
Proof.
  intros Hnd.
  apply (interpolateMissingWeeks_invariant
           (fun ws => NoDup (map weekKey ws)) startDate endDate w);
    [| exact Hnd].
  intros platform ws i b a _ _ p c _ HJ _ _ Hex.
  rewrite map_app. apply NoDup_app; [exact HJ | repeat constructor; intros [] |].
  intros k Hk [<- | []].
  apply in_map_iff in Hk. destruct Hk as (r & Hr & Hin).
  assert (F : existsb (startsAt p c) ws = true).
  { apply existsb_exists. exists r. split; [exact Hin |].
    unfold weekKey, interpolatedRow in Hr.
    cbn [WeeklyPlatformData.platformId WeeklyPlatformData.weekStartDate] in Hr.
    injection Hr as Hp Hc. unfold startsAt, ofPlatform.
    rewrite Hp, Hc, N.eqb_refl, Z.eqb_refl. reflexivity. }
  congruence.
Qed.

Lemma interpolateMissingWeeks_unique_weeks_witness :
  NoDup (map weekKey
           (weeklyPlatformData
              (snd (interpolateMissingWeeks 1704067200000 1706659200000
                      gapWorld)))).
Proof.
  apply interpolateMissingWeeks_unique_weeks.
  cbn [gapWorld weeklyPlatformData map weekKey enteredWeek
         WeeklyPlatformData.platformId WeeklyPlatformData.weekStartDate].
  constructor; [intros [H | []]; discriminate H |].
  constructor; [intros [] | constructor].
Defined.

Lemma forOf_interpolate_outcome startDate endDate platforms :
  forall w,
    let o := fst (forOf platforms (interpolatePlatform startDate endDate) w) in
    o = Returned tt \/ o = Thrown CastError.
Proof.
  induction platforms as [|q qs IH]; intros w; cbv zeta.
  - now left.
  - cbn [forOf]. unfold bind.
    pose proof (interpolatePlatform_outcome startDate endDate q w) as H.
    cbv zeta in H.
    destruct (interpolatePlatform startDate endDate q w) as [o1 w1].
    cbn [fst] in H. destruct H as [-> | ->]; [apply IH | now right].
Qed.





(** ** Sorting and the lookups by identifier *)

Lemma insertBy_Permutation {A} (key : A -> Z) x xs :
  Permutation (insertBy key x xs) (x :: xs).
Proof.
  induction xs as [|y ys IH]; cbn [insertBy]; [apply Permutation_refl |].
  destruct (key x <=? key y)%Z; [apply Permutation_refl |].
  eapply Permutation_trans; [apply perm_skip, IH | apply perm_swap].
Qed.

Lemma sortBy_Permutation {A} (key : A -> Z) xs :
  Permutation (sortBy key xs) xs.
Proof.
  induction xs as [|x xs IH]; [apply Permutation_refl |].
  unfold sortBy in *. cbn [fold_right].
  eapply Permutation_trans; [apply insertBy_Permutation |].
  now apply perm_skip.
Qed.

Lemma insertBy_sorted {A} (key : A -> Z) x xs :
  StronglySorted (fun a b => (key a <= key b)%Z) xs ->
  StronglySorted (fun a b => (key a <= key b)%Z) (insertBy key x xs).
Proof.
  induction 1 as [|y ys Hs IH Hy]; cbn [insertBy].
  - repeat constructor.
  - destruct (Z.leb_spec (key x) (key y)) as [Hle | Hlt].
    + constructor; [now constructor |].
      constructor; [exact Hle |].
      eapply Forall_impl; [| exact Hy]. cbn. intros a Ha. lia.
    + constructor; [exact IH |].
      rewrite Forall_forall. intros a Ha. apply In_insertBy in Ha.
      destruct Ha as [-> | Ha]; [lia |].
      rewrite Forall_forall in Hy. now apply Hy.
Qed.

Lemma sortBy_sorted {A} (key : A -> Z) xs :
  StronglySorted (fun a b => (key a <= key b)%Z) (sortBy key xs).
Proof.
  induction xs as [|x xs IH]; [constructor |].
  unfold sortBy in *. cbn [fold_right]. now apply insertBy_sorted.
Qed.

Lemma sorted_firstn_skipn {A} (R : A -> A -> Prop) n xs :
  StronglySorted R xs ->
  StronglySorted R (firstn n xs) /\
  forall a b, In a (firstn n xs) -> In b (skipn n xs) -> R a b.
Proof.
  intros H. revert n. induction H as [|x xs Hs IH Hx]; intros n.
  - rewrite firstn_nil, skipn_nil. split; [constructor | intros a b []].
  - destruct n as [|n]; cbn [firstn skipn].
    + split; [constructor | intros a b []].
    + destruct (IH n) as [IH1 IH2]. split.
      * constructor; [exact IH1 |].
        rewrite Forall_forall in *. intros a Ha. apply Hx.
        rewrite <- (firstn_skipn n xs). apply in_or_app. now left.
      * intros a b [<- | Ha] Hb; [| now apply IH2].
        rewrite Forall_forall in Hx. apply Hx.
        rewrite <- (firstn_skipn n xs). apply in_or_app. now right.
Qed.

(** ** The read-only routes *)

Lemma StronglySorted_impl {A} (R R' : A -> A -> Prop) xs :
  (forall a b, R a b -> R' a b) ->
  StronglySorted R xs -> StronglySorted R' xs.
Proof.
  intros HR. induction 1 as [|x xs Hs IH Hx]; constructor;
    [exact IH | eapply Forall_impl; [| exact Hx]; auto].
Qed.

(** X16. GET /monthly-returns/recent only reads the store.  It answers with
    the twelve stored snapshots of the latest months (all of them when
    there are fewer), latest first: no snapshot that is left out is of a
    later month than one that is returned; each entry carries the sum of
    the returns of its clients. *)
Theorem recentMonthlyReturns_latest (w : World) :
  exists recent older result,
    recentMonthlyReturns w = (Returned result, w) /\
    Permutation (recent ++ older) (monthlyReturns w) /\
    length recent = Nat.min 12 (length (monthlyReturns w)) /\
    StronglySorted
      (fun a b => (MonthlyReturn.month b <= MonthlyReturn.month a)%Z)
      recent /\
    (forall a b, In a recent -> In b older ->
                 (MonthlyReturn.month b <= MonthlyReturn.month a)%Z) /\
    Forall2
      (fun m r =>
         RecentReturn.month r = MonthlyReturn.month m /\
         RecentReturn.totalCorpus r = MonthlyReturn.totalCorpus m /\
         RecentReturn.monthlyReturnPercentage r
         = MonthlyReturn.monthlyReturnPercentage m /\
         RecentReturn.clientReturns r = MonthlyReturn.clientReturns m /\
         RecentReturn.calculatedAt r = MonthlyReturn.calculatedAt m /\
         RecentReturn.totalReturns r
         == sumQ (map MonthlyReturn.returnAmount
                    (MonthlyReturn.clientReturns m)))
      recent result.
Proof.
  set (sorted := sortBy (fun m => (- MonthlyReturn.month m)%Z)
                   (monthlyReturns w)).
  exists (firstn 12 sorted), (skipn 12 sorted).
  eexists. split; [reflexivity |].
  split; [rewrite firstn_skipn; apply sortBy_Permutation |].
  split.
  { rewrite length_firstn. f_equal.
    apply Permutation_length, sortBy_Permutation. }
  destruct (sorted_firstn_skipn
              (fun a b => (- MonthlyReturn.month a
                           <= - MonthlyReturn.month b)%Z)
              12 sorted (sortBy_sorted _ _)) as [H1 H2].
  split.
  { eapply StronglySorted_impl; [| exact H1]. cbn. intros a b H. lia. }
  split.
  { intros a b Ha Hb. pose proof (H2 a b Ha Hb). lia. }
  fold sorted. generalize (firstn 12 sorted) as ms.
  induction ms as [|m ms IH]; cbn [map]; constructor; [| exact IH].
  cbn [RecentReturn.month RecentReturn.totalCorpus
         RecentReturn.monthlyReturnPercentage RecentReturn.clientReturns
         RecentReturn.calculatedAt RecentReturn.totalReturns].
  repeat split.
  rewrite fold_left_Qplus. ring.
Qed.

Lemma mapAsync_clientEntry clientId w :
  forall ms,
    Forall (fun m => hasClient clientId m = true) ms ->
    exists rets,
      mapAsync (clientEntry clientId) ms w = (Returned rets, w) /\
      Forall2
        (fun m r =>
           exists cr,
             find (fun cr => N.eqb (MonthlyReturn.clientId cr) clientId)
               (MonthlyReturn.clientReturns m) = Some cr /\
             PortfolioReturn.month r = MonthlyReturn.month m /\
             PortfolioReturn.closingBalance r
             = MonthlyReturn.closingBalance cr) ms rets.
Proof.
  induction 1 as [|m ms Hm _ IH].
  - exists []. split; [reflexivity | constructor].
  - destruct IH as (rets & Hrun & Hall).
    unfold hasClient in Hm. apply existsb_exists in Hm.
    destruct Hm as (cr0 & Hin0 & Hcr0).
    destruct (find (fun cr => N.eqb (MonthlyReturn.clientId cr) clientId)
                (MonthlyReturn.clientReturns m)) as [cr |] eqn:E.
    2:{ exfalso. pose proof (find_none _ _ E cr0 Hin0) as F. cbn in F.
        congruence. }
    eexists (_ :: rets). split.
    + cbn [mapAsync]. unfold bind.
      assert (E1 : clientEntry clientId m w
                   = (Returned
                        (PortfolioReturn.mk (MonthlyReturn.month m)
                           (MonthlyReturn.totalCorpus m)
                           (MonthlyReturn.sharePercentage cr)
                           (MonthlyReturn.investmentShare cr)
                           (MonthlyReturn.returnAmount cr)
                           (MonthlyReturn.closingBalance cr)
                           (MonthlyReturn.monthlyReturnPercentage m)), w))
        by (unfold clientEntry; rewrite E; reflexivity).
      rewrite E1, Hrun. reflexivity.
    + constructor; [| exact Hall]. exists cr. repeat split; auto.
Qed.

Lemma toFixed2_zero x : x == 0 -> toFixed2 x == 0.
Proof.
  intros Hx. destruct (toFixed2_spec x) as (n & Hn & Herr).
  set (t := toFixed2 x) in *. clearbody t.
  rewrite Hx in Herr. rewrite Hn in Herr |- *.
  assert (E : inject_Z n / 100 - 0 == inject_Z n / 100) by ring.
  rewrite E in Herr. apply Qabs_Qle_condition in Herr.
  destruct Herr as [L U].
  assert (Hn0 : n = 0%Z).
  { unfold Qle, Qdiv, Qmult, Qinv, inject_Z in L, U. cbn in L, U. lia. }
  subst n. reflexivity.
Qed.

Lemma getPortfolio_total w clientId :
  exists invs rets s,
    getPortfolio clientId w = (Returned (Portfolio invs rets s), w) /\
    totalInvested s
    == sumQ (map signedAmount
               (filter (fun inv => N.eqb (Investment.clientId inv) clientId
                                   && Investment.isActive inv)
                  (investments w))).
Proof.
  set (mine := filter _ (investments w)).
  set (ms := sortBy MonthlyReturn.month
               (filter (hasClient clientId) (monthlyReturns w))).
  assert (Hms : Forall (fun m => hasClient clientId m = true) ms).
  { rewrite Forall_forall. intros m Hm. apply In_sortBy in Hm.
    apply filter_In in Hm. tauto. }
  destruct (mapAsync_clientEntry clientId w ms Hms) as (rets & Hrun & _).
  eexists _, rets, _. split.
  { unfold getPortfolio, catchAs, bind, getWorld. fold mine ms.
    rewrite Hrun. reflexivity. }
  cbn [totalInvested]. rewrite fold_left_Qplus, Qplus_0_l.
  apply sumQ_Permutation, Permutation_map, sortBy_Permutation.
Qed.

(** X17. GET /clients/:clientId/portfolio always answers with a portfolio
    and only reads the store.  The invested total is the sum of the signed
    amounts of the active investments of the client; the monthly entries
    are those of the stored snapshots that list the client; the current
    value is the closing balance of the client in the latest such
    snapshot, and the invested total when there is none; the return
    percentage is 0 when the invested total is not positive, and also when
    there is no snapshot. *)
Theorem getPortfolio_spec (w : World) (clientId : ObjectId) :
  let mine := filter (fun inv => N.eqb (Investment.clientId inv) clientId
                                 && Investment.isActive inv)
                (investments w) in
  let snapshots := filter (hasClient clientId) (monthlyReturns w) in
  exists invs rets s,
    getPortfolio clientId w = (Returned (Portfolio invs rets s), w) /\
    Permutation invs mine /\
    totalInvested s == sumQ (map signedAmount mine) /\
    totalReturns s = currentValue s - totalInvested s /\
    length rets = length snapshots /\
    (snapshots = [] ->
     currentValue s = totalInvested s /\ returnPercentage s == 0) /\
    (snapshots <> [] ->
     exists m cr,
       In m snapshots /\
       (forall m', In m' snapshots ->
                   (MonthlyReturn.month m' <= MonthlyReturn.month m)%Z) /\
       find (fun cr => N.eqb (MonthlyReturn.clientId cr) clientId)
         (MonthlyReturn.clientReturns m) = Some cr /\
       currentValue s = MonthlyReturn.closingBalance cr) /\
    (totalInvested s <= 0 -> returnPercentage s = 0).
Proof.
  intros mine snapshots.
  set (invs := sortBy Investment.investmentDate mine).
  set (ms := sortBy MonthlyReturn.month snapshots).
  assert (Hms : Forall (fun m => hasClient clientId m = true) ms).
  { rewrite Forall_forall. intros m Hm. apply In_sortBy in Hm.
    unfold snapshots in Hm. apply filter_In in Hm. tauto. }
  destruct (mapAsync_clientEntry clientId w ms Hms) as (rets & Hrun & Hall).
  assert (Hperm : Permutation ms snapshots) by apply sortBy_Permutation.
  assert (Hlen : length rets = length snapshots).
  { rewrite <- (Forall2_length Hall). now apply Permutation_length. }
  set (ti := fold_left (fun sum inv => sum + signedAmount inv) invs 0).
  set (cv := match rev rets with
             | last :: _ => PortfolioReturn.closingBalance last
             | [] => ti
             end).
  exists invs, rets,
    (mkSummary ti cv (cv - ti)
       (if Qlt_le_dec 0 ti then toFixed2 ((cv - ti) / ti * 100) else 0)).
  split.
  { unfold getPortfolio, catchAs, bind, getWorld.
    fold mine snapshots invs ms. rewrite Hrun. reflexivity. }
  split; [apply sortBy_Permutation |].
  cbn [totalInvested totalReturns currentValue returnPercentage].
  split.
  { unfold ti. rewrite fold_left_Qplus, Qplus_0_l.
    apply sumQ_Permutation, Permutation_map, sortBy_Permutation. }
  split; [reflexivity |]. split; [exact Hlen |].
  split; [| split].
  - intros Hnil. rewrite Hnil in Hlen. destruct rets; [| discriminate Hlen].
    unfold cv. cbn [rev]. split; [reflexivity |].
    destruct (Qlt_le_dec 0 ti) as [Hpos | _]; [| reflexivity].
    apply toFixed2_zero. field. intros E. rewrite E in Hpos. discriminate.
  - intros Hne.
    assert (Hms_ne : ms <> []).
    { intros E. rewrite E in Hperm. apply Permutation_nil in Hperm.
      contradiction. }
    destruct (exists_last Hms_ne) as (ms0 & m & Ems).
    rewrite Ems in Hall. apply Forall2_app_inv_l in Hall.
    destruct Hall as (rets0 & rets1 & Hall0 & Hall1 & ->).
    inversion Hall1 as [|? r ? rest (cr & Hcr & _ & Hcb) Hnil]; subst.
    inversion Hnil; subst.
    exists m, cr.
    assert (Hin : In m ms) by (rewrite Ems; apply in_or_app; right; now left).
    split; [exact (Permutation_in _ Hperm Hin) |].
    split.
    + intros m' Hm'.
      apply (Permutation_in _ (Permutation_sym Hperm)) in Hm'.
      pose proof (sortBy_sorted MonthlyReturn.month snapshots) as Hs.
      fold ms in Hs. rewrite Ems in Hs, Hm'.
      apply in_app_or in Hm'. destruct Hm' as [Hm' | [<- | []]]; [| lia].
      clear - Hs Hm'. induction ms0 as [|x xs IH]; [destruct Hm' |].
      cbn [app] in Hs. inversion Hs as [|? ? Hs' Hx]; subst.
      destruct Hm' as [<- | Hm']; [| now apply IH].
      rewrite Forall_forall in Hx. apply Hx. apply in_or_app. right. now left.
    + split; [exact Hcr |]. unfold cv.
      rewrite rev_app_distr. cbn [rev app]. exact Hcb.
  - intros Hle. destruct (Qlt_le_dec 0 ti) as [Hpos | _]; [| reflexivity].
    exfalso. exact (Qlt_not_le _ _ Hpos Hle).
Qed.

(** X18. The invested total of the portfolio of a client is the investment
    of that client in the corpus, at every date that is not earlier than
    any active investment of the client. *)
Theorem getPortfolio_matches_corpus (w : World) (clientId : ObjectId)
  (date : Date) :
  clientsResolve date w = true ->
  (forall inv, In inv (investments w) ->
               Investment.clientId inv = clientId ->
               Investment.isActive inv = true ->
               (Investment.investmentDate inv <= date)%Z) ->
  exists cd invs rets s,
    getCorpusAtDate date w = (Returned cd, w) /\
    getPortfolio clientId w = (Returned (Portfolio invs rets s), w) /\
    totalInvested s == shareOf cd clientId.
Proof.
  intros Hres Hdates.
  destruct (corpusAt_facts _ _ Hres) as (cs & tot & Hcd & _ & _ & _ & _ & Hof).
  destruct (getPortfolio_total w clientId) as (invs & rets & s & Hrun & Hti).
  eexists _, invs, rets, s.
  split; [rewrite getCorpusAtDate_eq, Hcd; reflexivity |].
  split; [exact Hrun |].
  rewrite shareOf_withShare, Hof, Hti, filter_filter.
  assert (E : filter (fun inv => N.eqb (Investment.clientId inv) clientId
                                 && Investment.isActive inv) (investments w)
              = filter (fun x => selected date x && ofClient clientId x)
                  (investments w)).
  { apply filter_ext_in. intros inv Hin.
    unfold selected, ofClient.
    destruct (N.eqb_spec (Investment.clientId inv) clientId) as [E | N];
      [| now rewrite andb_false_r].
    destruct (Investment.isActive inv) eqn:Ea;
      [| now destruct (Investment.investmentDate inv <=? date)%Z].
    rewrite (proj2 (Z.leb_le _ _) (Hdates inv Hin E Ea)). reflexivity. }
  rewrite E. reflexivity.
Qed.

Lemma getPortfolio_matches_corpus_witness :
  exists cd invs rets s,
    getCorpusAtDate 1706659200000 sampleWorld = (Returned cd, sampleWorld) /\
    getPortfolio 1 sampleWorld = (Returned (Portfolio invs rets s), sampleWorld)
    /\ totalInvested s == shareOf cd 1.
Proof.
  apply (getPortfolio_matches_corpus sampleWorld 1%N 1706659200000%Z).
  - vm_compute; reflexivity.
  - intros inv [<- | [<- | [<- | [<- | [<- | []]]]]] Hc Ha;
      try discriminate Hc; try discriminate Ha; discriminate.
Defined.

(** ** The platform routes *)

Lemma find_replacePlatform_same platform ps p0 :
  find (fun p => N.eqb (PlatformInvestment._id p)
                   (PlatformInvestment._id platform)) ps = Some p0 ->
  find (fun p => N.eqb (PlatformInvestment._id p)
                   (PlatformInvestment._id platform))
    (replacePlatform platform ps) = Some platform.
Proof.
  induction ps as [|p ps IH]; cbn [find replacePlatform]; [discriminate |].
  destruct (N.eqb (PlatformInvestment._id p)
              (PlatformInvestment._id platform)) eqn:E.
  - intros _. cbn [find]. now rewrite N.eqb_refl.
  - intros H. cbn [find]. rewrite E. exact (IH H).
Qed.

Lemma find_replacePlatform_other platform ps id :
  id <> PlatformInvestment._id platform ->
  find (fun p => N.eqb (PlatformInvestment._id p) id)
    (replacePlatform platform ps)
  = find (fun p => N.eqb (PlatformInvestment._id p) id) ps.
Proof.
  intros Hne. induction ps as [|p ps IH]; cbn [find replacePlatform];
    [reflexivity |].
  destruct (N.eqb_spec (PlatformInvestment._id p)
              (PlatformInvestment._id platform)) as [E | N].
  - cbn [find].
    destruct (N.eqb_spec (PlatformInvestment._id platform) id) as [E1 | _];
      [congruence |].
    destruct (N.eqb_spec (PlatformInvestment._id p) id) as [E2 | _];
      [congruence | reflexivity].
  - cbn [find]. now rewrite IH.
Qed.

Lemma replacePlatform_ids platform ps :
  map PlatformInvestment._id (replacePlatform platform ps)
  = map PlatformInvestment._id ps.
Proof.
  induction ps as [|p ps IH]; cbn [map replacePlatform]; [reflexivity |].
  destruct (N.eqb_spec (PlatformInvestment._id p)
              (PlatformInvestment._id platform)) as [E | N]; cbn [map].
  - now rewrite E.
  - now rewrite IH.
Qed.

Lemma find_platform_id id ps p :
  find (fun p => N.eqb (PlatformInvestment._id p) id) ps = Some p ->
  PlatformInvestment._id p = id.
Proof. intros H. apply find_some in H. now apply N.eqb_eq. Qed.

Lemma weeklyReturn_NaN opening closing :
  js_isNaN (js_scale (js_div (closing - opening) opening) 100) = true
  <-> opening == 0 /\ closing == 0.
Proof.
  unfold js_div.
  destruct (Qeq_bool opening 0) eqn:Eo.
  - apply Qeq_bool_iff in Eo.
    destruct (Qeq_bool (closing - opening) 0) eqn:Ec; cbn.
    + apply Qeq_bool_iff in Ec. split; [intros _ | reflexivity].
      split; [exact Eo |]. rewrite Eo in Ec. rewrite <- Ec. ring.
    + split; [discriminate |]. intros [_ Hc]. exfalso.
      assert (F : Qeq_bool (closing - opening) 0 = true).
      { apply Qeq_bool_iff. rewrite Eo, Hc. ring. }
      congruence.
  - cbn. split; [discriminate |]. intros [Ho _].
    apply Qeq_bool_iff in Ho. congruence.
Qed.

Lemma postWeeklyData_eq userId platformId start closing notes w :
  postWeeklyData userId platformId start closing notes w
  = match platformById platformId w with
    | None => (Returned PlatformNotFound, w)
    | Some platform =>
        let ws := weeklyPlatformData w in
        let opening :=
          match nearestBefore platformId start ws with
          | Some previousWeek => WeeklyPlatformData.closingValue previousWeek
          | None => PlatformInvestment.amount platform
          end in
        let row := postedRow userId platformId start opening closing notes in
        if js_isNaN (WeeklyPlatformData.weeklyReturn row)
        then (Returned WeeklyDataError, w)
        else if existsb (startsAt platformId start) ws
             then (Returned WeeklyDataError, w)
             else (Returned (WeeklyDataSaved row),
                   withPlatforms w
                     (replacePlatform
                        (withReturns platform
                           (PlatformInvestment.returnPercentage platform)
                           closing)
                        (platformInvestments w))
                     (ws ++ [row]))
    end.
Proof.
  unfold postWeeklyData, catchAs, bind, findPlatformById, platformById.
  destruct (find _ (platformInvestments w)) as [platform |]; [| reflexivity].
  rewrite findBefore_eq. cbv zeta.
  replace (getDate start + 6)%Z with (getDate start + 6)%Z by reflexivity.
  rewrite setDate_plus.
  fold (postedRow userId platformId start
          match nearestBefore platformId start (weeklyPlatformData w) with
          | Some previousWeek => WeeklyPlatformData.closingValue previousWeek
          | None => PlatformInvestment.amount platform
          end closing notes).
  set (row := postedRow _ _ _ _ _ _).
  unfold create, bind, getWorld, throw, setWeeklyPlatformData, savePlatform,
    ret.
  destruct (js_isNaN (WeeklyPlatformData.weeklyReturn row)); [reflexivity |].
  unfold row at 1 2. cbn [postedRow WeeklyPlatformData.platformId
                            WeeklyPlatformData.weekStartDate].
  fold (startsAt platformId start).
  destruct (existsb _ _); reflexivity.
Qed.




(** The same week of a platform cannot be entered twice: after
    POST /platforms/weekly-data has saved a record, the same request again
    (whatever its closing value, notes and user) is answered with 500 and
    changes nothing. *)
Theorem postWeeklyData_twice (w w' : World) (userId platformId : ObjectId)
  (start : Date) (closing : Q) (notes : option N)
  (row : WeeklyPlatformData.t) (userId2 : ObjectId) (closing2 : Q)
  (notes2 : option N) :
  postWeeklyData userId platformId start closing notes w
  = (Returned (WeeklyDataSaved row), w') ->
  postWeeklyData userId2 platformId start closing2 notes2 w'
  = (Returned WeeklyDataError, w').
Proof.
  rewrite postWeeklyData_eq.
  destruct (platformById platformId w) as [platform |] eqn:Ep;
    [| discriminate].
  cbv zeta.
  pose proof (find_platform_id _ _ _ Ep) as Hid.
  destruct (js_isNaN _); [discriminate |].
  destruct (existsb _ _); [discriminate |].
  intros H. injection H as <- <-.
  rewrite postWeeklyData_eq.
  set (w' := withPlatforms _ _ _).
  assert (Hp' : exists platform', platformById platformId w' = Some platform').
  { unfold platformById, w'. cbn [withPlatforms platformInvestments].
    eexists. rewrite <- Hid.
    apply (find_replacePlatform_same
             (withReturns platform
                (PlatformInvestment.returnPercentage platform) closing)
             _ platform).
    cbn [withReturns PlatformInvestment._id]. now rewrite Hid. }
  destruct Hp' as (platform' & ->). cbv zeta.
  assert (Hdup : existsb (startsAt platformId start) (weeklyPlatformData w')
                 = true).
  { unfold w'. cbn [withPlatforms weeklyPlatformData].
    rewrite existsb_app. apply orb_true_iff. right. cbn [existsb].
    unfold startsAt, ofPlatform, postedRow.
    cbn [WeeklyPlatformData.platformId WeeklyPlatformData.weekStartDate].
    now rewrite N.eqb_refl, Z.eqb_refl. }
  rewrite Hdup. destruct (js_isNaN _); reflexivity.
Qed.

Lemma postWeeklyData_twice_witness :
  exists w',
    snd (postWeeklyData 1 7 1705276800000 1300 None weeklyWorld) = w' /\
    postWeeklyData 2 7 1705276800000 1400 None w'
    = (Returned WeeklyDataError, w').
Proof.
  destruct (postWeeklyData 1 7 1705276800000 1300 None weeklyWorld)
    as [o w'] eqn:E.
  assert (Ho : exists row, o = Returned (WeeklyDataSaved row)).
  { change o with (fst (o, w')). rewrite <- E. vm_compute. eauto. }
  destruct Ho as (row & ->).
  exists w'. split; [reflexivity |].
  exact (postWeeklyData_twice _ _ _ _ _ _ _ _ 2%N 1400 None E).
Defined.



Lemma putPlatformReturns_eq platformId r v w :
  putPlatformReturns platformId r v w
  = match platformById platformId w with
    | None => (Returned PlatformMissing, w)
    | Some platform =>
        let platform' := withReturns platform r v in
        let w1 := withPlatforms w
                    (replacePlatform platform' (platformInvestments w))
                    (weeklyPlatformData w) in
        match calculateMonthlyReturns (clock w (ticks w)) (tick w1) with
        | (Returned _, w') => (Returned (PlatformUpdated platform'), w')
        | (Thrown _, w') => (Returned PlatformError, w')
        | (Diverges, w') => (Diverges, w')
        end
    end.
Proof.
  unfold putPlatformReturns, catchAs, bind, findPlatformById, platformById.
  destruct (find _ (platformInvestments w)) as [platform |]; [| reflexivity].
  cbv zeta. unfold savePlatform, newDate.
  cbn [users investments platformInvestments weeklyPlatformData
         monthlyReturns clock ticks].
  fold (withPlatforms w
          (replacePlatform (withReturns platform r v) (platformInvestments w))
          (weeklyPlatformData w)).
  change (mkWorld (users w) (investments w)
            (replacePlatform (withReturns platform r v)
               (platformInvestments w))
            (weeklyPlatformData w) (monthlyReturns w) (clock w)
            (S (ticks w)))
    with (tick (withPlatforms w
                  (replacePlatform (withReturns platform r v)
                     (platformInvestments w))
                  (weeklyPlatformData w))).
  destruct (calculateMonthlyReturns _ _) as [[[] | e |] w']; reflexivity.
Qed.

(** X22. PUT /platform-investments/:platformId/returns answers 404 and
    changes nothing when no platform has the identifier.  Otherwise the
    platform is stored with the new return percentage and current value,
    and the other platforms are found as before, whatever the answer: when
    every investment selected at the end of the current month references an
    existing user, the answer is the updated platform and the snapshot of
    the current month carries the total value and the weighted return of
    the platforms as updated; when one does not, the answer is 500, no
    snapshot is written, and the update of the platform stays. *)
Theorem putPlatformReturns_spec (w : World) (platformId : ObjectId)
  (r v : Q) :
  let res := putPlatformReturns platformId r v w in
  let now := clock w (ticks w) in
  match platformById platformId w with
  | None => res = (Returned PlatformMissing, w)
  | Some platform =>
      let platform' := withReturns platform r v in
      let after := platformReturnsAt (platformInvestments (snd res))
                     (endOfMonth now) in
      platformById platformId (snd res) = Some platform' /\
      (forall id, id <> platformId ->
                  platformById id (snd res) = platformById id w) /\
      users (snd res) = users w /\ investments (snd res) = investments w /\
      (clientsResolve (endOfMonth now) w = true ->
       fst res = Returned (PlatformUpdated platform') /\
       exists doc,
         findMonth (startOfMonth now) (monthlyReturns (snd res)) = Some doc /\
         MonthlyReturn.monthlyReturnPercentage doc
         = calculateWeightedReturn after /\
         MonthlyReturn.totalPlatformValue doc = totalValue after) /\
      (clientsResolve (endOfMonth now) w = false ->
       fst res = Returned PlatformError /\
       monthlyReturns (snd res) = monthlyReturns w)
  end.
Proof.
  cbv zeta. rewrite putPlatformReturns_eq.
  destruct (platformById platformId w) as [platform |] eqn:Ep;
    [| reflexivity].
  cbv zeta.
  pose proof (find_platform_id _ _ _ Ep) as Hid.
  set (platform' := withReturns platform r v).
  set (ps' := replacePlatform platform' (platformInvestments w)).
  set (w1 := withPlatforms w ps' (weeklyPlatformData w)).
  assert (Hfind : find (fun p => N.eqb (PlatformInvestment._id p) platformId)
                    ps' = Some platform').
  { unfold ps'. rewrite <- Hid.
    apply (find_replacePlatform_same platform' _ platform).
    unfold platformById in Ep. cbn [platform' withReturns PlatformInvestment._id].
    now rewrite Hid. }
  assert (Hother : forall id, id <> platformId ->
             find (fun p => N.eqb (PlatformInvestment._id p) id) ps'
             = find (fun p => N.eqb (PlatformInvestment._id p) id)
                 (platformInvestments w)).
  { intros id Hne. apply find_replacePlatform_other.
    cbn [platform' withReturns PlatformInvestment._id]. now rewrite Hid. }
  rewrite calculateMonthlyReturns_eq.
  cbn [tick w1 withPlatforms users investments platformInvestments
         monthlyReturns clock ticks].
  destruct (corpusAt (users w) (investments w)
              (endOfMonth (clock w (ticks w)))) as [cd | e |] eqn:Ecd.
  - cbn [fst snd afterCalculation platformInvestments users investments
           monthlyReturns]. unfold platformById.
    cbn [platformInvestments].
    split; [exact Hfind |]. split; [exact Hother |].
    split; [reflexivity |]. split; [reflexivity |]. split.
    + intros _. split; [reflexivity |].
      eexists. split.
      * rewrite <- (snapshotOf_month ps' (clock w (ticks w)) cd
                      (clock w (S (ticks w)))).
        apply findMonth_upsert.
      * split; reflexivity.
    + intros Hres. exfalso.
      rewrite (corpusAt_unresolved _ w Hres) in Ecd. discriminate Ecd.
  - cbn [fst snd]. unfold platformById.
    cbn [tick platformInvestments users investments monthlyReturns].
    split; [exact Hfind |]. split; [exact Hother |].
    split; [reflexivity |]. split; [reflexivity |]. split.
    + intros Hres. exfalso.
      destruct (corpusAt_resolved _ w Hres) as (cd' & Hcd'). congruence.
    + intros _. split; reflexivity.
  - exfalso.
    destruct (corpusAt_outcome (users w) (investments w)
                (endOfMonth (clock w (ticks w)))) as [(cd & H) | H];
      congruence.
Qed.

Lemma filter_active_replace platform platform' ps :
  find (fun p => N.eqb (PlatformInvestment._id p)
                   (PlatformInvestment._id platform')) ps = Some platform ->
  filter PlatformInvestment.isActive ps = [platform] ->
  PlatformInvestment.isActive platform' = true ->
  filter PlatformInvestment.isActive (replacePlatform platform' ps)
  = [platform'].
Proof.
  intros Hfind Hact Hact'.
  induction ps as [|p ps IH]; [discriminate Hfind |].
  cbn [find replacePlatform filter] in *.
  destruct (N.eqb_spec (PlatformInvestment._id p)
              (PlatformInvestment._id platform')) as [E | N].
  - injection Hfind as ->. cbn [filter]. rewrite Hact'.
    destruct (PlatformInvestment.isActive platform) eqn:Ea.
    + injection Hact as ->. reflexivity.
    + exfalso.
      assert (Hin : In platform (filter PlatformInvestment.isActive ps))
        by (rewrite Hact; now left).
      apply filter_In in Hin. destruct Hin as [_ Hin]. congruence.
  - cbn [filter]. destruct (PlatformInvestment.isActive p) eqn:Ea.
    + exfalso. injection Hact as -> _.
      apply find_some in Hfind. destruct Hfind as [_ Hfind].
      apply N.eqb_eq in Hfind. contradiction.
    + exact (IH Hfind Hact).
Qed.

(** With a single active platform, the return percentage entered with
    PUT /platform-investments/:platformId/returns becomes the monthly return
    percentage of the current month: when the platform was invested by the
    end of the month and its new current value is not zero, the stored
    snapshot of the month has that percentage, and that value as its total
    platform value. *)
Theorem putPlatformReturns_single (w : World) (platformId : ObjectId)
  (r v : Q) (platform : PlatformInvestment.t) :
  let now := clock w (ticks w) in
  platformById platformId w = Some platform ->
  filter PlatformInvestment.isActive (platformInvestments w) = [platform] ->
  (PlatformInvestment.investmentDate platform <= endOfMonth now)%Z ->
  ~ v == 0 ->
  clientsResolve (endOfMonth now) w = true ->
  exists doc w',
    putPlatformReturns platformId r v w
    = (Returned (PlatformUpdated (withReturns platform r v)), w') /\
    findMonth (startOfMonth now) (monthlyReturns w') = Some doc /\
    MonthlyReturn.monthlyReturnPercentage doc == r /\
    MonthlyReturn.totalPlatformValue doc == v.
Proof.
  intros now Hp Hact Hdate Hv Hres.
  rewrite putPlatformReturns_eq, Hp. cbv zeta.
  pose proof (find_platform_id _ _ _ Hp) as Hid.
  set (platform' := withReturns platform r v).
  set (ps' := replacePlatform platform' (platformInvestments w)).
  assert (Hisact : PlatformInvestment.isActive platform = true).
  { assert (Hin : In platform (filter PlatformInvestment.isActive
                                 (platformInvestments w)))
      by (rewrite Hact; now left).
    apply filter_In in Hin. tauto. }
  assert (Hact' : filter PlatformInvestment.isActive ps' = [platform']).
  { apply (filter_active_replace platform); [| exact Hact | exact Hisact].
    unfold platformById in Hp. cbn [platform' withReturns PlatformInvestment._id].
    now rewrite Hid. }
  assert (Hsel : filter (platformSelected (endOfMonth now)) ps' = [platform']).
  { rewrite (filter_ext (platformSelected (endOfMonth now))
               (fun p => PlatformInvestment.isActive p
                         && (PlatformInvestment.investmentDate p
                             <=? endOfMonth now)%Z))
      by (intros p; unfold platformSelected; apply andb_comm).
    rewrite <- filter_filter, Hact'. cbn [filter].
    cbn [platform' withReturns PlatformInvestment.investmentDate].
    now rewrite (proj2 (Z.leb_le _ _) Hdate). }
  destruct (corpusAt_resolved _ w Hres) as (cd & Hcd).
  rewrite calculateMonthlyReturns_eq.
  cbn [tick withPlatforms users investments platformInvestments
         monthlyReturns clock ticks].
  fold now. rewrite Hcd.
  eexists _, _. split; [reflexivity |].
  cbn [afterCalculation monthlyReturns]. split.
  { rewrite <- (snapshotOf_month ps' now cd (clock w (S (ticks w)))).
    apply findMonth_upsert. }
  unfold snapshotOf, platformReturnsAt. fold ps'. rewrite Hsel.
  cbn [MonthlyReturn.monthlyReturnPercentage MonthlyReturn.totalPlatformValue
         fold_left map totalValue platforms toPlatformData].
  cbn [platform' withReturns PlatformInvestment.currentValue
         PlatformInvestment.returnPercentage].
  unfold calculateWeightedReturn.
  cbn [totalValue platforms fold_left PlatformData.currentValue
         PlatformData.returnPercentage].
  assert (Hb : Qeq_bool (0 + v) 0 = false).
  { destruct (Qeq_bool (0 + v) 0) eqn:E; [| reflexivity].
    apply Qeq_bool_iff in E. exfalso. apply Hv. rewrite <- E. ring. }
  rewrite Hb. unfold platform'.
  cbn [toPlatformData withReturns PlatformData.returnPercentage
         PlatformData.currentValue PlatformInvestment.returnPercentage
         PlatformInvestment.currentValue].
  split; [| ring].
  rewrite orZero_eq. field. intros E. apply Hv. rewrite <- E. ring.
Qed.

Lemma putPlatformReturns_single_witness :
  exists doc w',
    putPlatformReturns 7 12 1600
      (withPlatforms sampleWorld
         [PlatformInvestment.mk 7 70 1000 1704067200000 10 1500
            PlatformInvestment.active] [])
    = (Returned
         (PlatformUpdated
            (PlatformInvestment.mk 7 70 1000 1704067200000 12 1600
               PlatformInvestment.active)), w') /\
    findMonth 1709251200000 (monthlyReturns w') = Some doc /\
    MonthlyReturn.monthlyReturnPercentage doc == 12.
Proof.
  destruct (putPlatformReturns_single
              (withPlatforms sampleWorld
                 [PlatformInvestment.mk 7 70 1000 1704067200000 10 1500
                    PlatformInvestment.active] [])
              7%N 12 1600
              (PlatformInvestment.mk 7 70 1000 1704067200000 10 1500
                 PlatformInvestment.active))
    as (doc & w' & Hrun & Hdoc & Hpct & _).
  - reflexivity.
  - reflexivity.
  - vm_compute. discriminate.
  - discriminate.
  - vm_compute. reflexivity.
  - exists doc, w'. split; [exact Hrun |]. split; [| exact Hpct].
    rewrite <- Hdoc. f_equal.
Defined.

Lemma platformById_In id w :
  platformById id w <> None
  <-> In id (map PlatformInvestment._id (platformInvestments w)).
Proof.
  unfold platformById. generalize (platformInvestments w) as ps.
  induction ps as [|p ps IH]; cbn [find map In]; [tauto |].
  destruct (N.eqb_spec (PlatformInvestment._id p) id) as [E | N].
  - split; [now left | discriminate].
  - rewrite IH. tauto.
Qed.

(** The updated platform of an entry of a bulk update. *)
Lemma bulkUpdateOne_eq update w :
  bulkUpdateOne update w
  = match platformById (fst update) w with
    | Some platform =>
        (Returned (BulkResult.mk (PlatformInvestment._id platform)
                     (Some (PlatformInvestment.platformName platform)) true),
         withPlatforms w
           (replacePlatform
              (withReturns platform (snd update)
                 (PlatformInvestment.amount platform
                  * (1 + snd update / 100)))
              (platformInvestments w))
           (weeklyPlatformData w))
    | None => (Returned (BulkResult.mk (fst update) None false), w)
    end.
Proof.
  unfold bulkUpdateOne, bind, findPlatformById, platformById.
  destruct (find _ (platformInvestments w)); reflexivity.
Qed.

Lemma replacePlatform_amounts platform r v ps p0 :
  find (fun p => N.eqb (PlatformInvestment._id p)
                   (PlatformInvestment._id platform)) ps = Some platform ->
  p0 = withReturns platform r v ->
  map PlatformInvestment.amount (replacePlatform p0 ps)
  = map PlatformInvestment.amount ps.
Proof.
  intros Hfind ->. induction ps as [|p ps IH]; [reflexivity |].
  cbn [find replacePlatform map withReturns PlatformInvestment._id] in *.
  destruct (N.eqb (PlatformInvestment._id p)
              (PlatformInvestment._id platform)).
  - injection Hfind as ->. reflexivity.
  - cbn [map]. now rewrite (IH Hfind).
Qed.

Lemma mapAsync_bulkUpdateOne updates :
  forall w,
  exists results ps',
    mapAsync bulkUpdateOne updates w
    = (Returned results, withPlatforms w ps' (weeklyPlatformData w)) /\
    map BulkResult.platformId results = map fst updates /\
    Forall2 (fun u res => BulkResult.success res = true
                          <-> platformById (fst u) w <> None)
      updates results /\
    map PlatformInvestment._id ps'
    = map PlatformInvestment._id (platformInvestments w) /\
    map PlatformInvestment.amount ps'
    = map PlatformInvestment.amount (platformInvestments w) /\
    (forall id, ~ In id (map fst updates) ->
                find (fun p => N.eqb (PlatformInvestment._id p) id) ps'
                = platformById id w) /\
    (NoDup (map fst updates) ->
     forall id pct platform,
       In (id, pct) updates ->
       platformById id w = Some platform ->
       find (fun p => N.eqb (PlatformInvestment._id p) id) ps'
       = Some (withReturns platform pct
                 (PlatformInvestment.amount platform * (1 + pct / 100)))).
Proof.
  induction updates as [|u updates IH]; intros w.
  - exists [], (platformInvestments w).
    split; [now destruct w |]. split; [reflexivity |].
    split; [constructor |]. split; [reflexivity |]. split; [reflexivity |].
    split; [reflexivity |]. intros _ id pct platform [].
  - cbn [mapAsync]. unfold bind at 1. rewrite bulkUpdateOne_eq.
    destruct (platformById (fst u) w) as [platform |] eqn:Ep.
    + pose proof (find_platform_id _ _ _ Ep) as Hid.
      set (platform' := withReturns platform (snd u)
                          (PlatformInvestment.amount platform
                           * (1 + snd u / 100))).
      set (w1 := withPlatforms w
                   (replacePlatform platform' (platformInvestments w))
                   (weeklyPlatformData w)).
      assert (Hid' : PlatformInvestment._id platform' = fst u) by exact Hid.
      assert (Hsame : platformById (fst u) w1 = Some platform').
      { unfold platformById, w1. cbn [withPlatforms platformInvestments].
        rewrite <- Hid'.
        apply (find_replacePlatform_same platform' _ platform).
        unfold platformById in Ep. now rewrite Hid'. }
      assert (Hother : forall id, id <> fst u ->
                 platformById id w1 = platformById id w).
      { intros id Hne. unfold platformById, w1.
        cbn [withPlatforms platformInvestments].
        apply find_replacePlatform_other. now rewrite Hid'. }
      assert (Hex : forall id, platformById id w1 <> None
                               <-> platformById id w <> None).
      { intros id. rewrite !platformById_In. unfold w1.
        cbn [withPlatforms platformInvestments].
        now rewrite replacePlatform_ids. }
      destruct (IH w1)
        as (results & ps' & Hrun & Hids & Hsucc & Hpid & Hamt & Hkeep & Hupd).
      exists (BulkResult.mk (PlatformInvestment._id platform)
                (Some (PlatformInvestment.platformName platform)) true
              :: results), ps'.
      split.
      { unfold bind. rewrite Hrun. reflexivity. }
      split; [cbn [map BulkResult.platformId]; now rewrite Hid, Hids |].
      split.
      { constructor.
        - cbn [BulkResult.success]. rewrite Ep. split; [discriminate | reflexivity].
        - eapply Forall2_impl; [| exact Hsucc]. cbn beta. intros a b H.
          exact (iff_trans H (Hex (fst a))). }
      split.
      { rewrite Hpid. unfold w1. cbn [withPlatforms platformInvestments].
        apply replacePlatform_ids. }
      split.
      { rewrite Hamt. unfold w1. cbn [withPlatforms platformInvestments].
        apply (replacePlatform_amounts platform (snd u)
                 (PlatformInvestment.amount platform * (1 + snd u / 100))).
        - unfold platformById in Ep.
          cbn [withReturns PlatformInvestment._id]. now rewrite Hid.
        - unfold platform'. f_equal. }
      split.
      { intros id Hnot. cbn [map In] in Hnot.
        rewrite Hkeep by tauto. apply Hother. intros E. apply Hnot. now left. }
      intros Hnd id pct p Hin Hp. cbn [map] in Hnd.
      inversion Hnd as [|? ? Hfresh Hnd']; subst.
      destruct Hin as [Eu | Hin].
      * subst u. cbn [fst snd] in *.
        rewrite Hkeep by exact Hfresh. rewrite Hsame.
        rewrite Ep in Hp. injection Hp as <-. reflexivity.
      * assert (Hne : id <> fst u).
        { intros E. apply Hfresh. rewrite <- E.
          change id with (fst (id, pct)). now apply in_map. }
        apply (Hupd Hnd' id pct p Hin). now rewrite Hother.
    + destruct (IH w)
        as (results & ps' & Hrun & Hids & Hsucc & Hpid & Hamt & Hkeep & Hupd).
      exists (BulkResult.mk (fst u) None false :: results), ps'.
      split; [unfold bind; rewrite Hrun; reflexivity |].
      split; [cbn [map BulkResult.platformId]; now rewrite Hids |].
      split.
      { constructor; [| exact Hsucc]. cbn [BulkResult.success].
        rewrite Ep. split; [discriminate | intros H; now elim H]. }
      split; [exact Hpid |]. split; [exact Hamt |].
      split.
      { intros id Hnot. apply Hkeep. intros H. apply Hnot. now right. }
      intros Hnd id pct p Hin Hp. cbn [map] in Hnd.
      inversion Hnd as [|? ? Hfresh Hnd']; subst.
      destruct Hin as [Eu | Hin].
      * subst u. cbn [fst] in Ep. congruence.
      * exact (Hupd Hnd' id pct p Hin Hp).
Qed.

(** X23. POST /platform-investments/bulk-update treats its entries in order
    and reports one result per entry, with the identifier of the entry,
    successful exactly for the entries whose platform exists; no platform is
    added or removed and no invested amount changes; a platform that no
    entry names stays as it was; and, the identifiers of the entries being
    distinct, a platform named with a percentage gets that return
    percentage and the current value [amount * (1 + percentage / 100)].
    The platforms stay updated when the answer is 500, which it is exactly
    when an investment selected at the end of the current month references
    no user. *)
Theorem bulkUpdate_spec (w : World) (updates : list (ObjectId * Q)) :
  let res := bulkUpdate updates w in
  let now := clock w (ticks w) in
  exists results,
    map BulkResult.platformId results = map fst updates /\
    Forall2 (fun u result => BulkResult.success result = true
                             <-> platformById (fst u) w <> None)
      updates results /\
    (clientsResolve (endOfMonth now) w = true ->
     fst res = Returned (BulkUpdated results)) /\
    (clientsResolve (endOfMonth now) w = false ->
     fst res = Returned BulkError) /\
    map PlatformInvestment._id (platformInvestments (snd res))
    = map PlatformInvestment._id (platformInvestments w) /\
    map PlatformInvestment.amount (platformInvestments (snd res))
    = map PlatformInvestment.amount (platformInvestments w) /\
    (forall id, ~ In id (map fst updates) ->
                platformById id (snd res) = platformById id w) /\
    (NoDup (map fst updates) ->
     forall id pct platform,
       In (id, pct) updates ->
       platformById id w = Some platform ->
       platformById id (snd res)
       = Some (withReturns platform pct
                 (PlatformInvestment.amount platform * (1 + pct / 100)))).
Proof.
  cbv zeta.
  destruct (mapAsync_bulkUpdateOne updates w)
    as (results & ps' & Hrun & Hids & Hsucc & Hpid & Hamt & Hkeep & Hupd).
  exists results. split; [exact Hids |]. split; [exact Hsucc |].
  unfold bulkUpdate, catchAs, bind. rewrite Hrun.
  unfold newDate.
  cbn [withPlatforms users investments platformInvestments
         weeklyPlatformData monthlyReturns clock ticks].
  rewrite calculateMonthlyReturns_eq.
  cbn [users investments platformInvestments monthlyReturns clock ticks].
  unfold platformById.
  destruct (corpusAt (users w) (investments w)
              (endOfMonth (clock w (ticks w)))) as [cd | e |] eqn:Ecd;
    cbn [fst snd afterCalculation platformInvestments].
  - split; [reflexivity |]. split.
    { intros Hres. rewrite (corpusAt_unresolved _ w Hres) in Ecd.
      discriminate Ecd. }
    auto.
  - split.
    { intros Hres. destruct (corpusAt_resolved _ w Hres) as (cd & Hcd).
      congruence. }
    split; [reflexivity |]. auto.
  - exfalso.
    destruct (corpusAt_outcome (users w) (investments w)
                (endOfMonth (clock w (ticks w)))) as [(cd & H) | H];
      congruence.
Qed.

(** ** The monthly return from the weekly data *)

Lemma calculateMonthlyReturnFromWeekly_eq monthDate w :
  calculateMonthlyReturnFromWeekly monthDate w
  = (Returned
       (let (totalMonthStart, totalMonthEnd) :=
          fold_left (monthEnds (startOfMonth monthDate) (endOfMonth monthDate)
                       (weeklyPlatformData w))
            (filter PlatformInvestment.isActive (platformInvestments w))
            (0, 0) in
        js_scale (js_div (totalMonthEnd - totalMonthStart) totalMonthStart)
          100), w).
Proof.
  unfold calculateMonthlyReturnFromWeekly, bind, findActivePlatforms,
    getWorld, ret.
  fold (startOfMonth monthDate) (endOfMonth monthDate).
  destruct (fold_left _ _ _). reflexivity.
Qed.

Lemma monthEnds_nil s e platforms acc :
  fold_left (monthEnds s e []) platforms acc = acc.
Proof.
  induction platforms as [|p ps IH]; [reflexivity |].
  cbn [fold_left]. unfold monthEnds at 2. cbn [filter leastBy]. exact IH.
Qed.

Lemma weeksLoop_nil platform existingWeeks endDate fuel :
  forall c w,
    weeklyPlatformData w = [] ->
    weeksLoop fuel platform existingWeeks c endDate w = (Returned tt, w)
    \/ weeksLoop fuel platform existingWeeks c endDate w = (Diverges, w).
Proof.
  induction fuel as [|fuel IH]; intros c w Hnil; [now right |].
  cbn [weeksLoop]. destruct (c <=? endDate)%Z; [| now left].
  unfold bind. rewrite interpolateWeek_eq. cbv zeta. rewrite Hnil.
  destruct (weekExists existingWeeks c); [now apply IH |].
  unfold nearestBefore. cbn [filter leastBy]. now apply IH.
Qed.

Lemma interpolateMissingWeeks_nil startDate endDate w :
  weeklyPlatformData w = [] ->
  interpolateMissingWeeks startDate endDate w = (Returned tt, w).
Proof.
  intros Hnil. rewrite interpolateMissingWeeks_eq.
  generalize (filter PlatformInvestment.isActive (platformInvestments w))
    as qs.
  induction qs as [|p ps IH]; [reflexivity |].
  cbn [forOf]. unfold bind.
  pose proof (interpolatePlatform_outcome startDate endDate p w) as Hout.
  cbv zeta in Hout. rewrite interpolatePlatform_eq in *.
  destruct (weeksLoop_nil p
              (existingWeeksOf (PlatformInvestment._id p) startDate endDate
                 (weeklyPlatformData w))
              endDate (weeksFuel startDate endDate) startDate w Hnil)
    as [E | E]; rewrite E in *.
  - exact IH.
  - cbn [fst] in Hout. destruct Hout; discriminate.
Qed.

(** Without any weekly data, the monthly return from the weekly data is
    not a number (zero divided by zero).  POST
    /monthly-returns/calculate-from-weekly then reports that value with no
    weeks used, and still stores the snapshot that [calculateMonthlyReturns]
    computes from the platform investments; it answers 500, and stores
    nothing, when an investment selected at the end of the month references
    no user. *)
Theorem calculateFromWeekly_no_data (w : World) (monthDate : Date) :
  weeklyPlatformData w = [] ->
  calculateMonthlyReturnFromWeekly monthDate w = (Returned NaN, w) /\
  (clientsResolve (endOfMonth monthDate) w = true ->
   calculateFromWeekly monthDate w
   = (Returned (Json NaN 0), snd (calculateMonthlyReturns monthDate w))
   /\ fst (calculateMonthlyReturns monthDate w) = Returned tt) /\
  (clientsResolve (endOfMonth monthDate) w = false ->
   calculateFromWeekly monthDate w = (Returned Status500, w)).
Proof.
  intros Hnil.
  assert (Hpct : calculateMonthlyReturnFromWeekly monthDate w
                 = (Returned NaN, w)).
  { rewrite calculateMonthlyReturnFromWeekly_eq, Hnil, monthEnds_nil.
    reflexivity. }
  split; [exact Hpct |].
  assert (Hroute : calculateFromWeekly monthDate w
                   = match calculateMonthlyReturns monthDate w with
                     | (Returned _, w') => (Returned (Json NaN 0), w')
                     | (Thrown _, w') => (Returned Status500, w')
                     | (Diverges, w') => (Diverges, w')
                     end).
  { unfold calculateFromWeekly, catch500, bind at 1, getWorld.
    fold (startOfMonth monthDate) (endOfMonth monthDate).
    unfold bind at 1.
    rewrite (interpolateMissingWeeks_nil _ _ _ Hnil).
    unfold bind at 1. rewrite Hpct. unfold bind, callCalculateMonthlyReturns.
    rewrite Hnil. cbn [filter length].
    destruct (calculateMonthlyReturns monthDate w) as [[[] | e |] w'];
      reflexivity. }
  rewrite Hroute, calculateMonthlyReturns_eq. split.
  - intros Hres. destruct (corpusAt_resolved _ w Hres) as (cd & ->).
    split; reflexivity.
  - intros Hres. now rewrite (corpusAt_unresolved _ w Hres).
Qed.

Lemma calculateFromWeekly_no_data_witness :
  calculateMonthlyReturnFromWeekly 1705276800000 sampleWorld
  = (Returned NaN, sampleWorld) /\
  fst (calculateFromWeekly 1705276800000 sampleWorld)
  = Returned (Json NaN 0).
Proof.
  destruct (calculateFromWeekly_no_data sampleWorld 1705276800000%Z eq_refl)
    as (H1 & H2 & _).
  split; [exact H1 |].
  destruct H2 as [H2 _]; [vm_compute; reflexivity |]. now rewrite H2.
Defined.

Lemma interpolateMissingWeeks_run startDate endDate w :
  exists o rows,
    interpolateMissingWeeks startDate endDate w
    = (o, withWeeklyPlatformData w (weeklyPlatformData w ++ rows)) /\
    (o = Returned tt \/ o = Thrown CastError).
Proof.
  destruct (interpolateMissingWeeks_invariant
              (fun ws => exists rows, ws = weeklyPlatformData w ++ rows)
              startDate endDate w) as ((rows & Hrows) & Hframe).
  - intros platform ws i b a _ _ p c _ (rows & ->) _ _ _.
    eexists. now rewrite <- app_assoc.
  - exists []. now rewrite app_nil_r.
  - pose proof (forOf_interpolate_outcome startDate endDate
                  (filter PlatformInvestment.isActive (platformInvestments w))
                  w) as Hout.
    cbv zeta in Hout. rewrite <- interpolateMissingWeeks_eq in Hout.
    destruct (interpolateMissingWeeks startDate endDate w) as [o w'].
    cbn [fst snd] in *. exists o, rows. split; [| exact Hout].
    f_equal. rewrite Hframe. now rewrite Hrows.
Qed.


(** ** New investments and the cascade *)

Lemma forOf_calculate_fails months w m :
  In m months ->
  corpusAt (users w) (investments w) (endOfMonth m) = Thrown TypeError ->
  let res := forOf months calculateMonthlyReturns w in
  fst res = Thrown TypeError /\
  findMonth (startOfMonth m) (monthlyReturns (snd res))
  = findMonth (startOfMonth m) (monthlyReturns w).
Proof.
  intros Hin Hfail. cbv zeta.
  destruct (forOf months calculateMonthlyReturns w) as [o w'] eqn:E.
  cbn [fst snd].
  destruct (forOf_calculate_returns _ _ _ _ E) as [Hiff _].
  destruct (forOf_calculate_any _ _ _ _ E) as (_ & _ & _ & _ & Hfind).
  split.
  - destruct (forOf_calculate_error _ _ _ _ E) as [-> | ->]; [| reflexivity].
    exfalso. destruct Hiff as [Hall _].
    specialize (Hall eq_refl). rewrite Forall_forall in Hall.
    destruct (Hall m Hin) as (cd & Hcd). congruence.
  - destruct (Hfind (startOfMonth m))
      as [Hsame | (doc & _ & (m' & cd & at_ & Hm' & Hcd & _) & _)];
      [exact Hsame |].
    exfalso. rewrite (same_month _ _ Hm') in Hcd. congruence.
Qed.

Lemma In_monthsFrom_last k n :
  (0 < n)%nat -> In (monthStart (k + Z.of_nat n - 1)) (monthsFrom k n).
Proof.
  intros Hn. apply In_monthsFrom. exists (n - 1)%nat.
  split; [lia |]. f_equal. lia.
Qed.

Lemma corpusAt_dangling w date inv :
  In inv (investments w) ->
  Investment.isActive inv = true ->
  hasUser (users w) inv = false ->
  (Investment.investmentDate inv <= date)%Z ->
  corpusAt (users w) (investments w) date = Thrown TypeError.
Proof.
  intros Hin Hact Hu Hd. apply corpusAt_unresolved.
  apply clientsResolve_false. exists inv. split; [exact Hin |].
  split; [| exact Hu]. unfold selected. rewrite Hact, andb_true_r.
  now apply Z.leb_le.
Qed.

Lemma recalculateFromDate_fails w fromDate inv :
  let now := clock w (ticks w) in
  In inv (investments w) ->
  Investment.isActive inv = true ->
  hasUser (users w) inv = false ->
  (Investment.investmentDate inv <= endOfMonth now)%Z ->
  (monthIndex fromDate <= monthIndex now)%Z ->
  fst (recalculateFromDate fromDate w) = Thrown TypeError /\
  findMonth (startOfMonth now)
    (monthlyReturns (snd (recalculateFromDate fromDate w)))
  = findMonth (startOfMonth now) (monthlyReturns w).
Proof.
  intros now Hin Hact Hu Hd Hidx.
  rewrite recalculateFromDate_eq. cbv zeta. fold now.
  set (n := Z.to_nat (monthIndex now - monthIndex fromDate + 1)).
  assert (Hlast : In (monthStart (monthIndex now))
                    (monthsFrom (monthIndex fromDate) n)).
  { replace (monthIndex now)
      with (monthIndex fromDate + Z.of_nat n - 1)%Z by (unfold n; lia).
    apply In_monthsFrom_last. unfold n. lia. }
  assert (Hend : endOfMonth (monthStart (monthIndex now)) = endOfMonth now).
  { apply same_month. rewrite startOfMonth_monthStart.
    symmetry. apply startOfMonth_eq. }
  assert (Hfail : corpusAt (users (tick w)) (investments (tick w))
                    (endOfMonth (monthStart (monthIndex now)))
                  = Thrown TypeError).
  { rewrite Hend. now apply (corpusAt_dangling w _ inv). }
  destruct (forOf_calculate_fails _ (tick w) _ Hlast Hfail) as [Ho Hm].
  rewrite startOfMonth_monthStart, <- startOfMonth_eq in Hm.
  destruct (forOf _ _ (tick w)) as [o w']. cbn [fst snd] in *.
  subst o. cbn [fst snd]. split; [reflexivity | exact Hm].
Qed.

(** X25. One active investment that references no user blocks the cascade:
    when it is dated by the end of the current month, [recalculateFromDate]
    throws a [TypeError] from every starting date that is not in a later
    month than the current one; the snapshot of the current month is left
    as it was (those of earlier months may have been rewritten before the
    failure). *)
Theorem recalculateFromDate_dangling (w : World) (fromDate : Date)
  (inv : Investment.t) :
  let now := clock w (ticks w) in
  In inv (investments w) ->
  Investment.isActive inv = true ->
  hasUser (users w) inv = false ->
  (Investment.investmentDate inv <= endOfMonth now)%Z ->
  (monthIndex fromDate <= monthIndex now)%Z ->
  fst (recalculateFromDate fromDate w) = Thrown TypeError /\
  findMonth (startOfMonth now)
    (monthlyReturns (snd (recalculateFromDate fromDate w)))
  = findMonth (startOfMonth now) (monthlyReturns w).
Proof. exact (recalculateFromDate_fails w fromDate inv). Qed.

Lemma recalculateFromDate_dangling_witness :
  fst (recalculateFromDate 1704844800000 danglingWorld) = Thrown TypeError.
Proof.
  apply (recalculateFromDate_dangling danglingWorld 1704844800000%Z
           (Investment.mk 3 250 1705104000000 Investment.deposit
              Investment.active)).
  - cbn. do 5 right. now left.
  - reflexivity.
  - reflexivity.
  - vm_compute. discriminate.
  - vm_compute. discriminate.
Defined.

Lemma postInvestment_eq clientId amount date type w :
  let inv := Investment.mk clientId amount date type Investment.active in
  let w1 := withInvestments w (investments w ++ [inv]) in
  postInvestment clientId amount date type w
  = (Returned (InvestmentCreated inv), snd (recalculateFromDate date w1)).
Proof.
  cbv zeta. unfold postInvestment, catchAs, bind, saveInvestment, logError.
  fold (withInvestments w
          (investments w
           ++ [Investment.mk clientId amount date type Investment.active])).
  pose proof (recalculateFromDate_run date
                (withInvestments w
                   (investments w
                    ++ [Investment.mk clientId amount date type
                          Investment.active]))) as Hrun.
  destruct (recalculateFromDate date _) as [o w'] eqn:E.
  destruct (Hrun _ _ eq_refl) as (o' & Hfor & Hiff & _).
  destruct (forOf_calculate_error _ _ _ _ Hfor) as [-> | ->].
  - destruct (proj1 Hiff eq_refl) as (r & ->). reflexivity.
  - destruct o as [r | e |]; try reflexivity.
    exfalso. revert E. rewrite recalculateFromDate_eq. cbv zeta.
    rewrite Hfor. discriminate.
Qed.

Lemma filter_selected_snoc date invs inv :
  filter (selected date) (invs ++ [inv])
  = filter (selected date) invs ++ (if selected date inv then [inv] else []).
Proof. rewrite filter_app. cbn [filter]. now destruct (selected date inv). Qed.

Lemma allClientsResolve_snoc w inv :
  allClientsResolve w = true ->
  hasUser (users w) inv = true ->
  allClientsResolve (withInvestments w (investments w ++ [inv])) = true.
Proof.
  unfold allClientsResolve. cbn [withInvestments users investments].
  intros H Hu. rewrite filter_app, forallb_app, H. cbn [filter].
  destruct (Investment.isActive inv); cbn [forallb]; [now rewrite Hu |].
  reflexivity.
Qed.


(** X27. POST /investments accepts an investment of a client that does not
    exist: it answers with the created investment.  When the investment is
    dated by the end of the current month, the snapshot of the current
    month is not recalculated, and afterwards every recalculation from a
    date of the current or an earlier month throws a [TypeError], as long
    as the investment is dated by the end of the month then current. *)
Theorem postInvestment_unknown_client (w : World) (clientId : ObjectId)
  (amount : Q) (date : Date) (type : Investment.kind) :
  let inv := Investment.mk clientId amount date type Investment.active in
  let now := clock w (ticks w) in
  hasUser (users w) inv = false ->
  exists w',
    postInvestment clientId amount date type w
    = (Returned (InvestmentCreated inv), w') /\
    ((date <= endOfMonth now)%Z ->
     (monthIndex date <= monthIndex now)%Z ->
     findMonth (startOfMonth now) (monthlyReturns w')
     = findMonth (startOfMonth now) (monthlyReturns w)) /\
    (forall fromDate,
        let later := clock w' (ticks w') in
        (date <= endOfMonth later)%Z ->
        (monthIndex fromDate <= monthIndex later)%Z ->
        fst (recalculateFromDate fromDate w') = Thrown TypeError).
Proof.
  intros inv now Huser.
  set (w1 := withInvestments w (investments w ++ [inv])).
  exists (snd (recalculateFromDate date w1)).
  split; [apply postInvestment_eq |].
  assert (Hin1 : In inv (investments w1))
    by (cbn [w1 withInvestments investments]; apply in_or_app; right;
        now left).
  split.
  - intros Hd Hidx.
    pose proof (recalculateFromDate_fails w1 date inv) as H. cbv zeta in H.
    assert (Hnow : clock w1 (ticks w1) = now) by reflexivity.
    rewrite Hnow in H.
    assert (Hact : Investment.isActive inv = true) by reflexivity.
    assert (Hu1 : hasUser (users w1) inv = false) by exact Huser.
    assert (Hd1 : (Investment.investmentDate inv <= endOfMonth now)%Z)
      by exact Hd.
    destruct (H Hin1 Hact Hu1 Hd1 Hidx) as [_ H2].
    assert (Hm : monthlyReturns w1 = monthlyReturns w) by reflexivity.
    rewrite Hm in H2. exact H2.
  - intros fromDate. cbv zeta.
    destruct (recalculateFromDate date w1) as [o w'] eqn:E.
    destruct (recalculateFromDate_run _ _ _ _ E) as (o' & Hfor & _).
    destruct (forOf_calculate_any _ _ _ _ Hfor) as ((Hu & Hi & _) & _).
    cbn [snd]. cbn [tick users investments] in Hu, Hi.
    intros Hd Hidx.
    apply (recalculateFromDate_fails w' fromDate inv).
    + now rewrite <- Hi.
    + reflexivity.
    + unfold hasUser. rewrite <- Hu. exact Huser.
    + exact Hd.
    + exact Hidx.
Qed.

Lemma postInvestment_unknown_client_witness :
  exists w',
    postInvestment 3 250 1705104000000 Investment.deposit sampleWorld
    = (Returned (InvestmentCreated
                   (Investment.mk 3 250 1705104000000 Investment.deposit
                      Investment.active)), w').
Proof.
  destruct (postInvestment_unknown_client sampleWorld 3%N 250
              1705104000000%Z Investment.deposit) as (w' & H & _).
  - reflexivity.
  - exists w'. exact H.
Defined.


(** ** The end of the month *)

Lemma endOfMonth_midnight m :
  endOfMonth m = ((monthStartDay (monthIndex m + 1) - 1) * msPerDay)%Z.
Proof. rewrite endOfMonth_eq', monthStart_eq. unfold msPerDay. lia. Qed.

(** X28. The end of the month of [calculateMonthlyReturns] is the midnight
    that begins the last day of the month.  An investment dated later on
    that day belongs to the month but is not selected for its snapshot,
    whose corpus is the same as without the investment; when active, it is
    selected from the next month on. *)
Theorem calculateMonthlyReturns_last_day (w : World) (monthDate : Date)
  (i : nat) (inv : Investment.t) :
  nth_error (investments w) i = Some inv ->
  Day (Investment.investmentDate inv) = Day (endOfMonth monthDate) ->
  (0 < TimeWithinDay (Investment.investmentDate inv))%Z ->
  Day (endOfMonth monthDate) = (monthStartDay (monthIndex monthDate + 1) - 1)%Z
  /\ TimeWithinDay (endOfMonth monthDate) = 0%Z
  /\ monthIndex (Investment.investmentDate inv) = monthIndex monthDate
  /\ selected (endOfMonth monthDate) inv = false
  /\ fst (getCorpusAtDate (endOfMonth monthDate)
            (withInvestments w (cancelAt i (investments w))))
     = fst (getCorpusAtDate (endOfMonth monthDate) w)
  /\ (Investment.isActive inv = true ->
      selected (endOfMonth (monthStart (monthIndex monthDate + 1))) inv
      = true).
Proof.
  intros Hnth Hday Htime.
  set (k := monthIndex monthDate) in *.
  assert (Hend : endOfMonth monthDate
                 = ((monthStartDay (k + 1) - 1) * msPerDay)%Z)
    by apply endOfMonth_midnight.
  assert (HD : Day (endOfMonth monthDate) = (monthStartDay (k + 1) - 1)%Z)
    by (rewrite Hend; apply Day_midnight).
  assert (HT : TimeWithinDay (endOfMonth monthDate) = 0%Z).
  { rewrite Hend. unfold TimeWithinDay, msPerDay. apply Z.mod_mul. lia. }
  set (d := Investment.investmentDate inv) in *.
  assert (Hd : d = (Day d * msPerDay + TimeWithinDay d)%Z).
  { unfold Day, TimeWithinDay. rewrite Z.mul_comm.
    apply Z.div_mod. unfold msPerDay. lia. }
  assert (Hlt : (endOfMonth monthDate < d)%Z).
  { rewrite Hd, Hday, HD, Hend. lia. }
  assert (Hsel : selected (endOfMonth monthDate) inv = false).
  { unfold selected. fold d.
    rewrite (proj2 (Z.leb_gt _ _) Hlt). reflexivity. }
  split; [exact HD |]. split; [exact HT |]. split.
  { apply monthIndex_unique. rewrite Hday, HD.
    pose proof (monthStartDay_succ k). lia. }
  split; [exact Hsel |]. split.
  { rewrite !getCorpusAtDate_eq. cbn [fst]. unfold corpusAt.
    cbn [withInvestments users investments].
    now rewrite (cancelAt_unselected _ _ _ _ Hnth Hsel). }
  intros Hact. unfold selected. fold d. rewrite Hact, andb_true_r.
  apply Z.leb_le.
  rewrite endOfMonth_midnight, monthIndex_monthStart.
  pose proof (monthStartDay_succ (k + 1)).
  pose proof (Z.mod_pos_bound d msPerDay ltac:(unfold msPerDay; lia)) as HB.
  fold (TimeWithinDay d) in HB.
  rewrite Hd, Hday, HD. unfold msPerDay in *. lia.
Qed.

Lemma calculateMonthlyReturns_last_day_witness :
  selected (endOfMonth 1705276800000)
    (Investment.mk 1 100 1706702400000 Investment.deposit Investment.active)
  = false /\
  getDate 1706702400000 = 31%Z /\ getMonth 1706702400000 = 0%Z.
Proof.
  destruct (calculateMonthlyReturns_last_day
              (withInvestments sampleWorld
                 [Investment.mk 1 100 1706702400000 Investment.deposit
                    Investment.active])
              1705276800000%Z 0
              (Investment.mk 1 100 1706702400000 Investment.deposit
                 Investment.active))
    as (_ & _ & _ & H & _).
  - reflexivity.
  - vm_compute. reflexivity.
  - vm_compute. reflexivity.
  - split; [exact H |]. split; vm_compute; reflexivity.
Defined.

(** ** The authentication middleware *)

Lemma replace_Bearer token :
  Middleware.replace Middleware.Bearer String.EmptyString
    (String.append Middleware.Bearer token) = token.
Proof. reflexivity. Qed.

(** X29. [adminAuth] lets a request through only with a token that verifies
    to the identifier of a stored user whose role is admin: it calls [next]
    exactly when the Authorization header is present, is not empty once
    the first ["Bearer "] is removed, verifies, and names such a user; it
    answers 403 exactly when all of this holds but for the role, and 401
    otherwise.  A header made of ["Bearer "] and a token is read as that
    token. *)
Theorem adminAuth_spec (verify : String.string -> option ObjectId)
  (accounts : list Middleware.Account.t)
  (authorization : option String.string) :
  let authenticated user token :=
    exists header,
      authorization = Some header /\
      token = Middleware.replace Middleware.Bearer String.EmptyString header /\
      token <> String.EmptyString /\
      verify token = Some (Middleware.Account._id user) /\
      find (fun u => N.eqb (Middleware.Account._id u)
                       (Middleware.Account._id user)) accounts = Some user in
  (forall user token,
      Middleware.adminAuth verify accounts authorization
      = Middleware.Next user token
      <-> authenticated user token
          /\ Middleware.Account.role user = Middleware.admin) /\
  (Middleware.adminAuth verify accounts authorization = Middleware.Status403
   <-> exists user token,
         authenticated user token
         /\ Middleware.Account.role user = Middleware.client) /\
  (forall token,
      Middleware.auth verify accounts
        (Some (String.append Middleware.Bearer token))
      = match token with
        | String.EmptyString => Middleware.Status401
        | _ =>
            match verify token with
            | None => Middleware.Status401
            | Some userId =>
                match find (fun u => N.eqb (Middleware.Account._id u) userId)
                        accounts with
                | None => Middleware.Status401
                | Some user => Middleware.Next user token
                end
            end
        end).
Proof.
  intros authenticated. split; [| split].
  - intros user token. unfold Middleware.adminAuth, Middleware.auth.
    destruct authorization as [header |]; cbn [option_map].
    2:{ split; [discriminate |]. intros [(h & H & _) _]. discriminate H. }
    set (t := Middleware.replace Middleware.Bearer String.EmptyString header).
    split.
    + intros H. destruct t as [|c t'] eqn:Et; [discriminate H |].
      destruct (verify (String.String c t')) as [userId |] eqn:Ev;
        [| discriminate H].
      destruct (find _ accounts) as [u |] eqn:Ef; [| discriminate H].
      destruct (Middleware.Account.role u) eqn:Er; [| discriminate H].
      injection H as <- <-. split; [| exact Er].
      exists header. split; [reflexivity |]. split; [now rewrite <- Et |].
      split; [discriminate |].
      pose proof (find_some _ _ Ef) as [_ Hid]. apply N.eqb_eq in Hid.
      split; [now rewrite Hid | now rewrite Hid].
    + intros [(h & Hh & Ht & Hne & Hv & Hf) Hr]. injection Hh as <-.
      fold t in Ht. rewrite <- Ht.
      destruct token as [|c t']; [contradiction |].
      rewrite Hv, Hf, Hr. reflexivity.
  - unfold Middleware.adminAuth, Middleware.auth.
    destruct authorization as [header |]; cbn [option_map].
    2:{ split; [discriminate |]. intros (u & t & (h & H & _) & _).
        discriminate H. }
    set (t := Middleware.replace Middleware.Bearer String.EmptyString header).
    split.
    + intros H. destruct t as [|c t'] eqn:Et; [discriminate H |].
      destruct (verify (String.String c t')) as [userId |] eqn:Ev;
        [| discriminate H].
      destruct (find _ accounts) as [u |] eqn:Ef; [| discriminate H].
      destruct (Middleware.Account.role u) eqn:Er; [discriminate H |].
      exists u, (String.String c t'). split; [| exact Er].
      exists header. split; [reflexivity |]. split; [now rewrite <- Et |].
      split; [discriminate |].
      pose proof (find_some _ _ Ef) as [_ Hid]. apply N.eqb_eq in Hid.
      split; [now rewrite Hid | now rewrite Hid].
    + intros (u & token & (h & Hh & Ht & Hne & Hv & Hf) & Hr).
      injection Hh as <-. fold t in Ht. rewrite <- Ht.
      destruct token as [|c t']; [contradiction |].
      rewrite Hv, Hf, Hr. reflexivity.
  - intros token. unfold Middleware.auth. cbn [option_map].
    rewrite replace_Bearer. reflexivity.
Qed.

(** ** The weekly performance overview *)

Lemma lookupWeek_None gs k : lookupWeek gs k = None <-> ~ In k (weekKeys gs).
Proof.
  induction gs as [|g gs IH]; cbn [lookupWeek weekKeys map In]; [tauto |].
  destruct (Z.eqb_spec (WeekGroup.weekKey g) k) as [E | N].
  - split; [discriminate | intros H; exfalso; apply H; now left].
  - rewrite IH. unfold weekKeys. tauto.
Qed.

Lemma lookupWeek_In gs g :
  NoDup (weekKeys gs) -> In g gs ->
  lookupWeek gs (WeekGroup.weekKey g) = Some g.
Proof.
  induction gs as [|x gs IH]; intros Hnd Hin; [destruct Hin |].
  cbn [lookupWeek weekKeys map] in *.
  inversion Hnd as [|? ? Hx Hnd']; subst.
  destruct Hin as [-> | Hin]; [now rewrite Z.eqb_refl |].
  destruct (Z.eqb_spec (WeekGroup.weekKey x) (WeekGroup.weekKey g))
    as [E | N]; [| now apply IH].
  exfalso. apply Hx. rewrite E. now apply in_map.
Qed.

Lemma addToWeek_keys gs k e d : weekKeys (addToWeek gs k e d) = weekKeys gs.
Proof.
  unfold weekKeys. induction gs as [|g gs IH]; [reflexivity |].
  cbn [addToWeek]. destruct (WeekGroup.weekKey g =? k)%Z; cbn [map];
    [reflexivity | now rewrite IH].
Qed.

Section WeekTotals.

Variable F : WeekGroup.t -> Q.
Variable f : WeeklyPlatformData.t -> Q.
Hypothesis F_extend : forall g e d, F (extendWeek g e d) == F g + f d.
Hypothesis F_new : forall k s e, F (WeekGroup.mk k s e [] 0 0 0) == 0.

Lemma addToWeek_total gs k e d k' :
  In k (weekKeys gs) ->
  weekTotal F (addToWeek gs k e d) k'
  == weekTotal F gs k' + (if (k =? k')%Z then f d else 0).
Proof.
  unfold weekTotal.
  induction gs as [|g gs IH]; intros Hin; [destruct Hin |].
  cbn [addToWeek lookupWeek].
  destruct (Z.eqb_spec (WeekGroup.weekKey g) k) as [E | N].
  - cbn [lookupWeek extendWeek WeekGroup.weekKey]. rewrite E.
    destruct (Z.eqb_spec k k') as [E' | N']; [apply F_extend | ring].
  - cbn [lookupWeek].
    destruct (Z.eqb_spec (WeekGroup.weekKey g) k') as [E' | N'].
    + destruct (Z.eqb_spec k k') as [E'' | _]; [congruence | ring].
    + apply IH. destruct Hin as [Hin | Hin]; [contradiction | exact Hin].
Qed.

Lemma weekTotal_snoc gs k s e k' :
  ~ In k (weekKeys gs) ->
  weekTotal F (gs ++ [WeekGroup.mk k s e [] 0 0 0]) k' == weekTotal F gs k'.
Proof.
  unfold weekTotal. induction gs as [|g gs IH]; intros Hnot.
  - cbn [app lookupWeek WeekGroup.weekKey].
    destruct (k =? k')%Z; [apply F_new | reflexivity].
  - cbn [app lookupWeek].
    destruct (WeekGroup.weekKey g =? k')%Z; [reflexivity |].
    apply IH. intros H. apply Hnot. now right.
Qed.

Lemma addToWeek_sum gs k e d :
  In k (weekKeys gs) ->
  sumQ (map F (addToWeek gs k e d)) == sumQ (map F gs) + f d.
Proof.
  induction gs as [|g gs IH]; intros Hin; [destruct Hin |].
  cbn [addToWeek]. unfold sumQ in *.
  destruct (Z.eqb_spec (WeekGroup.weekKey g) k) as [E | N];
    cbn [map fold_right].
  - rewrite F_extend. ring.
  - rewrite IH; [ring |].
    destruct Hin as [Hin | Hin]; [contradiction | exact Hin].
Qed.

Lemma forEach_groupByWeek_total pds :
  Forall (fun pd => snd pd <> None) pds ->
  forall gs,
  exists gs',
    forEach groupByWeek pds gs = Returned gs' /\
    (forall k,
        weekTotal F gs' k
        == weekTotal F gs k
           + sumQ (map (fun pd => f (fst pd))
                     (filter (fun pd => onDay k (fst pd)) pds))) /\
    sumQ (map F gs')
    == sumQ (map F gs) + sumQ (map (fun pd => f (fst pd)) pds).
Proof.
  induction 1 as [|pd pds Hpd _ IH]; intros gs.
  - exists gs. split; [reflexivity |]. unfold sumQ. cbn.
    split; [intros k |]; ring.
  - cbn [forEach]. unfold groupByWeek at 1.
    destruct (snd pd) as [platform |] eqn:Ep; [| contradiction].
    set (k0 := Day (WeeklyPlatformData.weekStartDate (fst pd))).
    set (entry := PlatformEntry.mk _ _ _ _ _ _).
    set (gs1 := match lookupWeek gs k0 with
                | None => gs ++ [WeekGroup.mk k0
                                   (WeeklyPlatformData.weekStartDate (fst pd))
                                   (WeeklyPlatformData.weekEndDate (fst pd))
                                   [] 0 0 0]
                | Some _ => gs
                end).
    assert (Hin : In k0 (weekKeys gs1)).
    { unfold gs1. destruct (lookupWeek gs k0) eqn:E.
      - destruct (in_dec Z.eq_dec k0 (weekKeys gs)) as [H | H]; [exact H |].
        apply lookupWeek_None in H. congruence.
      - unfold weekKeys. rewrite map_app. apply in_or_app. right. now left. }
    assert (Htot1 : forall k, weekTotal F gs1 k == weekTotal F gs k).
    { intros k. unfold gs1. destruct (lookupWeek gs k0) eqn:E;
        [reflexivity |].
      apply weekTotal_snoc. now apply lookupWeek_None. }
    assert (Hsum1 : sumQ (map F gs1) == sumQ (map F gs)).
    { unfold gs1. destruct (lookupWeek gs k0); [reflexivity |].
      rewrite map_app, sumQ_app. unfold sumQ at 2. cbn [map fold_right].
      rewrite F_new. ring. }
    destruct (IH (addToWeek gs1 k0 entry (fst pd)))
      as (gs' & Hrun & Htot & Hsum).
    exists gs'. split; [exact Hrun |]. split.
    + intros k. rewrite Htot, (addToWeek_total _ _ _ _ _ Hin), Htot1.
      cbn [filter]. unfold onDay at 2. fold k0.
      destruct (k0 =? k)%Z; unfold sumQ; cbn [map fold_right]; ring.
    + rewrite Hsum, (addToWeek_sum _ _ _ _ Hin), Hsum1.
      unfold sumQ. cbn [map fold_right]. ring.
Qed.

End WeekTotals.

Lemma forEach_groupByWeek_keys pds :
  forall gs gs',
    forEach groupByWeek pds gs = Returned gs' ->
    Forall (fun g => WeekGroup.weekKey g = Day (WeekGroup.weekStartDate g))
      gs ->
    StronglySorted Z.le
      (map (fun pd => Day (WeeklyPlatformData.weekStartDate (fst pd))) pds) ->
    StronglySorted Z.lt (weekKeys gs) ->
    (forall k pd, In k (weekKeys gs) -> In pd pds ->
                  (k <= Day (WeeklyPlatformData.weekStartDate (fst pd)))%Z) ->
    Forall (fun g => WeekGroup.weekKey g = Day (WeekGroup.weekStartDate g))
      gs' /\
    StronglySorted Z.lt (weekKeys gs') /\
    (forall k, In k (weekKeys gs')
               <-> In k (weekKeys gs)
                   \/ In k (map (fun pd =>
                                   Day (WeeklyPlatformData.weekStartDate
                                          (fst pd))) pds)).
Proof.
  induction pds as [|pd pds IH]; intros gs gs' Hrun Hkey Hsorted Hlt Hle.
  - injection Hrun as <-. split; [exact Hkey |]. split; [exact Hlt |].
    intros k. cbn. tauto.
  - cbn [forEach] in Hrun. unfold groupByWeek at 1 in Hrun.
    destruct (snd pd) as [platform |]; [| discriminate Hrun].
    set (k0 := Day (WeeklyPlatformData.weekStartDate (fst pd))) in *.
    set (entry := PlatformEntry.mk _ _ _ _ _ _) in Hrun.
    set (gs1 := match lookupWeek gs k0 with
                | None => gs ++ [WeekGroup.mk k0
                                   (WeeklyPlatformData.weekStartDate (fst pd))
                                   (WeeklyPlatformData.weekEndDate (fst pd))
                                   [] 0 0 0]
                | Some _ => gs
                end) in *.
    cbn [map] in Hsorted. inversion Hsorted as [|? ? Hs' Hhd]; subst.
    fold k0 in Hhd.
    assert (Hkeys1 : (In k0 (weekKeys gs) /\ weekKeys gs1 = weekKeys gs)
                     \/ (~ In k0 (weekKeys gs)
                         /\ weekKeys gs1 = weekKeys gs ++ [k0])).
    { unfold gs1. destruct (lookupWeek gs k0) eqn:E.
      - left. split; [| reflexivity].
        destruct (in_dec Z.eq_dec k0 (weekKeys gs)) as [H | H]; [exact H |].
        apply lookupWeek_None in H. congruence.
      - right. split; [now apply lookupWeek_None |].
        unfold weekKeys. now rewrite map_app. }
    assert (Hin1 : forall k, In k (weekKeys gs1)
                             <-> In k (weekKeys gs) \/ k = k0).
    { intros k. destruct Hkeys1 as [[Hin ->] | [Hnot ->]].
      - split; [tauto |]. intros [H | ->]; [exact H | exact Hin].
      - rewrite in_app_iff. cbn. intuition. }
    destruct (IH (addToWeek gs1 k0 entry (fst pd)) gs' Hrun)
      as (K1 & K2 & K3).
    + assert (Hkey1 : Forall (fun g => WeekGroup.weekKey g
                                       = Day (WeekGroup.weekStartDate g))
                        gs1).
      { unfold gs1. destruct (lookupWeek gs k0); [exact Hkey |].
        apply Forall_app. split; [exact Hkey |].
        constructor; [reflexivity | constructor]. }
      clear - Hkey1. induction gs1 as [|g gs1 IHg]; [constructor |].
      inversion Hkey1; subst. cbn [addToWeek].
      destruct (WeekGroup.weekKey g =? k0)%Z; constructor; auto.
    + exact Hs'.
    + rewrite addToWeek_keys. destruct Hkeys1 as [[_ ->] | [Hnot ->]];
        [exact Hlt |].
      clear - Hlt Hle Hnot. revert Hlt Hle Hnot.
      generalize (weekKeys gs) as ks. intros ks Hlt Hle Hnot.
      induction Hlt as [|x xs Hs IHs Hx]; cbn [app].
      * repeat constructor.
      * constructor.
        -- apply IHs.
           ++ intros k pd' Hk. apply Hle. now right.
           ++ intros H. apply Hnot. now right.
        -- apply Forall_app. split; [exact Hx |].
           constructor; [| constructor].
           assert (x <= k0)%Z by (apply (Hle x pd); now left).
           assert (x <> k0) by (intros E; apply Hnot; now left). lia.
    + intros k pd' Hk Hpd'. rewrite addToWeek_keys in Hk.
      apply Hin1 in Hk. destruct Hk as [Hk | ->].
      * apply Hle; [exact Hk | now right].
      * rewrite Forall_forall in Hhd. apply Hhd.
        apply in_map_iff. eauto.
    + split; [exact K1 |]. split; [exact K2 |].
      intros k. rewrite K3, addToWeek_keys, Hin1. cbn [map In].
      fold k0. intuition.
Qed.

Lemma forEach_groupByWeek_throws pds :
  Exists (fun pd => snd pd = None) pds ->
  forall gs, forEach groupByWeek pds gs = Thrown TypeError.
Proof.
  induction pds as [|pd pds IH]; intros Hex gs; [inversion Hex |].
  cbn [forEach]. unfold groupByWeek at 1.
  destruct (snd pd) as [platform |] eqn:Ep; [| reflexivity].
  apply IH. inversion Hex as [? ? H | ? ? H]; subst; [congruence | exact H].
Qed.

Lemma populatePlatform_found ps d :
  snd (populatePlatform ps d) <> None <-> hasPlatform ps d = true.
Proof.
  unfold populatePlatform, hasPlatform. cbn [snd].
  induction ps as [|p ps IH]; cbn [find existsb].
  - split; [congruence | discriminate].
  - destruct (N.eqb (PlatformInvestment._id p)
                (WeeklyPlatformData.platformId d)); cbn [orb];
      [split; [reflexivity | discriminate] | exact IH].
Qed.

Lemma Day_mono a b : (a <= b)%Z -> (Day a <= Day b)%Z.
Proof.
  intros H. unfold Day. apply Z.div_le_mono; [| exact H].
  unfold msPerDay. lia.
Qed.

Lemma sorted_days (xs : list WeeklyPlatformData.t) :
  StronglySorted
    (fun a b => (WeeklyPlatformData.weekStartDate a
                 <= WeeklyPlatformData.weekStartDate b)%Z) xs ->
  StronglySorted Z.le
    (map (fun d => Day (WeeklyPlatformData.weekStartDate d)) xs).
Proof.
  induction 1 as [|x xs _ IH Hx]; cbn [map]; constructor; [exact IH |].
  rewrite Forall_forall in *. intros k Hk.
  apply in_map_iff in Hk. destruct Hk as (d & <- & Hd).
  apply Day_mono, Hx, Hd.
Qed.

Lemma filter_populated (g : WeeklyPlatformData.t -> bool) ps xs :
  map fst (filter (fun pd => g (fst pd)) (map (populatePlatform ps) xs))
  = filter g xs.
Proof.
  induction xs as [|x xs IH]; [reflexivity |].
  cbn [map filter populatePlatform fst].
  destruct (g x); cbn [map fst]; now rewrite IH.
Qed.

